(** * OpenLogReplicator: redo reader, LWN parser, swap selection and writer
      checkpointing, embedded from the C++ sources.

    Integers of the source are modelled as [Z] with the width noted at each
    definition; byte buffers are [list byte]; classes are records and their
    methods are functions that take and return the record. *)

From Stdlib Require Import ZArith List Lia Bool Arith PeanoNat ZifyNat.
From Stdlib Require Import Strings.Byte Btauto Permutation Sorted FinFun.
From Stdlib Require Import Wf_nat.
Import ListNotations.

Local Open Scope Z_scope.

(** ** common/types: Scn and Seq *)

Module Scn.
(** [class Scn]: a [uint64_t data]; every comparison operator compares
    [data]. *)
Definition t := Z.
Definition NONE : t := 0xFFFFFFFFFFFFFFFF.
Definition none : t := NONE.
Definition zero : t := 0.
Definition eqb (a b : t) : bool := a =? b.
Definition neb (a b : t) : bool := negb (a =? b).
Definition ltb (a b : t) : bool := a <? b.
Definition leb (a b : t) : bool := a <=? b.
Definition gtb (a b : t) : bool := a >? b.
Definition wf (a : t) : Prop := 0 <= a <= NONE.
End Scn.

Module Seq.
(** [class Seq]: a [uint32_t data]. *)
Definition t := Z.
Definition NONE : t := 0xFFFFFFFF.
Definition none : t := NONE.
Definition zero : t := 0.
Definition eqb (a b : t) : bool := a =? b.
Definition neb (a b : t) : bool := negb (a =? b).
Definition ltb (a b : t) : bool := a <? b.
Definition gtb (a b : t) : bool := a >? b.
End Seq.

(** ** Byte buffers *)

(** [buffer[off]] as an unsigned value; a read past the end of the modelled
    buffer yields 0. *)
Definition u8 (buffer : list byte) (off : Z) : Z :=
  Z.of_N (Byte.to_N (nth (Z.to_nat off) buffer x00)).

(** [buffer + off] *)
Definition advance (buffer : list byte) (off : Z) : list byte :=
  skipn (Z.to_nat off) buffer.

(** Modelled from the spec: [Ctx::read16] and [Ctx::read32] are not among the
    sources.  The spec says that endianness is detected from bytes 28-31 of
    block 0 and that both big-endian and little-endian source databases are
    read, so a field is decoded least-significant byte first unless the
    context was switched to big-endian. *)
Definition read16Little (buffer : list byte) (off : Z) : Z :=
  u8 buffer off + u8 buffer (off + 1) * 2 ^ 8.

Definition read16Big (buffer : list byte) (off : Z) : Z :=
  u8 buffer off * 2 ^ 8 + u8 buffer (off + 1).

Definition read32Little (buffer : list byte) (off : Z) : Z :=
  u8 buffer off + u8 buffer (off + 1) * 2 ^ 8 + u8 buffer (off + 2) * 2 ^ 16
  + u8 buffer (off + 3) * 2 ^ 24.

Definition read32Big (buffer : list byte) (off : Z) : Z :=
  u8 buffer off * 2 ^ 24 + u8 buffer (off + 1) * 2 ^ 16
  + u8 buffer (off + 2) * 2 ^ 8 + u8 buffer (off + 3).

Definition read16 (bigEndian : bool) (buffer : list byte) (off : Z) : Z :=
  if bigEndian then read16Big buffer off else read16Little buffer off.

Definition read32 (bigEndian : bool) (buffer : list byte) (off : Z) : Z :=
  if bigEndian then read32Big buffer off else read32Little buffer off.

(** [*reinterpret_cast<const uint64_t*>(buffer)]: the eight bytes at
    [buffer] as the host loads them.  The byte order of the host is a
    parameter of the model. *)
Definition load64Little (buffer : list byte) : Z :=
  u8 buffer 0 + u8 buffer 1 * 2 ^ 8 + u8 buffer 2 * 2 ^ 16
  + u8 buffer 3 * 2 ^ 24 + u8 buffer 4 * 2 ^ 32 + u8 buffer 5 * 2 ^ 40
  + u8 buffer 6 * 2 ^ 48 + u8 buffer 7 * 2 ^ 56.

Definition load64Big (buffer : list byte) : Z :=
  u8 buffer 0 * 2 ^ 56 + u8 buffer 1 * 2 ^ 48 + u8 buffer 2 * 2 ^ 40
  + u8 buffer 3 * 2 ^ 32 + u8 buffer 4 * 2 ^ 24 + u8 buffer 5 * 2 ^ 16
  + u8 buffer 6 * 2 ^ 8 + u8 buffer 7.

Definition load64 (hostBig : bool) (buffer : list byte) : Z :=
  if hostBig then load64Big buffer else load64Little buffer.

(** ** Reader::calcChSum *)

(** The [for] loop of [calcChSum]: [n] iterations, each one XORs the word at
    [buffer] into [sum] and advances [buffer] by [sizeof(uint64_t)]. *)
Fixpoint xorWords (hostBig : bool) (n : nat) (buffer : list byte) (sum : Z) : Z :=
  match n with
  | O => sum
  | S n' => xorWords hostBig n' (advance buffer 8) (Z.lxor sum (load64 hostBig buffer))
  end.

Definition calcChSum (hostBig bigEndian : bool) (buffer : list byte) (size : Z) : Z :=
  let oldChSum := read16 bigEndian buffer 14 in
  let sum := xorWords hostBig (Z.to_nat (size / 8)) buffer 0 in
  let sum := Z.lxor sum (Z.shiftr sum 32) in
  let sum := Z.lxor sum (Z.shiftr sum 16) in
  let sum := Z.lxor sum oldChSum in
  Z.land sum 0xFFFF.

(** The 16-bit fold: [sum ^= sum >> 32; sum ^= sum >> 16], kept to 16
    bits. *)
Definition fold16 (sum : Z) : Z :=
  let sum := Z.lxor sum (Z.shiftr sum 32) in
  let sum := Z.lxor sum (Z.shiftr sum 16) in
  Z.land sum 0xFFFF.

(** Overwriting the two checksum bytes at offsets 14 and 15. *)
Definition setChSumBytes (buffer : list byte) (b14 b15 : byte) : list byte :=
  firstn 14 buffer ++ b14 :: b15 :: skipn 16 buffer.

(** ** Reader (reader/Reader.h, reader/Reader.cpp) *)

Module Reader.

Inductive REDO_CODE : Set :=
| OK | OVERWRITTEN | FINISHED | STOPPED | SHUTDOWN | EMPTY | ERROR_READ
| ERROR_WRITE | ERROR_SEQUENCE | ERROR_CRC | ERROR_BLOCK | ERROR_BAD_DATA
| ERROR.

Scheme Equality for REDO_CODE.

(** The reader's [STATUS], as the states the code tests for. *)
Inductive STATUS : Set := SLEEPING | CHECK | UPDATE | READ.

Scheme Equality for STATUS.

(** What a call leaves behind besides the new state: log lines with their
    numeric code, metrics, sleeps and the calls on the copy file.  Trace
    output ([logTrace]) is not recorded. *)
Inductive Event : Set :=
| LogError (code : Z)
| LogWarning (code : Z)
| LogHint
| LogInfo
| EmitBytesRead (n : Z)
| Usleep (us : Z)
| CloseCopy (fd : Z)
| BufferAllocate (num : Z)
| StampReadTime (numBlock : Z) (time : Z)
| NotifyParser.

(** A call either returns or throws an exception with a numeric code. *)
Inductive outcome (A : Type) : Type :=
| Returns (a : A)
| Throws (code : Z).
Arguments Returns {A} a.
Arguments Throws {A} code.

(** The fields of [Ctx] that the reader consults. *)
Record Ctx := mkCtx {
  softShutdown : bool;
  bigEndian : bool;                (* isBigEndian() *)
  disableChecksBlockSum : bool;    (* isDisableChecksSet(BLOCK_SUM) *)
  redoCopyPathEmpty : bool;        (* redoCopyPath.empty() *)
  metrics : bool;                  (* metrics != nullptr *)
  version : Z;
  redoVerifyDelayUs : Z;
  redoReadSleepUs : Z;
  memoryChunksReadBufferMax : Z
}.

Definition setBigEndian (c : Ctx) : Ctx :=
  mkCtx (softShutdown c) true (disableChecksBlockSum c) (redoCopyPathEmpty c)
    (metrics c) (version c) (redoVerifyDelayUs c) (redoReadSleepUs c)
    (memoryChunksReadBufferMax c).

Definition set_version (v : Z) (c : Ctx) : Ctx :=
  mkCtx (softShutdown c) (bigEndian c) (disableChecksBlockSum c)
    (redoCopyPathEmpty c) (metrics c) v (redoVerifyDelayUs c)
    (redoReadSleepUs c) (memoryChunksReadBufferMax c).

(** The fields of [class Reader] that the modelled methods read or write. *)
Record t := mk {
  fileSize : Z;  (* uint64_t *)
  group : Z;  (* int *)
  sequence : Seq.t;
  numBlocksHeader : Z;  (* typeBlk *)
  resetlogs : Z;
  activation : Z;
  headerBuffer : list byte;  (* uint8_t* *)
  compatVsn : Z;  (* uint32_t *)
  firstTimeHeader : Z;
  firstScn : Scn.t;
  firstScnHeader : Scn.t;
  nextScn : Scn.t;
  nextScnHeader : Scn.t;
  nextTime : Z;
  blockSize : Z;  (* uint *)
  bufferScan : Z;  (* uint64_t *)
  lastRead : Z;  (* uint *)
  lastReadTime : Z;  (* time_ut *)
  bufferStart : Z;  (* atomic uint64_t *)
  bufferEnd : Z;  (* atomic uint64_t *)
  status : STATUS;
  ret : REDO_CODE;
  hintDisplayed : bool;
  configuredBlockSum : bool;
  readBlocks : bool;
  reachedZero : bool;
  fileCopyDes : Z;  (* int, -1 when closed *)
  fileCopySequence : Seq.t
}.

Definition set_fileSize (v : Z) (r : t) : t :=
  mk v (group r) (sequence r) (numBlocksHeader r) (resetlogs r) (activation r)
    (headerBuffer r) (compatVsn r) (firstTimeHeader r) (firstScn r)
    (firstScnHeader r) (nextScn r) (nextScnHeader r) (nextTime r)
    (blockSize r) (bufferScan r) (lastRead r) (lastReadTime r) (bufferStart r)
    (bufferEnd r) (status r) (ret r) (hintDisplayed r) (configuredBlockSum r)
    (readBlocks r) (reachedZero r) (fileCopyDes r) (fileCopySequence r).
Definition set_sequence (v : Seq.t) (r : t) : t :=
  mk (fileSize r) (group r) v (numBlocksHeader r) (resetlogs r) (activation r)
    (headerBuffer r) (compatVsn r) (firstTimeHeader r) (firstScn r)
    (firstScnHeader r) (nextScn r) (nextScnHeader r) (nextTime r)
    (blockSize r) (bufferScan r) (lastRead r) (lastReadTime r) (bufferStart r)
    (bufferEnd r) (status r) (ret r) (hintDisplayed r) (configuredBlockSum r)
    (readBlocks r) (reachedZero r) (fileCopyDes r) (fileCopySequence r).
Definition set_numBlocksHeader (v : Z) (r : t) : t :=
  mk (fileSize r) (group r) (sequence r) v (resetlogs r) (activation r)
    (headerBuffer r) (compatVsn r) (firstTimeHeader r) (firstScn r)
    (firstScnHeader r) (nextScn r) (nextScnHeader r) (nextTime r)
    (blockSize r) (bufferScan r) (lastRead r) (lastReadTime r) (bufferStart r)
    (bufferEnd r) (status r) (ret r) (hintDisplayed r) (configuredBlockSum r)
    (readBlocks r) (reachedZero r) (fileCopyDes r) (fileCopySequence r).
Definition set_resetlogs (v : Z) (r : t) : t :=
  mk (fileSize r) (group r) (sequence r) (numBlocksHeader r) v (activation r)
    (headerBuffer r) (compatVsn r) (firstTimeHeader r) (firstScn r)
    (firstScnHeader r) (nextScn r) (nextScnHeader r) (nextTime r)
    (blockSize r) (bufferScan r) (lastRead r) (lastReadTime r) (bufferStart r)
    (bufferEnd r) (status r) (ret r) (hintDisplayed r) (configuredBlockSum r)
    (readBlocks r) (reachedZero r) (fileCopyDes r) (fileCopySequence r).
Definition set_activation (v : Z) (r : t) : t :=
  mk (fileSize r) (group r) (sequence r) (numBlocksHeader r) (resetlogs r) v
    (headerBuffer r) (compatVsn r) (firstTimeHeader r) (firstScn r)
    (firstScnHeader r) (nextScn r) (nextScnHeader r) (nextTime r)
    (blockSize r) (bufferScan r) (lastRead r) (lastReadTime r) (bufferStart r)
    (bufferEnd r) (status r) (ret r) (hintDisplayed r) (configuredBlockSum r)
    (readBlocks r) (reachedZero r) (fileCopyDes r) (fileCopySequence r).
Definition set_headerBuffer (v : list byte) (r : t) : t :=
  mk (fileSize r) (group r) (sequence r) (numBlocksHeader r) (resetlogs r)
    (activation r) v (compatVsn r) (firstTimeHeader r) (firstScn r)
    (firstScnHeader r) (nextScn r) (nextScnHeader r) (nextTime r)
    (blockSize r) (bufferScan r) (lastRead r) (lastReadTime r) (bufferStart r)
    (bufferEnd r) (status r) (ret r) (hintDisplayed r) (configuredBlockSum r)
    (readBlocks r) (reachedZero r) (fileCopyDes r) (fileCopySequence r).
Definition set_compatVsn (v : Z) (r : t) : t :=
  mk (fileSize r) (group r) (sequence r) (numBlocksHeader r) (resetlogs r)
    (activation r) (headerBuffer r) v (firstTimeHeader r) (firstScn r)
    (firstScnHeader r) (nextScn r) (nextScnHeader r) (nextTime r)
    (blockSize r) (bufferScan r) (lastRead r) (lastReadTime r) (bufferStart r)
    (bufferEnd r) (status r) (ret r) (hintDisplayed r) (configuredBlockSum r)
    (readBlocks r) (reachedZero r) (fileCopyDes r) (fileCopySequence r).
Definition set_firstTimeHeader (v : Z) (r : t) : t :=
  mk (fileSize r) (group r) (sequence r) (numBlocksHeader r) (resetlogs r)
    (activation r) (headerBuffer r) (compatVsn r) v (firstScn r)
    (firstScnHeader r) (nextScn r) (nextScnHeader r) (nextTime r)
    (blockSize r) (bufferScan r) (lastRead r) (lastReadTime r) (bufferStart r)
    (bufferEnd r) (status r) (ret r) (hintDisplayed r) (configuredBlockSum r)
    (readBlocks r) (reachedZero r) (fileCopyDes r) (fileCopySequence r).
Definition set_firstScn (v : Scn.t) (r : t) : t :=
  mk (fileSize r) (group r) (sequence r) (numBlocksHeader r) (resetlogs r)
    (activation r) (headerBuffer r) (compatVsn r) (firstTimeHeader r) v
    (firstScnHeader r) (nextScn r) (nextScnHeader r) (nextTime r)
    (blockSize r) (bufferScan r) (lastRead r) (lastReadTime r) (bufferStart r)
    (bufferEnd r) (status r) (ret r) (hintDisplayed r) (configuredBlockSum r)
    (readBlocks r) (reachedZero r) (fileCopyDes r) (fileCopySequence r).
Definition set_firstScnHeader (v : Scn.t) (r : t) : t :=
  mk (fileSize r) (group r) (sequence r) (numBlocksHeader r) (resetlogs r)
    (activation r) (headerBuffer r) (compatVsn r) (firstTimeHeader r)
    (firstScn r) v (nextScn r) (nextScnHeader r) (nextTime r) (blockSize r)
    (bufferScan r) (lastRead r) (lastReadTime r) (bufferStart r) (bufferEnd r)
    (status r) (ret r) (hintDisplayed r) (configuredBlockSum r) (readBlocks r)
    (reachedZero r) (fileCopyDes r) (fileCopySequence r).
Definition set_nextScn (v : Scn.t) (r : t) : t :=
  mk (fileSize r) (group r) (sequence r) (numBlocksHeader r) (resetlogs r)
    (activation r) (headerBuffer r) (compatVsn r) (firstTimeHeader r)
    (firstScn r) (firstScnHeader r) v (nextScnHeader r) (nextTime r)
    (blockSize r) (bufferScan r) (lastRead r) (lastReadTime r) (bufferStart r)
    (bufferEnd r) (status r) (ret r) (hintDisplayed r) (configuredBlockSum r)
    (readBlocks r) (reachedZero r) (fileCopyDes r) (fileCopySequence r).
Definition set_nextScnHeader (v : Scn.t) (r : t) : t :=
  mk (fileSize r) (group r) (sequence r) (numBlocksHeader r) (resetlogs r)
    (activation r) (headerBuffer r) (compatVsn r) (firstTimeHeader r)
    (firstScn r) (firstScnHeader r) (nextScn r) v (nextTime r) (blockSize r)
    (bufferScan r) (lastRead r) (lastReadTime r) (bufferStart r) (bufferEnd r)
    (status r) (ret r) (hintDisplayed r) (configuredBlockSum r) (readBlocks r)
    (reachedZero r) (fileCopyDes r) (fileCopySequence r).
Definition set_nextTime (v : Z) (r : t) : t :=
  mk (fileSize r) (group r) (sequence r) (numBlocksHeader r) (resetlogs r)
    (activation r) (headerBuffer r) (compatVsn r) (firstTimeHeader r)
    (firstScn r) (firstScnHeader r) (nextScn r) (nextScnHeader r) v
    (blockSize r) (bufferScan r) (lastRead r) (lastReadTime r) (bufferStart r)
    (bufferEnd r) (status r) (ret r) (hintDisplayed r) (configuredBlockSum r)
    (readBlocks r) (reachedZero r) (fileCopyDes r) (fileCopySequence r).
Definition set_blockSize (v : Z) (r : t) : t :=
  mk (fileSize r) (group r) (sequence r) (numBlocksHeader r) (resetlogs r)
    (activation r) (headerBuffer r) (compatVsn r) (firstTimeHeader r)
    (firstScn r) (firstScnHeader r) (nextScn r) (nextScnHeader r) (nextTime r)
    v (bufferScan r) (lastRead r) (lastReadTime r) (bufferStart r)
    (bufferEnd r) (status r) (ret r) (hintDisplayed r) (configuredBlockSum r)
    (readBlocks r) (reachedZero r) (fileCopyDes r) (fileCopySequence r).
Definition set_bufferScan (v : Z) (r : t) : t :=
  mk (fileSize r) (group r) (sequence r) (numBlocksHeader r) (resetlogs r)
    (activation r) (headerBuffer r) (compatVsn r) (firstTimeHeader r)
    (firstScn r) (firstScnHeader r) (nextScn r) (nextScnHeader r) (nextTime r)
    (blockSize r) v (lastRead r) (lastReadTime r) (bufferStart r)
    (bufferEnd r) (status r) (ret r) (hintDisplayed r) (configuredBlockSum r)
    (readBlocks r) (reachedZero r) (fileCopyDes r) (fileCopySequence r).
Definition set_lastRead (v : Z) (r : t) : t :=
  mk (fileSize r) (group r) (sequence r) (numBlocksHeader r) (resetlogs r)
    (activation r) (headerBuffer r) (compatVsn r) (firstTimeHeader r)
    (firstScn r) (firstScnHeader r) (nextScn r) (nextScnHeader r) (nextTime r)
    (blockSize r) (bufferScan r) v (lastReadTime r) (bufferStart r)
    (bufferEnd r) (status r) (ret r) (hintDisplayed r) (configuredBlockSum r)
    (readBlocks r) (reachedZero r) (fileCopyDes r) (fileCopySequence r).
Definition set_lastReadTime (v : Z) (r : t) : t :=
  mk (fileSize r) (group r) (sequence r) (numBlocksHeader r) (resetlogs r)
    (activation r) (headerBuffer r) (compatVsn r) (firstTimeHeader r)
    (firstScn r) (firstScnHeader r) (nextScn r) (nextScnHeader r) (nextTime r)
    (blockSize r) (bufferScan r) (lastRead r) v (bufferStart r) (bufferEnd r)
    (status r) (ret r) (hintDisplayed r) (configuredBlockSum r) (readBlocks r)
    (reachedZero r) (fileCopyDes r) (fileCopySequence r).
Definition set_bufferEnd (v : Z) (r : t) : t :=
  mk (fileSize r) (group r) (sequence r) (numBlocksHeader r) (resetlogs r)
    (activation r) (headerBuffer r) (compatVsn r) (firstTimeHeader r)
    (firstScn r) (firstScnHeader r) (nextScn r) (nextScnHeader r) (nextTime r)
    (blockSize r) (bufferScan r) (lastRead r) (lastReadTime r) (bufferStart r)
    v (status r) (ret r) (hintDisplayed r) (configuredBlockSum r)
    (readBlocks r) (reachedZero r) (fileCopyDes r) (fileCopySequence r).
Definition set_ret (v : REDO_CODE) (r : t) : t :=
  mk (fileSize r) (group r) (sequence r) (numBlocksHeader r) (resetlogs r)
    (activation r) (headerBuffer r) (compatVsn r) (firstTimeHeader r)
    (firstScn r) (firstScnHeader r) (nextScn r) (nextScnHeader r) (nextTime r)
    (blockSize r) (bufferScan r) (lastRead r) (lastReadTime r) (bufferStart r)
    (bufferEnd r) (status r) v (hintDisplayed r) (configuredBlockSum r)
    (readBlocks r) (reachedZero r) (fileCopyDes r) (fileCopySequence r).
Definition set_hintDisplayed (v : bool) (r : t) : t :=
  mk (fileSize r) (group r) (sequence r) (numBlocksHeader r) (resetlogs r)
    (activation r) (headerBuffer r) (compatVsn r) (firstTimeHeader r)
    (firstScn r) (firstScnHeader r) (nextScn r) (nextScnHeader r) (nextTime r)
    (blockSize r) (bufferScan r) (lastRead r) (lastReadTime r) (bufferStart r)
    (bufferEnd r) (status r) (ret r) v (configuredBlockSum r) (readBlocks r)
    (reachedZero r) (fileCopyDes r) (fileCopySequence r).
Definition set_readBlocks (v : bool) (r : t) : t :=
  mk (fileSize r) (group r) (sequence r) (numBlocksHeader r) (resetlogs r)
    (activation r) (headerBuffer r) (compatVsn r) (firstTimeHeader r)
    (firstScn r) (firstScnHeader r) (nextScn r) (nextScnHeader r) (nextTime r)
    (blockSize r) (bufferScan r) (lastRead r) (lastReadTime r) (bufferStart r)
    (bufferEnd r) (status r) (ret r) (hintDisplayed r) (configuredBlockSum r)
    v (reachedZero r) (fileCopyDes r) (fileCopySequence r).
Definition set_reachedZero (v : bool) (r : t) : t :=
  mk (fileSize r) (group r) (sequence r) (numBlocksHeader r) (resetlogs r)
    (activation r) (headerBuffer r) (compatVsn r) (firstTimeHeader r)
    (firstScn r) (firstScnHeader r) (nextScn r) (nextScnHeader r) (nextTime r)
    (blockSize r) (bufferScan r) (lastRead r) (lastReadTime r) (bufferStart r)
    (bufferEnd r) (status r) (ret r) (hintDisplayed r) (configuredBlockSum r)
    (readBlocks r) v (fileCopyDes r) (fileCopySequence r).
Definition set_fileCopyDes (v : Z) (r : t) : t :=
  mk (fileSize r) (group r) (sequence r) (numBlocksHeader r) (resetlogs r)
    (activation r) (headerBuffer r) (compatVsn r) (firstTimeHeader r)
    (firstScn r) (firstScnHeader r) (nextScn r) (nextScnHeader r) (nextTime r)
    (blockSize r) (bufferScan r) (lastRead r) (lastReadTime r) (bufferStart r)
    (bufferEnd r) (status r) (ret r) (hintDisplayed r) (configuredBlockSum r)
    (readBlocks r) (reachedZero r) v (fileCopySequence r).
Definition set_fileCopySequence (v : Seq.t) (r : t) : t :=
  mk (fileSize r) (group r) (sequence r) (numBlocksHeader r) (resetlogs r)
    (activation r) (headerBuffer r) (compatVsn r) (firstTimeHeader r)
    (firstScn r) (firstScnHeader r) (nextScn r) (nextScnHeader r) (nextTime r)
    (blockSize r) (bufferScan r) (lastRead r) (lastReadTime r) (bufferStart r)
    (bufferEnd r) (status r) (ret r) (hintDisplayed r) (configuredBlockSum r)
    (readBlocks r) (reachedZero r) (fileCopyDes r) v.

Definition PAGE_SIZE_MAX : Z := 4096.
Definition BAD_CDC_MAX_CNT : Z := 20.

Section Methods.

(** Byte order of the host that runs the reader. *)
Variable hostBig : bool.

(** Constants of [Ctx] whose declaration is not among the sources. *)
Variable MIN_BLOCK_SIZE : Z.
Variable MEMORY_CHUNK_SIZE : Z.
Variable ZERO_BLK : Z.

(** [Ctx::readScn], not among the sources. *)
Variable readScn : bool -> list byte -> Z -> Scn.t.

(** The pure virtual [redoRead(buf, offset, size)]: the count it returns and
    the bytes it stored at [buf]. *)
Variable redoRead : Z -> Z -> Z * list byte.

(** [open] of the copy file for a sequence (the descriptor or -1) and
    [pwrite(fd, buf, count, offset)]. *)
Variable openCopy : Seq.t -> Z.
Variable pwrite : Z -> list byte -> Z -> Z -> Z.

(** [ctx->clock->getTimeUt()] *)
Variable getTimeUt : Z.

Definition checksum (c : Ctx) (buffer : list byte) (size : Z) : Z :=
  calcChSum hostBig (bigEndian c) buffer size.

(** [Reader::checkBlockHeader] *)
Definition checkBlockHeader (c : Ctx) (r : t) (buffer : list byte)
    (blockNumber : Z) (showHint : bool) : REDO_CODE * t * list Event :=
  if (u8 buffer 0 =? 0) && (u8 buffer 1 =? 0) then (EMPTY, r, [])
  else if ((blockSize r =? 512) && negb (u8 buffer 1 =? 0x22))
       || ((blockSize r =? 1024) && negb (u8 buffer 1 =? 0x22))
       || ((blockSize r =? 4096) && negb (u8 buffer 1 =? 0x82))
  then (ERROR_BAD_DATA, r, [LogError 40001])
  else
    let blockNumberHeader := read32 (bigEndian c) buffer 4 in
    let sequenceHeader : Seq.t := read32 (bigEndian c) buffer 8 in
    let seqCheck : option REDO_CODE * t * list Event :=
      if Seq.eqb (sequence r) Seq.zero || STATUS_beq (status r) UPDATE
      then (None, set_sequence sequenceHeader r, [])
      else if group r =? 0 then
        if Seq.neb (sequence r) sequenceHeader
        then (Some ERROR_SEQUENCE, r, [LogWarning 60024])
        else (None, r, [])
      else if Seq.gtb (sequence r) sequenceHeader then (Some EMPTY, r, [])
      else if Seq.ltb (sequence r) sequenceHeader then (Some OVERWRITTEN, r, [])
      else (None, r, []) in
    match seqCheck with
    | (Some code, r, lg) => (code, r, lg)
    | (None, r, lg) =>
      if negb (blockNumberHeader =? blockNumber)
      then (ERROR_BLOCK, r, lg ++ [LogError 40002])
      else if negb (disableChecksBlockSum c) then
        let chSum := read16 (bigEndian c) buffer 14 in
        let chSumCalculated := checksum c buffer (blockSize r) in
        if negb (chSum =? chSumCalculated) then
          if showHint then
            if negb (hintDisplayed r) then
              (ERROR_CRC, set_hintDisplayed true r,
               lg ++ [LogWarning 60025]
                  ++ (if negb (configuredBlockSum r) then [LogHint] else []))
            else (ERROR_CRC, r, lg ++ [LogWarning 60025])
          else (ERROR_CRC, r, lg)
        else (OK, r, lg)
      else (OK, r, lg)
    end.

(** [Reader::readSize]; [prevRead] is a 32-bit [uint]. *)
Definition readSize (r : t) (prevRead : Z) : Z :=
  if prevRead <? blockSize r then blockSize r
  else Z.min ((prevRead * 2) mod 2 ^ 32) MEMORY_CHUNK_SIZE.

(** The test on the size field and header byte 1 in [reloadHeaderRead]. *)
Definition blockSizeOK (size h1 : Z) : bool :=
  ((size =? 512) && (h1 =? 0x22))
  || ((size =? 1024) && (h1 =? 0x22))
  || ((size =? 4096) && (h1 =? 0x82)).

(** The byte-order mark of bytes 28-31: the context after the test, or
    [None] when the mark is refused (error 40004). *)
Definition detectEndian (c : Ctx) (h : list byte) : option Ctx :=
  if (u8 h 28 =? 0x7A) && (u8 h 29 =? 0x7B) && (u8 h 30 =? 0x7C)
     && (u8 h 31 =? 0x7D)
  then Some (if negb (bigEndian c) then setBigEndian c else c)
  else if negb (u8 h 28 =? 0x7D) || negb (u8 h 29 =? 0x7C)
          || negb (u8 h 30 =? 0x7B) || negb (u8 h 31 =? 0x7A) || bigEndian c
  then None
  else Some c.

(** The tail of [reloadHeaderRead] that mirrors the header to the copy
    file. *)
Definition copyHeader (c : Ctx) (r : t) (actualRead : Z) (lg : list Event)
    : outcome REDO_CODE * Ctx * t * list Event :=
  let h := headerBuffer r in
  let actualRead :=
    if actualRead >? blockSize r * 2 then blockSize r * 2 else actualRead in
  let sequenceHeader : Seq.t := read32 (bigEndian c) h (blockSize r + 8) in
  let '(r, lg) :=
    if Seq.neb (fileCopySequence r) sequenceHeader
       && negb (fileCopyDes r =? -1)
    then (set_fileCopyDes (-1) r, lg ++ [CloseCopy (fileCopyDes r)])
    else (r, lg) in
  let opened : option (t * list Event) :=
    if fileCopyDes r =? -1 then
      let fd := openCopy sequenceHeader in
      if fd =? -1 then None
      else Some (set_fileCopySequence sequenceHeader (set_fileCopyDes fd r),
                 lg ++ [LogInfo])
    else Some (r, lg) in
  match opened with
  | None => (Throws 10006, c, r, lg)
  | Some (r, lg) =>
    let bytesWritten := pwrite (fileCopyDes r) h actualRead 0 in
    if negb (bytesWritten =? actualRead)
    then (Returns ERROR_WRITE, c, r, lg ++ [LogError 10007])
    else (Returns OK, c, r, lg)
  end.

(** [Reader::reloadHeaderRead] *)
Definition reloadHeaderRead (c : Ctx) (r : t)
    : outcome REDO_CODE * Ctx * t * list Event :=
  if softShutdown c then (Returns ERROR, c, r, [])
  else
    let '(actualRead, data) :=
      redoRead 0 (if blockSize r >? 0 then blockSize r * 2
                  else PAGE_SIZE_MAX * 2) in
    let r := set_headerBuffer (data ++ skipn (length data) (headerBuffer r)) r in
    if actualRead <? MIN_BLOCK_SIZE
    then (Returns ERROR_READ, c, r, [LogError 40003])
    else
      let lg := if metrics c then [EmitBytesRead actualRead] else [] in
      let h := headerBuffer r in
      if negb (u8 h 0 =? 0)
      then (Returns ERROR_BAD_DATA, c, r, lg ++ [LogError 40003])
      else
        match detectEndian c h with
        | None => (Returns ERROR_BAD_DATA, c, r, lg ++ [LogError 40004])
        | Some c =>
          let r := set_blockSize (read32 (bigEndian c) h 20) r in
          if negb (blockSizeOK (blockSize r) (u8 h 1))
          then (Returns ERROR_BAD_DATA, c, set_blockSize 0 r,
                lg ++ [LogError 40005])
          else if actualRead <? blockSize r * 2
          then (Returns ERROR_READ, c, r, lg ++ [LogError 40003])
          else if negb (redoCopyPathEmpty c) then copyHeader c r actualRead lg
          else (Returns OK, c, r, lg)
        end.

(** The compatibility versions [reloadHeader] accepts. *)
Definition versionSupported (v : Z) : bool :=
  ((0x0B200000 <=? v) && (v <=? 0x0B200400))
  || ((0x0C100000 <=? v) && (v <=? 0x0C100200))
  || ((0x0C200000 <=? v) && (v <=? 0x0C200100))
  || ((0x12000000 <=? v) && (v <=? 0x120E0000))
  || ((0x13000000 <=? v) && (v <=? 0x13120000))
  || ((0x15000000 <=? v) && (v <=? 0x15080000))
  || ((0x17000000 <=? v) && (v <=? 0x17030000)).

(** How the CRC retry loop of [reloadHeader] is left: by the [return] inside
    it or by its condition. *)
Inductive loopExit : Set :=
| LoopReturn (code : REDO_CODE)
| LoopDone (retReload : REDO_CODE).

(** [while (retReload == ERROR_CRC) { ... }] of [reloadHeader].  Each unit of
    [fuel] pays for one evaluation of the loop condition; [None] means that
    the fuel ran out before the loop was left. *)
Fixpoint crcRetryLoop (fuel : nat) (c : Ctx) (r : t) (retReload : REDO_CODE)
    (badBlockCrcCount : Z) (lg : list Event)
    : option (loopExit * t * list Event) :=
  match fuel with
  | O => None
  | S fuel' =>
    if REDO_CODE_beq retReload ERROR_CRC then
      let badBlockCrcCount := badBlockCrcCount + 1 in
      if badBlockCrcCount =? BAD_CDC_MAX_CNT
      then Some (LoopReturn ERROR_BAD_DATA, r, lg)
      else
        let '(retReload, r', lg') :=
          checkBlockHeader c r (advance (headerBuffer r) (blockSize r)) 1
            false in
        crcRetryLoop fuel' c r' retReload badBlockCrcCount
          (lg ++ Usleep (redoReadSleepUs c) :: lg')
    else Some (LoopDone retReload, r, lg)
  end.

(** The end of [reloadHeader]: first and next SCN against the header. *)
Definition updateScn (c : Ctx) (r : t) (lg : list Event)
    : outcome REDO_CODE * Ctx * t * list Event :=
  let first : option t :=
    if Scn.eqb (firstScn r) Scn.none || STATUS_beq (status r) UPDATE
    then Some (set_nextScn (nextScnHeader r)
                 (set_firstScn (firstScnHeader r) r))
    else if Scn.neb (firstScnHeader r) (firstScn r) then None
    else Some r in
  match first with
  | None => (Returns ERROR_BAD_DATA, c, r, lg ++ [LogError 40008])
  | Some r =>
    if Scn.eqb (nextScn r) Scn.none && Scn.neb (nextScnHeader r) Scn.none
    then (Returns OK, c, set_nextScn (nextScnHeader r) r, lg)
    else if Scn.neb (nextScn r) Scn.none
            && Scn.neb (nextScnHeader r) Scn.none
            && Scn.neb (nextScn r) (nextScnHeader r)
    then (Returns ERROR_BAD_DATA, c, r, lg ++ [LogError 40009])
    else (Returns OK, c, r, lg)
  end.

(** The assignments of [reloadHeader] that copy header fields of block 1. *)
Definition readHeaderFields (c : Ctx) (r : t) : t :=
  let hb := advance (headerBuffer r) (blockSize r) in
  let be := bigEndian c in
  set_nextTime (read32 be hb 200)
    (set_nextScnHeader (readScn be hb 192)
      (set_firstTimeHeader (read32 be hb 188)
        (set_firstScnHeader (readScn be hb 180)
          (set_resetlogs (read32 be hb 160)
            (set_numBlocksHeader (read32 be hb 156)
              (set_activation (read32 be hb 52) r)))))).

(** [Reader::reloadHeader]; [fuel] is handed to the CRC retry loop.  The
    version string and the column limit that the first call derives are not
    tracked. *)
Definition reloadHeader (fuel : nat) (c : Ctx) (r : t)
    : option (outcome REDO_CODE * Ctx * t * list Event) :=
  let '(res, c, r, lg) := reloadHeaderRead c r in
  match res with
  | Throws e => Some (Throws e, c, r, lg)
  | Returns OK =>
    let hb := advance (headerBuffer r) (blockSize r) in
    let r := set_compatVsn (read32 (bigEndian c) hb 20) r in
    if compatVsn r =? 0 then Some (Returns EMPTY, c, r, lg)
    else if negb (versionSupported (compatVsn r))
    then Some (Returns ERROR_BAD_DATA, c, r, lg ++ [LogError 40006])
    else
      let vsn := compatVsn r in
      let r := readHeaderFields c r in
      let '(r, lg) :=
        if negb (numBlocksHeader r =? ZERO_BLK)
           && (fileSize r >? numBlocksHeader r * blockSize r)
           && (group r =? 0)
        then (set_fileSize (numBlocksHeader r * blockSize r) r,
              lg ++ [LogInfo])
        else (r, lg) in
      let '(c, lg) :=
        if version c =? 0 then (set_version vsn c, lg ++ [LogInfo])
        else (c, lg) in
      if negb (vsn =? version c)
      then Some (Returns ERROR_BAD_DATA, c, r, lg ++ [LogError 40007])
      else
        let '(retReload, r, lg0) := checkBlockHeader c r hb 1 false in
        match crcRetryLoop fuel c r retReload 0 (lg ++ lg0) with
        | None => None
        | Some (LoopReturn code, r, lg) => Some (Returns code, c, r, lg)
        | Some (LoopDone retReload, r, lg) =>
          if negb (REDO_CODE_beq retReload OK)
          then Some (Returns retReload, c, r, lg)
          else Some (updateScn c r lg)
        end
  | Returns code => Some (Returns code, c, r, lg)
  end.

(** The [for] loop of [read1] over the blocks just read: [k] blocks remain,
    [numBlock] is the loop variable. *)
Fixpoint scanBlocks (c : Ctx) (r : t) (data : list byte)
    (bufferScanBlock : Z) (showHint : bool) (k : nat) (numBlock : Z)
    (goodBlocks : Z) (currentRet : REDO_CODE) (lg : list Event)
    : Z * REDO_CODE * t * list Event :=
  match k with
  | O => (goodBlocks, currentRet, r, lg)
  | S k' =>
    let '(currentRet, r, lg') :=
      checkBlockHeader c r (advance data (numBlock * blockSize r))
        (bufferScanBlock + numBlock) showHint in
    if negb (REDO_CODE_beq currentRet OK)
    then (goodBlocks, currentRet, r, lg ++ lg')
    else scanBlocks c r data bufferScanBlock showHint k' (numBlock + 1)
           (goodBlocks + 1) currentRet (lg ++ lg')
  end.

(** The number of bytes [read1] asks for. *)
Definition read1ToRead (r : t) : Z :=
  let toRead := readSize r (lastRead r) in
  let toRead :=
    if bufferScan r + toRead >? fileSize r
    then (fileSize r - bufferScan r) mod 2 ^ 32 else toRead in
  let redoBufferPos := bufferScan r mod MEMORY_CHUNK_SIZE in
  if redoBufferPos + toRead >? MEMORY_CHUNK_SIZE
  then MEMORY_CHUNK_SIZE - redoBufferPos else toRead.

(** The end of a batch-mode file in [read1]: FINISHED with the header's next
    SCN, or STOPPED with warning 60023. *)
Definition endOfFile (r : t) (lg : list Event) : t * list Event :=
  if Scn.neb (nextScnHeader r) Scn.none
  then (set_nextScn (nextScnHeader r) (set_ret FINISHED r), lg)
  else (set_ret STOPPED r, lg ++ [LogWarning 60023]).

(** [read1] after the block scan, from the test for a log switch on. *)
Definition read1Publish (fuel : nat) (c : Ctx) (r : t) (goodBlocks : Z)
    (currentRet : REDO_CODE) (lg : list Event)
    : option (outcome bool * Ctx * t * list Event) :=
  let switch : option (outcome (option REDO_CODE) * Ctx * t * list Event) :=
    if (goodBlocks =? 0) && REDO_CODE_beq currentRet EMPTY then
      match reloadHeader fuel c r with
      | None => None
      | Some (Throws e, c, r, lg') => Some (Throws e, c, r, lg ++ lg')
      | Some (Returns OK, c, r, lg') =>
        Some (Returns (Some OK), c, set_reachedZero true r, lg ++ lg')
      | Some (Returns code, c, r, lg') =>
        Some (Returns None, c, set_ret code r, lg ++ lg')
      end
    else Some (Returns (Some currentRet), c,
               set_reachedZero false (set_readBlocks true r), lg) in
  match switch with
  | None => None
  | Some (Throws e, c, r, lg) => Some (Throws e, c, r, lg)
  | Some (Returns None, c, r, lg) => Some (Returns false, c, r, lg)
  | Some (Returns (Some currentRet), c, r, lg) =>
    let r := set_lastReadTime getTimeUt
               (set_lastRead ((goodBlocks * blockSize r) mod 2 ^ 32) r) in
    let '(r, lg) :=
      if goodBlocks >? 0 then
        if (redoVerifyDelayUs c >? 0) && negb (group r =? 0) then
          (set_bufferScan (bufferScan r + goodBlocks * blockSize r) r,
           lg ++ map (fun n => StampReadTime (Z.of_nat n) (lastReadTime r))
                     (seq 0 (Z.to_nat goodBlocks)))
        else
          let r := set_bufferEnd (bufferEnd r + goodBlocks * blockSize r) r in
          (set_bufferScan (bufferEnd r) r, lg ++ [NotifyParser])
      else (r, lg) in
    if REDO_CODE_beq currentRet ERROR_SEQUENCE && (group r =? 0) then
      let '(r, lg) := endOfFile r lg in Some (Returns false, c, r, lg)
    else Some (Returns true, c, r, lg)
  end.

(** [Reader::read1] *)
Definition read1 (fuel : nat) (c : Ctx) (r : t)
    : option (outcome bool * Ctx * t * list Event) :=
  let toRead := read1ToRead r in
  let redoBufferNum :=
    (bufferScan r / MEMORY_CHUNK_SIZE) mod memoryChunksReadBufferMax c in
  if toRead =? 0
  then Some (Returns false, c, set_ret ERROR r, [LogError 40010])
  else
    let lg := [BufferAllocate redoBufferNum] in
    let '(actualRead, data) := redoRead (bufferScan r) toRead in
    if actualRead <? 0
    then Some (Returns false, c, set_ret ERROR_READ r, lg ++ [LogError 40003])
    else
      let lg := lg ++ (if metrics c then [EmitBytesRead actualRead] else []) in
      let showHint := (redoVerifyDelayUs c =? 0) || (group r =? 0) in
      if (actualRead >? 0) && negb (fileCopyDes r =? -1) && showHint
         && negb (pwrite (fileCopyDes r) data actualRead (bufferEnd r)
                  =? actualRead)
      then Some (Returns false, c, set_ret ERROR_WRITE r,
                 lg ++ [LogError 10007])
      else
        let maxNumBlock := actualRead / blockSize r in
        let bufferScanBlock := bufferScan r / blockSize r in
        let '(goodBlocks, currentRet, r, lg) :=
          scanBlocks c r data bufferScanBlock showHint (Z.to_nat maxNumBlock)
            0 0 OK lg in
        if (goodBlocks =? 0) && (group r =? 0) then
          let '(r, lg) := endOfFile r lg in Some (Returns false, c, r, lg)
        else
          let currentRet :=
            if REDO_CODE_beq currentRet ERROR_CRC
               && (redoVerifyDelayUs c >? 0) && negb (group r =? 0)
            then EMPTY else currentRet in
          if (goodBlocks =? 0) && negb (REDO_CODE_beq currentRet OK)
             && negb (REDO_CODE_beq currentRet EMPTY)
          then Some (Returns false, c, set_ret currentRet r, lg)
          else read1Publish fuel c r goodBlocks currentRet lg.

End Methods.

End Reader.

(** *** Notions used to state the properties of the reader *)

Module ReaderSpec.
Import Reader.

(** Whether [checkBlockHeader] gets past its first two tests: the block does
    not start with two zero bytes and byte 1 fits the block size. *)
Definition headerAccepted (r : t) (buffer : list byte) : bool :=
  negb ((u8 buffer 0 =? 0) && (u8 buffer 1 =? 0))
  && negb (((blockSize r =? 512) && negb (u8 buffer 1 =? 0x22))
           || ((blockSize r =? 1024) && negb (u8 buffer 1 =? 0x22))
           || ((blockSize r =? 4096) && negb (u8 buffer 1 =? 0x82))).

(** The combinations of size field and header byte 1 that the specification
    of block size detection lists. *)
Definition validBlockSize (size h1 : Z) : Prop :=
  (size = 512 /\ h1 = 0x22) \/ (size = 1024 /\ h1 = 0x22)
  \/ (size = 4096 /\ h1 = 0x82).

(** The size [reloadHeaderRead] asks [redoRead] for. *)
Definition headerReadSize (r : t) : Z :=
  if blockSize r >? 0 then blockSize r * 2 else PAGE_SIZE_MAX * 2.

(** The number of sleeps in a log. *)
Fixpoint sleeps (lg : list Event) : nat :=
  match lg with
  | [] => 0%nat
  | Usleep _ :: lg' => S (sleeps lg')
  | _ :: lg' => sleeps lg'
  end.

(** A reader as its constructor and member initialisers leave it. *)
Definition initial (ZERO_BLK : Z) (group : Z) (configuredBlockSum : bool) : t :=
  mk 0 group Seq.zero ZERO_BLK 0 0 [] 0 0 Scn.none Scn.none Scn.none Scn.none
    0 0 0 0 0 0 0 SLEEPING OK false configuredBlockSum false false (-1)
    Seq.zero.

(** A context for little-endian logs with all checks on and no copy path. *)
Definition plainCtx : Ctx := mkCtx false false false true false 0 0 1000 4.

(** Building blocks for concrete redo blocks. *)
Definition byteOf (v : Z) : byte :=
  match Byte.of_N (Z.to_N (v mod 256)) with Some b => b | None => x00 end.

Definition le16 (v : Z) : list byte := [byteOf v; byteOf (v / 2 ^ 8)].

Definition le32 (v : Z) : list byte :=
  [byteOf v; byteOf (v / 2 ^ 8); byteOf (v / 2 ^ 16); byteOf (v / 2 ^ 24)].

(** A block of [size] bytes with the given bytes 0 and 1, block number,
    sequence and stored checksum; everything else is zero. *)
Definition block (b0 b1 : byte) (blockNumber sequence chSum : Z) (size : nat)
    : list byte :=
  [b0; b1; x00; x00] ++ le32 blockNumber ++ le32 sequence ++ [x00; x00]
  ++ le16 chSum ++ repeat x00 (size - 16).

(** Block 0 of a little-endian log: the size field at bytes 20-23 and the
    byte-order mark at bytes 28-31. *)
Definition headerBlock (h1 : byte) (sizeField : Z) (size : nat) : list byte :=
  [x00; h1] ++ repeat x00 18 ++ le32 sizeField ++ repeat x00 4
  ++ [x7d; x7c; x7b; x7a] ++ repeat x00 (size - 32).

(** Oracles for concrete runs: [redoRead] from a fixed file image, no copy
    file, a [pwrite] that writes everything, a constant [readScn]. *)
Definition fileRead (file : list byte) : Z -> Z -> Z * list byte :=
  fun offset size =>
    let data := firstn (Z.to_nat size) (skipn (Z.to_nat offset) file) in
    (Z.of_nat (length data), data).

Definition noCopy : Seq.t -> Z := fun _ => -1.

Definition pwriteAll : Z -> list byte -> Z -> Z -> Z :=
  fun _ _ count _ => count.

Definition scn12345 : bool -> list byte -> Z -> Scn.t := fun _ _ _ => 12345.

(** An online reader (group 1) of 512-byte blocks that expects sequence 7,
    and a block of sequence 5 with block number 5. *)
Definition onlineReader : t :=
  set_blockSize 512 (set_sequence 7 (initial 0xFFFFFFFF 1 true)).

Definition staleBlock : list byte := block x01 x22 5 5 0 512.

(** A batch reader (group 0) at offset 1024 of a 4096-byte file whose header
    carried next SCN 12345; the file is zero from there on. *)
Definition batchReader : t :=
  set_nextScnHeader 12345
    (set_lastRead 512
      (set_bufferScan 1024
        (set_fileSize 4096
          (set_blockSize 512 (initial 0xFFFFFFFF 0 true))))).

Definition zeroFile : list byte := repeat x00 4096.

(** Two-block files whose block 0 announces 2048 and 512 bytes. *)
Definition file2048 : list byte := headerBlock x22 2048 512 ++ repeat x00 512.

Definition file512 : list byte := headerBlock x22 512 512 ++ repeat x00 512.

(** A reader whose header buffer holds a block 1 with a wrong checksum. *)
Definition crcReader : t :=
  set_headerBuffer (headerBlock x22 512 512 ++ block x01 x22 1 9 0 512)
    (set_blockSize 512 (initial 0xFFFFFFFF 0 true)).

End ReaderSpec.

(** ** Parser (parser/Parser.h, parser/Parser.cpp): the LWN heap and the end
       of a batch *)

Module Parser.

(** [struct LwnMember] *)
Record LwnMember := mkLwnMember {
  pageOffset : Z;   (* uint16_t *)
  scn : Scn.t;
  size : Z;         (* uint32_t *)
  block : Z;        (* typeBlk *)
  subScn : Z        (* typeSubScn *)
}.

(** [LwnMember::operator<] *)
Definition LwnMember_lt (a other : LwnMember) : bool :=
  pageOffset a <? pageOffset other.

Definition MAX_RECORDS_IN_LWN : Z := 1048576.

(** [LwnMember* lwnMembers[MAX_RECORDS_IN_LWN + 1]]: for each slot the member
    it points to.  The code reads slots 1 to [lwnRecords] only. *)
Definition members := nat -> LwnMember.

Definition store (a : members) (i : nat) (m : LwnMember) : members :=
  fun j => if Nat.eqb j i then m else a j.

(** The exceptions that cross [analyzeLwn]. *)
Inductive exn : Set :=
| DataException (code : Z)
| RedoLogException (code : Z)
| RuntimeException (code : Z).

(** [FileOffset(block, blockSize)] *)
Record FileOffset := mkFileOffset { foBlock : Z; foBlockSize : Z }.

(** Calls that leave the parser, in the order they are made. *)
Inductive Event : Set :=
| AnalyzeLwn (m : LwnMember)
| LogError (code : Z)
| LogWarning (code : Z)
| LogInfo
| ProcessCheckpoint (scn : Scn.t) (sequence : Seq.t) (timestamp : Z)
    (fileOffset : FileOffset) (switchRedo : bool)
| MetadataCheckpoint (scn : Scn.t) (time : Z) (sequence : Seq.t)
    (fileOffset : FileOffset) (bytes : Z) (minSequence : Seq.t)
    (minFileOffset : FileOffset) (minXid : Z)
| StopSoft
| EmitCheckpointsOut (n : Z)
| EmitCheckpointsSkip (n : Z)
| EmitBytesParsed (n : Z)
| FreeLwn.

(** The locals and members of [Parser::parse] that the end of a batch
    uses. *)
Record t := mk {
  lwnMembers : members;
  lwnRecords : nat;          (* uint64_t *)
  currentBlock : Z;          (* typeBlk *)
  lwnEndBlock : Z;
  lwnConfirmedBlock : Z;
  lwnNumMax : Z;             (* typeLwn *)
  lwnNumCnt : Z;
  lwnScn : Scn.t;
  lwnTimestamp : Z;
  sequence : Seq.t;
  switchRedo : bool;
  stopCheckpoints : Z        (* ctx->stopCheckpoints *)
}.

(** What the parser reads from its collaborators at the end of a batch. *)
Record Env := mkEnv {
  blockSize : Z;             (* reader->getBlockSize() *)
  firstDataScn : Scn.t;      (* metadata->firstDataScn *)
  metrics : bool;            (* ctx->metrics != nullptr *)
  ignoreDataErrors : bool;   (* isFlagSet(IGNORE_DATA_ERRORS) *)
  lwnIdx : Z                 (* builder->lwnIdx *)
}.

Inductive outcome (A : Type) : Type :=
| Returns (a : A)
| Throws (e : exn).
Arguments Returns {A} a.
Arguments Throws {A} e.

(** Lines [uint64_t lwnPos = ++lwnRecords; ... while (lwnPos > 1 && ...)]:
    the loop that moves parents down.  One unit of [fuel] per evaluation of
    the loop condition. *)
Fixpoint siftUp (fuel : nat) (a : members) (lwnMember : LwnMember)
    (lwnPos : nat) : option (members * nat) :=
  match fuel with
  | O => None
  | S fuel' =>
    if (1 <? lwnPos)%nat && LwnMember_lt lwnMember (a (lwnPos / 2)%nat)
    then siftUp fuel' (store a lwnPos (a (lwnPos / 2)%nat)) lwnMember
           (lwnPos / 2)%nat
    else Some (a, lwnPos)
  end.

(** Pushing one member: increment [lwnRecords], refuse at
    [MAX_RECORDS_IN_LWN], sift up, store. *)
Definition lwnPush (a : members) (lwnRecords : nat) (lwnMember : LwnMember)
    : option (outcome (members * nat)) :=
  let lwnRecords := S lwnRecords in
  let lwnPos := lwnRecords in
  if MAX_RECORDS_IN_LWN <=? Z.of_nat lwnPos
  then Some (Throws (RedoLogException 50054))
  else
    match siftUp lwnPos a lwnMember lwnPos with
    | None => None
    | Some (a, lwnPos) => Some (Returns (store a lwnPos lwnMember, lwnRecords))
    end.

(** The [while (true)] loop that moves the smaller child up. *)
Fixpoint siftDown (fuel : nat) (a : members) (lwnRecords lwnPos : nat)
    : option (members * nat) :=
  match fuel with
  | O => None
  | S fuel' =>
    if (lwnPos * 2 <? lwnRecords)%nat
       && LwnMember_lt (a (lwnPos * 2)%nat) (a lwnRecords)
    then
      if (lwnPos * 2 + 1 <? lwnRecords)%nat
         && LwnMember_lt (a (lwnPos * 2 + 1)%nat) (a (lwnPos * 2)%nat)
      then siftDown fuel' (store a lwnPos (a (lwnPos * 2 + 1)%nat))
             lwnRecords (lwnPos * 2 + 1)%nat
      else siftDown fuel' (store a lwnPos (a (lwnPos * 2)%nat)) lwnRecords
             (lwnPos * 2)%nat
    else if (lwnPos * 2 + 1 <? lwnRecords)%nat
            && LwnMember_lt (a (lwnPos * 2 + 1)%nat) (a lwnRecords)
    then siftDown fuel' (store a lwnPos (a (lwnPos * 2 + 1)%nat)) lwnRecords
           (lwnPos * 2 + 1)%nat
    else Some (a, lwnPos)
  end.

Section Batch.

(** [Parser::analyzeLwn]: its body is not among the sources; what matters
    here is whether it throws, which may depend on the calls made before. *)
Variable analyzeLwn : list Event -> LwnMember -> option exn.

(** [TransactionBuffer::checkpoint(minSequence, minFileOffset, minXid)], not
    among the sources: the values it leaves in its three reference
    arguments. *)
Variable transactionBufferCheckpoint : Seq.t * FileOffset * Z.

(** [Metadata::isNewData] and [Time::toEpoch(ctx->hostTimezone)], not among
    the sources. *)
Variable isNewData : Scn.t -> Z -> bool.
Variable toEpoch : Z -> Z.

(** One [analyzeLwn] call inside its [try]: the events, and the exception
    that leaves the [catch] clauses if one does. *)
Definition tryAnalyze (env : Env) (tr : list Event) (m : LwnMember)
    : list Event * option exn :=
  let tr := tr ++ [AnalyzeLwn m] in
  match analyzeLwn tr m with
  | None => (tr, None)
  | Some (DataException code) =>
    if ignoreDataErrors env
    then (tr ++ [LogError code; LogWarning 60013], None)
    else (tr, Some (DataException code))
  | Some (RedoLogException code) =>
    if ignoreDataErrors env
    then (tr ++ [LogError code; LogWarning 60013], None)
    else (tr, Some (RedoLogException code))
  | Some e => (tr, Some e)
  end.

(** [while (lwnRecords > 0) { analyzeLwn(lwnMembers[1]); ... }]: every turn
    takes one record off, so the recursion is on [lwnRecords]. *)
Fixpoint dispatchLwn (env : Env) (lwnRecords : nat) (a : members)
    (tr : list Event) : option (outcome members * list Event) :=
  match lwnRecords with
  | O => Some (Returns a, tr)
  | S n =>
    match tryAnalyze env tr (a 1%nat) with
    | (tr, Some e) => Some (Throws e, tr)
    | (tr, None) =>
      match n with
      | O => Some (Returns a, tr)
      | S _ =>
        match siftDown lwnRecords a lwnRecords 1 with
        | None => None
        | Some (a, lwnPos) =>
          dispatchLwn env n (store a lwnPos (a lwnRecords)) tr
        end
      end
    end
  end.

(** The branch on [lwnScn > metadata->firstDataScn] after the records were
    dispatched.  Block numbers ([typeBlk]) and the block size ([uint]) are
    32-bit unsigned: the difference of the block numbers wraps at 2^32, and
    its product with the block size is made in 64 bits after the cast to
    [uint64_t]. *)
Definition emitCheckpoint (env : Env) (p : t) : Z * list Event :=
  let fileOffset := mkFileOffset (currentBlock p) (blockSize env) in
  if Scn.gtb (lwnScn p) (firstDataScn env) then
    let '(minSequence, minFileOffset, minXid) := transactionBufferCheckpoint in
    let tr :=
      [ProcessCheckpoint (lwnScn p) (sequence p) (toEpoch (lwnTimestamp p))
         fileOffset (switchRedo p);
       MetadataCheckpoint (lwnScn p) (lwnTimestamp p) (sequence p) fileOffset
         ((((currentBlock p - lwnConfirmedBlock p) mod 2 ^ 32)
           * blockSize env) mod 2 ^ 64)
         minSequence minFileOffset minXid] in
    let '(stop, tr) :=
      if (stopCheckpoints p >? 0) && isNewData (lwnScn p) (lwnIdx env) then
        let stop := stopCheckpoints p - 1 in
        (stop, if stop =? 0 then tr ++ [LogInfo; StopSoft] else tr)
      else (stopCheckpoints p, tr) in
    (stop, tr ++ (if metrics env then [EmitCheckpointsOut 1] else []))
  else
    (stopCheckpoints p, if metrics env then [EmitCheckpointsSkip 1] else []).

(** [Parser::parse], from [if (currentBlock == lwnEndBlock && lwnNumCnt ==
    lwnNumMax)] to the end of its [else if]: what happens after a block was
    consumed.  The argument of [emitBytesParsed] is a product of two 32-bit
    unsigned values and wraps at 2^32. *)
Definition lwnBatchEnd (env : Env) (p : t)
    : option (outcome t * list Event) :=
  if (currentBlock p =? lwnEndBlock p) && (lwnNumCnt p =? lwnNumMax p) then
    match dispatchLwn env (lwnRecords p) (lwnMembers p) [] with
    | None => None
    | Some (Throws e, tr) => Some (Throws e, tr)
    | Some (Returns a, tr) =>
      let '(stop, tr') := emitCheckpoint env p in
      Some (Returns (mk a 0 (currentBlock p) (lwnEndBlock p) (currentBlock p)
                       (lwnNumMax p) 0 (lwnScn p) (lwnTimestamp p)
                       (sequence p) (switchRedo p) stop),
            tr ++ tr' ++ FreeLwn ::
              (if metrics env
               then [EmitBytesParsed
                       (((currentBlock p - lwnConfirmedBlock p)
                         * blockSize env) mod 2 ^ 32)]
               else []))
    end
  else if lwnNumCnt p >? lwnNumMax p
  then Some (Throws (RedoLogException 50055), [])
  else Some (Returns p, []).

End Batch.

(** The members of one batch pushed in the order the blocks deliver them,
    starting from [lwnRecords = 0]. *)
Fixpoint pushAll (a : members) (lwnRecords : nat) (ms : list LwnMember)
    : option (outcome (members * nat)) :=
  match ms with
  | [] => Some (Returns (a, lwnRecords))
  | m :: ms' =>
    match lwnPush a lwnRecords m with
    | Some (Returns (a, lwnRecords)) => pushAll a lwnRecords ms'
    | other => other
    end
  end.

(** The members handed to [analyzeLwn], in order. *)
Fixpoint analyzed (tr : list Event) : list LwnMember :=
  match tr with
  | [] => []
  | AnalyzeLwn m :: tr' => m :: analyzed tr'
  | _ :: tr' => analyzed tr'
  end.

(** Whether an event writes a checkpoint. *)
Definition isCheckpoint (e : Event) : bool :=
  match e with
  | ProcessCheckpoint _ _ _ _ _ => true
  | MetadataCheckpoint _ _ _ _ _ _ _ _ => true
  | _ => false
  end.

End Parser.

(** ** MemoryManager::getChunkToSwap (common/MemoryManager.cpp) *)

Module MemoryManager.

Definition Xid := Z.

(** [struct SwapChunk], as [getChunkToSwap] and [swap] use it. *)
Record SwapChunk := mkSwapChunk {
  chunks : list Z;      (* std::vector<uint8_t*>, 0 for nullptr *)
  swappedMin : Z;       (* int64_t *)
  swappedMax : Z;       (* int64_t *)
  release : bool
}.

(** The part of [Ctx] that the selection reads; [swapChunks] in the order
    the range-for visits it. *)
Record Ctx := mkCtx {
  swapChunks : list (Xid * SwapChunk);
  swappedFlushXid : Xid;
  nothingToSwap : bool  (* ctx->nothingToSwap(this) *)
}.

(** [static_cast<int64_t>] of a 64-bit unsigned value. *)
Definition to_int64 (x : Z) : Z :=
  let x := x mod 2 ^ 64 in if x <? 2 ^ 63 then x else x - 2 ^ 64.

(** [sc->chunks.size()] *)
Definition chunkCount (sc : SwapChunk) : Z := Z.of_nat (length (chunks sc)).

(** The range-for of [getChunkToSwap]; [xid] and [index] are the reference
    arguments. *)
Fixpoint scanSwapChunks (flush : Xid) (l : list (Xid * SwapChunk))
    (xid : Xid) (index : Z) : Xid * Z :=
  match l with
  | [] => (xid, index)
  | (swapXid, sc) :: rest =>
    if (flush =? swapXid) || release sc || (chunkCount sc <=? 1)
    then scanSwapChunks flush rest xid index
    else if swappedMax sc <? to_int64 (chunkCount sc - 2)
    then (swapXid, swappedMax sc + 1)
    else scanSwapChunks flush rest xid index
  end.

Definition getChunkToSwap (c : Ctx) (xid : Xid) (index : Z) : Xid * Z :=
  if nothingToSwap c then (xid, index)
  else scanSwapChunks (swappedFlushXid c) (swapChunks c) xid index.

End MemoryManager.

(** *** Notions used to state the properties of the LWN heap *)

Module ParserSpec.
Import Parser.

(** The order [LwnMember::operator<] induces, made reflexive. *)
Definition byPageOffset (x y : LwnMember) : Prop :=
  pageOffset x <= pageOffset y.

(** The order the specification names for the dispatch: sub-SCN first,
    then page offset. *)
Definition bySubScnPageOffset (x y : LwnMember) : Prop :=
  subScn x < subScn y \/ (subScn x = subScn y /\ pageOffset x <= pageOffset y).

(** Slots 1 to [n], in slot order. *)
Definition contents (a : members) (n : nat) : list LwnMember :=
  map a (seq 1 n).

(** No parent among slots 1 to [n] is above its child. *)
Definition heapOK (a : members) (n : nat) : Prop :=
  forall i, (2 <= i <= n)%nat -> byPageOffset (a (i / 2)%nat) (a i).

(** The state of the sift-up loop: with [x] put in the hole at [pos], only
    the edge from [pos] to its parent may be out of order, and the parent of
    the hole is not above the children of the hole. *)
Definition upInv (a : members) (n pos : nat) (x : LwnMember) : Prop :=
  (1 <= pos <= n)%nat
  /\ (forall i, (2 <= i <= n)%nat -> i <> pos ->
                byPageOffset (store a pos x (i / 2)%nat) (store a pos x i))
  /\ (forall i, (2 <= i <= n)%nat -> (i / 2)%nat = pos -> (2 <= pos)%nat ->
                byPageOffset (a (pos / 2)%nat) (a i)).

(** The state of the sift-down loop over slots 1 to [n - 1], with the last
    member [a n] waiting for the hole at [pos]: only the edges from [pos] to
    its children may be out of order. *)
Definition downInv (a : members) (n pos : nat) : Prop :=
  (1 <= pos < n)%nat
  /\ (forall i, (2 <= i < n)%nat -> (i / 2)%nat <> pos ->
                byPageOffset (store a pos (a n) (i / 2)%nat)
                             (store a pos (a n) i))
  /\ (forall i, (2 <= i < n)%nat -> (i / 2)%nat = pos -> (2 <= pos)%nat ->
                byPageOffset (a (pos / 2)%nat) (a i)).

(** Exchanging two indices. *)
Definition transpose (i j k : nat) : nat :=
  if Nat.eqb k i then j else if Nat.eqb k j then i else k.

(** An array before any push; the content of its slots is never read. *)
Definition noMembers : members := fun _ => mkLwnMember 0 0 0 0 0.

(** An [analyzeLwn] that never throws. *)
Definition analyzeOk : list Event -> LwnMember -> option exn :=
  fun _ _ => None.

(** The order in which the members of a batch reach [analyzeLwn]: pushed in
    arrival order into an empty heap, then dispatched. *)
Definition dispatchOrder (analyzeLwn : list Event -> LwnMember -> option exn)
    (env : Env) (ms : list LwnMember) : option (list LwnMember) :=
  match pushAll noMembers 0 ms with
  | Some (Returns (a, n)) =>
    match dispatchLwn analyzeLwn env n a [] with
    | Some (_, tr) => Some (analyzed tr)
    | None => None
    end
  | _ => None
  end.

(** Fixtures: an environment with metrics, and a parser state at the last
    block of a batch of SCN [scn] holding the given heap. *)
Definition plainEnv (firstDataScn : Scn.t) : Env :=
  mkEnv 512 firstDataScn true false 0.

Definition batchState (a : members) (n : nat) (scn : Scn.t) : t :=
  mk a n 12 12 10 1 1 scn 1000 7 false 0.

Definition member (pageOffset subScn : Z) : LwnMember :=
  mkLwnMember pageOffset 500 24 10 subScn.

(** Two records of one batch: sub-SCN 2 at page offset 16 and sub-SCN 1 at
    page offset 100, and the heap after both were pushed. *)
Definition twoRecords : list LwnMember := [member 16 2; member 100 1].

Definition twoMembers : members :=
  store (store noMembers 1 (member 16 2)) 2 (member 100 1).

End ParserSpec.

(** ** Writer (writer/Writer.h, writer/Writer.cpp): confirmation and
       checkpoints *)

Module Writer.

(** The fields of [BuilderMsg] that the writer compares. *)
Record BuilderMsg := mkMsg {
  lwnScn : Scn.t;
  lwnIdx : Z          (* typeIdx *)
}.

(** The state document of [writeCheckpoint]:
    [{"database":..,"scn":..,"idx":..,"resetlogs":..,"activation":..}]. *)
Record Document := mkDocument {
  docDatabase : list byte;
  docScn : Scn.t;
  docIdx : Z;
  docResetlogs : Z;
  docActivation : Z
}.

(** What [readCheckpoint] finds under [<database>-chkpt]. *)
Record Parsed := mkParsed {
  jDatabase : list byte;
  jResetlogs : Z;
  jActivation : Z;
  jScn : Z;
  jIdx : option Z;     (* document.HasMember("idx") *)
  jUnknownTag : bool   (* a member outside documentNames *)
}.

Inductive StateFile : Type :=
| Absent                      (* stateRead returned false *)
| Unparsable                  (* empty or HasParseError *)
| Json (doc : Parsed).

(** The fields of [Metadata] that the writer sets or reads. *)
Record Metadata := mkMetadata {
  resetlogs : Z;
  activation : Z;
  clientScn : Scn.t;
  clientIdx : Z;
  startScn : Scn.t;
  startSequence : Seq.t;
  startTimeRel : Z;
  replicate : bool            (* setStatusReplicate was called *)
}.

Record t := mk {
  database : list byte;
  checkpointScn : Scn.t;
  checkpointIdx : Z;
  checkpointTime : Z;   (* time_t *)
  sentMessages : Z;
  redo : bool;
  confirmedScn : Scn.t;
  confirmedIdx : Z;
  queue : list BuilderMsg   (* queue[0 .. currentQueueSize - 1] *)
}.

Inductive Event : Type :=
| StateWrite (name : list byte) (scn : Scn.t) (doc : Document)
| LogInfo.

Inductive outcome (A : Type) : Type :=
| Returns (a : A)
| Throws (code : Z).
Arguments Returns {A} a.
Arguments Throws {A} code.

(** The writer as its constructor and member initialisers leave it. *)
Definition initial (db : list byte) (now : Z) : t :=
  mk db Scn.none 0 now 0 false Scn.none 0 [].

(** ["-chkpt"] *)
Definition chkptSuffix : list byte := [x2d; x63; x68; x6b; x70; x74].

(** [msg->lwnScn > confirmedScn || (msg->lwnScn == confirmedScn &&
    msg->lwnIdx > confirmedIdx)] *)
Definition newer (w : t) (msg : BuilderMsg) : bool :=
  Scn.gtb (lwnScn msg) (confirmedScn w)
  || (Scn.eqb (lwnScn msg) (confirmedScn w) && (lwnIdx msg >? confirmedIdx w)).

(** The [while] that counts the confirmed prefix of the queue. *)
Fixpoint confirmedPrefix (w : t) (q : list BuilderMsg) : list BuilderMsg :=
  match q with
  | [] => []
  | m :: q' =>
    if Scn.ltb (lwnScn m) (confirmedScn w)
       || (Scn.eqb (lwnScn m) (confirmedScn w) && (lwnIdx m <=? confirmedIdx w))
    then confirmedPrefix w q'
    else q
  end.

(** [Writer::confirmMessage]; [now] is [time(nullptr)].  The test is made
    twice in the code, outside and inside the lock; the reference count and
    the release of the message are not modelled. *)
Definition confirmMessage (now : Z) (w : t) (msg : BuilderMsg) : t :=
  let w :=
    if newer w msg
    then mk (database w) (lwnScn msg) (lwnIdx msg) now (sentMessages w)
           (redo w) (lwnScn msg) (lwnIdx msg) (queue w)
    else w in
  mk (database w) (checkpointScn w) (checkpointIdx w) (checkpointTime w)
    (sentMessages w) (redo w) (confirmedScn w) (confirmedIdx w)
    (confirmedPrefix w (queue w)).

Section Checkpoints.

(** [ctx->checkpointIntervalS] *)
Variable checkpointIntervalS : Z.

(** [metadata->stateWrite(name, scn, out)]: whether the write succeeded. *)
Variable stateWrite : list byte -> Scn.t -> Document -> bool.

(** [isDisableChecksSet(JSON_TAGS)], and the codes of the exceptions that
    [Ctx::checkJsonFields] throws, which is not among the sources. *)
Variable disableChecksJsonTags : bool.
Variable jsonTagError : Z.

(** [Writer::writeCheckpoint]; [now] is [time(nullptr)]. *)
Definition writeCheckpoint (now : Z) (md : Metadata) (w : t) (force : bool)
    : t * list Event :=
  let w := mk (database w) (checkpointScn w) (checkpointIdx w)
             (checkpointTime w) (sentMessages w) false (confirmedScn w)
             (confirmedIdx w) (queue w) in
  if (Scn.eqb (checkpointScn w) (confirmedScn w)
      && (checkpointIdx w =? confirmedIdx w))
     || Scn.eqb (confirmedScn w) Scn.none
  then (w, [])
  else
    let force := if Scn.eqb (checkpointScn w) Scn.none then true else force in
    let timeSinceCheckpoint := (now - checkpointTime w) mod 2 ^ 64 in
    if (timeSinceCheckpoint <? checkpointIntervalS) && negb force
    then (w, [])
    else
      let name := database w ++ chkptSuffix in
      let doc := mkDocument (database w) (confirmedScn w) (confirmedIdx w)
                   (resetlogs md) (activation md) in
      if stateWrite name (confirmedScn w) doc
      then (mk (database w) (confirmedScn w) (confirmedIdx w) now
              (sentMessages w) (redo w) (confirmedScn w) (confirmedIdx w)
              (queue w),
            [StateWrite name (confirmedScn w) doc])
      else (w, [StateWrite name (confirmedScn w) doc]).

(** The end of [Writer::mainLoop], after its [while (!ctx->hardShutdown)]
    loop: the final checkpoint. *)
Definition mainLoopExit (now : Z) (md : Metadata) (w : t) : t * list Event :=
  if Scn.neb (checkpointScn w) Scn.none
  then writeCheckpoint now md w true
  else (w, []).

(** Whether two byte strings are equal. *)
Definition bytes_eqb (a b : list byte) : bool :=
  if list_eq_dec Byte.byte_eq_dec a b then true else false.

(** [Writer::readCheckpoint] *)
Definition readCheckpoint (file : StateFile) (md : Metadata) (w : t)
    : outcome (Metadata * t) * list Event :=
  match file with
  | Absent => (Returns (md, w), [])
  | Unparsable => (Throws 20001, [])
  | Json doc =>
    if negb disableChecksJsonTags && jUnknownTag doc
    then (Throws jsonTagError, [])
    else if negb (bytes_eqb (database w) (jDatabase doc))
    then (Throws 20001, [])
    else
      let scn := jScn doc in
      let idx := match jIdx doc with Some i => i | None => 0 end in
      (Returns
         (mkMetadata (jResetlogs doc) (jActivation doc) scn idx scn Seq.none
            0 true,
          mk (database w) scn idx (checkpointTime w) (sentMessages w) (redo w)
            (confirmedScn w) (confirmedIdx w) (queue w)),
       [LogInfo])
  end.

(** The three operations on the checkpoint state, as the writer thread and
    the confirming client interleave them. *)
Inductive Op : Type :=
| OpReadCheckpoint (file : StateFile)
| OpConfirmMessage (now : Z) (msg : BuilderMsg)
| OpWriteCheckpoint (now : Z) (force : bool)
| OpMainLoopExit (now : Z).

(** One operation; an exception of [readCheckpoint] leaves the state as it
    was. *)
Definition step (op : Op) (s : Metadata * t * list Event)
    : Metadata * t * list Event :=
  let '(md, w, tr) := s in
  match op with
  | OpReadCheckpoint file =>
    match readCheckpoint file md w with
    | (Returns (md', w'), ev) => (md', w', tr ++ ev)
    | (Throws _, ev) => (md, w, tr ++ ev)
    end
  | OpConfirmMessage now msg => (md, confirmMessage now w msg, tr)
  | OpWriteCheckpoint now force =>
    let '(w', ev) := writeCheckpoint now md w force in (md, w', tr ++ ev)
  | OpMainLoopExit now =>
    let '(w', ev) := mainLoopExit now md w in (md, w', tr ++ ev)
  end.

Definition run (ops : list Op) (s : Metadata * t * list Event)
    : Metadata * t * list Event :=
  fold_left (fun s op => step op s) ops s.

End Checkpoints.

(** Whether an event is a call of [stateWrite]. *)
Definition isStateWrite (e : Event) : bool :=
  match e with StateWrite _ _ _ => true | LogInfo => false end.

End Writer.

(** *** Notions used to state the properties of swap selection and of the
        writer *)

Module MemoryManagerSpec.
Import MemoryManager.

(** What holds of every [SwapChunk]: [swappedMax] is -1 or the index of a
    swapped chunk, and a vector has fewer than 2^63 elements. *)
Definition SwapChunk_wf (sc : SwapChunk) : Prop :=
  -1 <= swappedMax sc /\ chunkCount sc < 2 ^ 63.

(** Fixture: one transaction with two chunks, none swapped yet. *)
Definition twoChunks : Ctx :=
  mkCtx [(7, mkSwapChunk [4096; 8192] (-1) (-1) false)] 0 false.

End MemoryManagerSpec.

Module WriterSpec.
Import Writer.

(** The SCN of a confirmed message is a 64-bit value. *)
Definition opWf (op : Op) : Prop :=
  match op with
  | OpConfirmMessage _ msg => Scn.wf (lwnScn msg)
  | _ => True
  end.

(** [(scn, idx)] pairs in lexicographic order. *)
Definition lexLt (scn1 idx1 scn2 idx2 : Z) : Prop :=
  scn1 < scn2 \/ (scn1 = scn2 /\ idx1 < idx2).

(** The four fields the checkpoint protocol is about. *)
Definition marks (w : t) : Z * Z * Z * Z :=
  (checkpointScn w, checkpointIdx w, confirmedScn w, confirmedIdx w).

(** Fixtures: database "ORCL", a stored checkpoint at SCN 100, a metadata
    object before any checkpoint was read, and a state store on which every
    write succeeds. *)
Definition orcl : list byte := [x4f; x52; x43; x4c].

Definition checkpoint100 : StateFile :=
  Json (mkParsed orcl 1 1 100 (Some 0) false).

Definition metadata0 : Metadata :=
  mkMetadata 0 0 Scn.none 0 Scn.none Seq.none 0 false.

Definition writeOk : list byte -> Scn.t -> Document -> bool :=
  fun _ _ _ => true.

(** A writer that starts from a stored checkpoint at SCN 100, sees message
    (200, 1) confirmed and then leaves its main loop. *)
Definition shutdownRun : list Op :=
  [OpReadCheckpoint checkpoint100; OpConfirmMessage 5 (mkMsg 200 1);
   OpMainLoopExit 9].

End WriterSpec.

(** *** Further notions for the reader *)

Module ReaderMore.
Import Reader.

(** The number of hints in a log. *)
Fixpoint hints (lg : list Event) : nat :=
  match lg with
  | [] => 0%nat
  | LogHint :: lg' => S (hints lg')
  | _ :: lg' => hints lg'
  end.

(** What [checkBlockHeader] may change: [sequence] and [hintDisplayed]. *)
Definition sameBut (r r' : t) : Prop :=
  r' = set_hintDisplayed (hintDisplayed r') (set_sequence (sequence r') r).

(** The three positions of the read window are the same in two readers. *)
Definition sameBuffers (r r' : t) : Prop :=
  bufferStart r' = bufferStart r /\ bufferEnd r' = bufferEnd r
  /\ bufferScan r' = bufferScan r.

(** Block 1 of a little-endian log of 512-byte blocks: block number 1, the
    sequence, the stored checksum and the compatibility version at bytes
    20-23. *)
Definition headerBlock1 (sequence compatVsn chSum : Z) : list byte :=
  [x01; x22; x00; x00] ++ ReaderSpec.le32 1 ++ ReaderSpec.le32 sequence
  ++ [x00; x00] ++ ReaderSpec.le16 chSum ++ repeat x00 4
  ++ ReaderSpec.le32 compatVsn ++ repeat x00 488.

(** A two-block file of sequence 9 and version 19.0 whose block 1 carries
    its checksum. *)
Definition goodFile : list byte :=
  ReaderSpec.headerBlock x22 512 512 ++ headerBlock1 9 0x13000000 12553.

(** The same file with a stored checksum of 0 in block 1, which is wrong. *)
Definition badCrcFile : list byte :=
  ReaderSpec.headerBlock x22 512 512 ++ headerBlock1 9 0x13000000 0.

End ReaderMore.

(** *** Notions used to state the properties of the block checksum *)

Module ChecksumSpec.

(** The XOR of the [m] 16-bit words that start at [off], each read in the
    byte order of the host. *)
Fixpoint xor16 (hostBig : bool) (buffer : list byte) (off : Z) (m : nat) : Z :=
  match m with
  | O => 0
  | S m' =>
    Z.lxor (read16 hostBig buffer off) (xor16 hostBig buffer (off + 2) m')
  end.

(** The buffer with byte [k] replaced. *)
Definition setByte (buffer : list byte) (k : nat) (b : byte) : list byte :=
  firstn k buffer ++ b :: skipn (S k) buffer.

End ChecksumSpec.

(** ** Parser::parse: the size of a record *)

Module ParserRecord.

(** [recordSize4 = (static_cast<uint64_t>(ctx->read32(..)) + 3U) &
    0xFFFFFFFC], from the 32-bit size field of a record. *)
Definition recordSize4 (size : Z) : Z := Z.land (size + 3) 0xFFFFFFFC.

End ParserRecord.

(** *** Fixtures for the dispatch of a batch with a bad record *)

Module ParserMoreSpec.
Import Parser.

(** An [analyzeLwn] that throws a [DataException] on the record at page
    offset 100. *)
Definition analyzeBad : list Event -> LwnMember -> option exn :=
  fun _ m => if pageOffset m =? 100 then Some (DataException 50010) else None.

(** An environment with [IGNORE_DATA_ERRORS] set. *)
Definition lenientEnv : Env := mkEnv 512 0 true true 0.

(** Two records of one batch of 512-byte blocks, in file order: the first
    starts at page offset 400 of block 10 with sub-SCN 1 and runs over into
    block 11; the second follows it at page offset 32 of block 11 with
    sub-SCN 2. *)
Definition firstRecord : LwnMember := mkLwnMember 400 500 128 10 1.

Definition secondRecord : LwnMember := mkLwnMember 32 500 24 11 2.

Definition crossBlockRecords : list LwnMember := [firstRecord; secondRecord].

End ParserMoreSpec.

(** ** Writer::sortQueue (writer/Writer.cpp) *)

Module WriterQueue.

(** A queued [BuilderMsg]: the [id] that [sortQueue] compares, and the
    fields the confirmation uses. *)
Record Msg := mkMsg {
  id : Z;                    (* uint64_t *)
  lwn : Writer.BuilderMsg
}.

(** [BuilderMsg** oldQueue]: for each slot the message it points to. *)
Definition slots := nat -> Msg.

Definition store (a : slots) (i : nat) (m : Msg) : slots :=
  fun j => if Nat.eqb j i then m else a j.

(** The [while (i < oldQueueSize)] loop of [sortQueue]: the hole at [i]
    moves down to the smaller child as long as a child is below the last
    message.  One unit of [fuel] per evaluation of the loop condition. *)
Fixpoint sortSift (fuel : nat) (oldQueue : slots) (oldQueueSize i : nat)
    : option (slots * nat) :=
  match fuel with
  | O => None
  | S fuel' =>
    if (i <? oldQueueSize)%nat then
      if (i * 2 + 2 <? oldQueueSize)%nat
         && (id (oldQueue (i * 2 + 2)%nat) <? id (oldQueue oldQueueSize))
      then
        if id (oldQueue (i * 2 + 1)%nat) <? id (oldQueue (i * 2 + 2)%nat)
        then sortSift fuel' (store oldQueue i (oldQueue (i * 2 + 1)%nat))
               oldQueueSize (i * 2 + 1)%nat
        else sortSift fuel' (store oldQueue i (oldQueue (i * 2 + 2)%nat))
               oldQueueSize (i * 2 + 2)%nat
      else if (i * 2 + 1 <? oldQueueSize)%nat
              && (id (oldQueue (i * 2 + 1)%nat) <? id (oldQueue oldQueueSize))
      then sortSift fuel' (store oldQueue i (oldQueue (i * 2 + 1)%nat))
             oldQueueSize (i * 2 + 1)%nat
      else Some (oldQueue, i)
    else Some (oldQueue, i)
  end.

(** The [for (newId = 0; newId < currentQueueSize; ++newId)] loop with [k]
    turns left: [queue] holds the messages stored so far, in order. *)
Fixpoint sortLoop (k : nat) (oldQueue : slots) (oldQueueSize : nat)
    (queue : list Msg) : option (list Msg) :=
  match k with
  | O => Some queue
  | S k' =>
    let queue := queue ++ [oldQueue 0%nat] in
    let oldQueueSize := (oldQueueSize - 1)%nat in
    match sortSift (S oldQueueSize) oldQueue oldQueueSize 0 with
    | None => None
    | Some (oldQueue, i) =>
      sortLoop k' (store oldQueue i (oldQueue oldQueueSize)) oldQueueSize
        queue
    end
  end.

(** [Writer::sortQueue] on [queue[0 .. currentQueueSize - 1]]. *)
Definition sortQueue (queue : list Msg) : option (list Msg) :=
  match queue with
  | [] => Some []
  | m :: _ =>
    sortLoop (length queue) (fun i => nth i queue m) (length queue) []
  end.

End WriterQueue.

(** *** Notions used to state the properties of [sortQueue] *)

Module WriterQueueSpec.
Import WriterQueue.

(** Ascending [id]. *)
Definition byId (x y : Msg) : Prop := id x <= id y.

(** Slots 0 to [n - 1], in slot order. *)
Definition contents (a : slots) (n : nat) : list Msg := map a (seq 0 n).

(** No parent among slots 0 to [n - 1] is above its child. *)
Definition heapOK (a : slots) (n : nat) : Prop :=
  forall i, (1 <= i < n)%nat -> byId (a ((i - 1) / 2)%nat) (a i).

(** The same for a queue given as a list. *)
Definition isHeap (queue : list Msg) : Prop :=
  forall i x y,
    (1 <= i)%nat -> nth_error queue ((i - 1) / 2) = Some x ->
    nth_error queue i = Some y -> byId x y.

(** The state of the loop of [sortQueue] over slots 0 to [last - 1], with
    the message of slot [last] waiting for the hole at [i]: only the edges
    from [i] to its children may be out of order. *)
Definition downInv (a : slots) (last i : nat) : Prop :=
  (i < last)%nat
  /\ (forall k, (1 <= k < last)%nat -> ((k - 1) / 2)%nat <> i ->
                byId (store a i (a last) ((k - 1) / 2)%nat)
                     (store a i (a last) k))
  /\ (forall k, (1 <= k < last)%nat -> ((k - 1) / 2)%nat = i -> (1 <= i)%nat ->
                byId (a ((i - 1) / 2)%nat) (a k)).

End WriterQueueSpec.

(** ** WriterStream::processConfirm (writer/WriterStream.cpp) *)

Module WriterStream.
Import Writer.

(** The fields of a confirm request. *)
Record Request := mkRequest {
  database_name : list byte;
  c_scn : Z;        (* uint64 *)
  c_idx : Z         (* uint64 *)
}.

(** [queue[0]->lwnScn < Scn(request.c_scn()) || (queue[0]->lwnScn ==
    Scn(request.c_scn()) && queue[0]->lwnIdx <= request.c_idx())] *)
Definition confirmable (req : Request) (m : BuilderMsg) : bool :=
  Scn.ltb (lwnScn m) (c_scn req)
  || (Scn.eqb (lwnScn m) (c_scn req) && (lwnIdx m <=? c_idx req)).

(** [while (currentQueueSize > 0 && ...) confirmMessage(queue[0]);]
    [time calls] is what [time(nullptr)] answers in the call number
    [calls].  One unit of [fuel] per evaluation of the loop condition. *)
Fixpoint confirmLoop (fuel : nat) (time : nat -> Z) (calls : nat)
    (req : Request) (w : t) : option t :=
  match fuel with
  | O => None
  | S fuel' =>
    match queue w with
    | [] => Some w
    | m :: _ =>
      if confirmable req m
      then confirmLoop fuel' time (S calls) req
             (confirmMessage (time calls) w m)
      else Some w
    end
  end.

(** [WriterStream::processConfirm]: the writer afterwards and the codes of
    the warnings logged. *)
Definition processConfirm (fuel : nat) (time : nat -> Z) (req : Request)
    (w : t) : option (t * list Z) :=
  if negb (bytes_eqb (database_name req) (database w))
  then Some (w, [60035])
  else
    match confirmLoop fuel time 0 req w with
    | None => None
    | Some w' => Some (w', [])
    end.

End WriterStream.

(** *** Further notions for the writer *)

Module WriterMore.
Import Writer.

(** A message is at or before the confirmed position. *)
Definition confirmed (w : t) (m : BuilderMsg) : Prop :=
  lwnScn m < confirmedScn w
  \/ (lwnScn m = confirmedScn w /\ lwnIdx m <= confirmedIdx w).

End WriterMore.

(** ** MemoryManager: unswap selection, swap, unswap and the cleaning of
       committed transactions (common/MemoryManager.cpp) *)

Module MemorySwap.
Import MemoryManager.

(** The contents of one memory chunk. *)
Definition Data := list byte.

(** A swap file [<xid>.swap]: its size in bytes and, for each chunk index,
    the data at offset [index * MEMORY_CHUNK_SIZE]. *)
Record File := mkFile {
  fileSize : Z;
  chunkAt : Z -> Data
}.

(** What [swap], [unswap] and [cleanOldTransactions] work on: the selection
    state of [Ctx], the transaction chosen for shrinking, the committed
    transactions, the memory behind the chunk pointers, the chunks given
    back to the pool, and the swap directory.  The directory is a map from
    xid to file. *)
Record Sys := mkSys {
  ctx : Ctx;
  swappedShrinkXid : Xid;
  commitedXids : list Xid;
  swappedMB : Z;
  mem : Z -> Data;
  freed : list Z;
  files : Xid -> option File
}.

Inductive outcome (A : Type) : Type :=
| Returns (a : A)
| Throws (code : Z).
Arguments Returns {A} a.
Arguments Throws {A} code.

(** [ctx->swapChunks.find(xid)] *)
Fixpoint find (xid : Xid) (l : list (Xid * SwapChunk)) : option SwapChunk :=
  match l with
  | [] => None
  | (x, sc) :: l' => if x =? xid then Some sc else find xid l'
  end.

(** The assignment through the pointer that [find] returned. *)
Fixpoint update (xid : Xid) (sc : SwapChunk) (l : list (Xid * SwapChunk))
    : list (Xid * SwapChunk) :=
  match l with
  | [] => []
  | (x, sc0) :: l' =>
    if x =? xid then (x, sc) :: l' else (x, sc0) :: update xid sc l'
  end.

(** [ctx->swapChunks.erase(it)] *)
Fixpoint erase (xid : Xid) (l : list (Xid * SwapChunk))
    : list (Xid * SwapChunk) :=
  match l with
  | [] => []
  | (x, sc0) :: l' => if x =? xid then l' else (x, sc0) :: erase xid l'
  end.

(** [sc->chunks[index] = p]; an index outside the vector, which the code
    never produces after its checks, leaves the vector as it is. *)
Fixpoint setChunk (chunks : list Z) (index : nat) (p : Z) : list Z :=
  match chunks, index with
  | [], _ => []
  | _ :: rest, O => p :: rest
  | c :: rest, S i => c :: setChunk rest i p
  end.

Definition withChunks (c : Ctx) (l : list (Xid * SwapChunk)) : Ctx :=
  mkCtx l (swappedFlushXid c) (nothingToSwap c).

Definition set_ctx (c : Ctx) (s : Sys) : Sys :=
  mkSys c (swappedShrinkXid s) (commitedXids s) (swappedMB s) (mem s)
    (freed s) (files s).

Definition set_mem (m : Z -> Data) (s : Sys) : Sys :=
  mkSys (ctx s) (swappedShrinkXid s) (commitedXids s) (swappedMB s) m
    (freed s) (files s).

Definition set_files (f : Xid -> option File) (s : Sys) : Sys :=
  mkSys (ctx s) (swappedShrinkXid s) (commitedXids s) (swappedMB s) (mem s)
    (freed s) f.

Definition putFile (xid : Xid) (f : option File) (fs : Xid -> option File)
    : Xid -> option File :=
  fun x => if x =? xid then f else fs x.

(** [MemoryManager::getChunkToUnswap]; [xid] and [index] are the reference
    arguments. *)
Definition getChunkToUnswap (s : Sys) (xid : Xid) (index : Z)
    : outcome (Xid * Z) :=
  let shrink : outcome (Xid * Z) :=
    if swappedShrinkXid s =? 0 then Returns (xid, index)
    else
      match find (swappedShrinkXid s) (swapChunks (ctx s)) with
      | None => Throws 50070
      | Some sc =>
        if swappedMax sc =? -1 then Returns (xid, index)
        else Returns (swappedShrinkXid s, swappedMax sc)
      end in
  if negb (swappedFlushXid (ctx s) =? 0) then
    match find (swappedFlushXid (ctx s)) (swapChunks (ctx s)) with
    | None => Throws 50070
    | Some sc =>
      if swappedMin sc >? -1
      then Returns (swappedFlushXid (ctx s), swappedMin sc)
      else shrink
    end
  else shrink.

Section SwapFiles.

(** [Ctx::MEMORY_CHUNK_SIZE], whose declaration is not among the sources. *)
Variable MEMORY_CHUNK_SIZE : Z.

(** The system calls on the swap file [<xid>.swap] that can fail although
    the file is there: whether [open] fails, what [pread] and [pwrite] of
    the chunk at an index return, whether [unlink] fails, and whether
    [truncate] to a size fails.  [stat] fails exactly when the file is
    missing. *)
Variable openFails : Xid -> bool.
Variable preadBytes : Xid -> Z -> Z.
Variable pwriteBytes : Xid -> Z -> Z.
Variable unlinkFails : Xid -> bool.
Variable truncateFails : Xid -> Z -> bool.

(** The first [bytes] bytes of [d] laid over [old]: what a transfer that
    stopped after [bytes] bytes leaves; nothing changes when [bytes] is not
    positive. *)
Definition overlay (bytes : Z) (d old : Data) : Data :=
  firstn (Z.to_nat bytes) d ++ skipn (Z.to_nat bytes) old.

(** [MemoryManager::unswap]; [tc] is what [getMemoryChunk] returned, 0 for
    nullptr.  Sizes and offsets in the file are the products as integers:
    the properties of [unswap] and [swap] are stated where
    [(index + 1) * MEMORY_CHUNK_SIZE] is below 2^63, so that the 64-bit
    products of the code are these. *)
Definition unswap (tc : Z) (xid : Xid) (index : Z) (s : Sys)
    : outcome bool * Sys :=
  if tc =? 0 then (Returns false, s)
  else
    match files s xid with
    | None => (Throws 50072, s)
    | Some f =>
      if negb (Z.land (fileSize f) (MEMORY_CHUNK_SIZE - 1) =? 0)
      then (Throws 50072, s)
      else if fileSize f <? (index + 1) * MEMORY_CHUNK_SIZE
      then (Throws 50072, s)
      else if openFails xid then (Throws 50072, s)
      else
        let bytes := preadBytes xid index in
        if negb (bytes =? MEMORY_CHUNK_SIZE)
        then (Throws 50072,
              set_mem (fun p => if p =? tc
                                then overlay bytes (chunkAt f index) (mem s p)
                                else mem s p) s)
        else
        let s := set_mem (fun p => if p =? tc then chunkAt f index
                                   else mem s p) s in
        match find xid (swapChunks (ctx s)) with
        | None => (Throws 50070, s)
        | Some sc =>
          if swappedMin sc =? index then
            let chunks' := setChunk (chunks sc) (Z.to_nat (swappedMin sc)) tc in
            let sc' :=
              if swappedMin sc =? swappedMax sc
              then mkSwapChunk chunks' (-1) (-1) (release sc)
              else mkSwapChunk chunks' (swappedMin sc + 1) (swappedMax sc)
                     (release sc) in
            (Returns true,
             set_ctx (withChunks (ctx s)
                        (update xid sc' (swapChunks (ctx s)))) s)
          else if swappedMax sc =? index then
            let chunks' := setChunk (chunks sc) (Z.to_nat (swappedMax sc)) tc in
            if swappedMin sc =? swappedMax sc then
              let sc' := mkSwapChunk chunks' (-1) (-1) (release sc) in
              let s := set_ctx (withChunks (ctx s)
                                  (update xid sc' (swapChunks (ctx s)))) s in
              if unlinkFails xid then (Throws 50072, s)
              else (Returns true, set_files (putFile xid None (files s)) s)
            else
              let sc' := mkSwapChunk chunks' (swappedMin sc)
                           (swappedMax sc - 1) (release sc) in
              let s := set_ctx (withChunks (ctx s)
                                  (update xid sc' (swapChunks (ctx s)))) s in
              let size := (swappedMax sc' + 1) * MEMORY_CHUNK_SIZE in
              if truncateFails xid size then (Throws 50072, s)
              else
                (Returns true,
                 set_files (putFile xid (Some (mkFile size (chunkAt f)))
                              (files s)) s)
          else (Throws 50072, s)
        end
    end.

(** The file that [open] with [O_CREAT] finds or creates. *)
Definition opened (f : option File) : File :=
  match f with Some f => f | None => mkFile 0 (fun _ => []) end.

(** [pwrite] of one whole chunk at [index * MEMORY_CHUNK_SIZE]. *)
Definition writeChunk (f : option File) (index : Z) (d : Data) : File :=
  let old := opened f in
  mkFile (Z.max (fileSize old) ((index + 1) * MEMORY_CHUNK_SIZE))
    (fun i => if i =? index then d else chunkAt old i).

(** A [pwrite] at [index * MEMORY_CHUNK_SIZE] that returned [bytes], not
    the chunk size: the bytes it wrote, if any, are in the file. *)
Definition writeShort (f : option File) (index : Z) (d : Data) (bytes : Z)
    : File :=
  let old := opened f in
  if bytes <=? 0 then old
  else mkFile (Z.max (fileSize old) (index * MEMORY_CHUNK_SIZE + bytes))
         (fun i => if i =? index then overlay bytes d (chunkAt old i)
                   else chunkAt old i).

(** [MemoryManager::swap] *)
Definition swap (xid : Xid) (index : Z) (s : Sys) : outcome bool * Sys :=
  match find xid (swapChunks (ctx s)) with
  | None => (Throws 50070, s)
  | Some sc =>
    if (chunkCount sc <=? 1) || (index >=? to_int64 (chunkCount sc - 1))
       || negb (swappedMax sc =? index - 1)
    then (Returns false, s)
    else
      let tc := nth (Z.to_nat index) (chunks sc) 0 in
      let sc1 :=
        mkSwapChunk (setChunk (chunks sc) (Z.to_nat index) 0)
          (if swappedMin sc =? -1 then index else swappedMin sc) index
          (release sc) in
      let s0 := set_ctx (withChunks (ctx s)
                           (update xid sc1 (swapChunks (ctx s)))) s in
      if openFails xid then (Throws 50072, s0)
      else
      let bytes := pwriteBytes xid index in
      if negb (bytes =? MEMORY_CHUNK_SIZE)
      then (Throws 50072,
            set_files (putFile xid
                         (Some (writeShort (files s xid) index (mem s tc)
                                  bytes))
                         (files s0)) s0)
      else
      let file := writeChunk (files s xid) index (mem s tc) in
      let s1 :=
        mkSys (withChunks (ctx s) (update xid sc1 (swapChunks (ctx s))))
          (swappedShrinkXid s) (commitedXids s) (swappedMB s + 1) (mem s)
          (freed s) (putFile xid (Some file) (files s)) in
      if swappedShrinkXid s =? xid then
        let chunks2 := setChunk (chunks sc1) (Z.to_nat index) tc in
        if swappedMax sc1 =? 0 then
          let sc2 := mkSwapChunk chunks2 (-1) (-1) (release sc1) in
          let s2 := set_ctx (withChunks (ctx s1)
                               (update xid sc2 (swapChunks (ctx s1)))) s1 in
          if unlinkFails xid then (Throws 50072, s2)
          else (Returns false, set_files (putFile xid None (files s2)) s2)
        else
          let sc2 := mkSwapChunk chunks2 (swappedMin sc1) (swappedMax sc1 - 1)
                       (release sc1) in
          let truncateSize := (swappedMax sc2 + 1) * MEMORY_CHUNK_SIZE in
          let s2 := set_ctx (withChunks (ctx s1)
                               (update xid sc2 (swapChunks (ctx s1)))) s1 in
          if truncateSize >? 0
          then
            if truncateFails xid truncateSize then (Throws 50072, s2)
            else (Returns false,
                  set_files (putFile xid
                               (Some (mkFile truncateSize (chunkAt file)))
                               (files s2)) s2)
          else (Returns true,
                mkSys (ctx s2) (swappedShrinkXid s2) (commitedXids s2)
                  (swappedMB s2) (mem s2) (tc :: freed s2) (files s2))
      else
        (Returns true,
         mkSys (ctx s1) (swappedShrinkXid s1) (commitedXids s1)
           (swappedMB s1) (mem s1) (tc :: freed s1) (files s1))
  end.

End SwapFiles.

(** [MemoryManager::cleanOldTransactions]: the loop takes the committed
    xids from the back; the result is the number of discarded chunks and
    the codes of the errors logged.  [unlinkFails] tells for which xid the
    [unlink] of an existing swap file fails. *)
Fixpoint cleanLoop (unlinkFails : Xid -> bool) (xids : list Xid)
    (discard : Z) (lg : list Z) (s : Sys) : Z * list Z * Sys :=
  match xids with
  | [] => (discard, lg, s)
  | xid :: rest =>
    match find xid (swapChunks (ctx s)) with
    | None => cleanLoop unlinkFails rest discard lg s
    | Some sc =>
      let discard :=
        if swappedMax sc >=? 0
        then (discard + (swappedMax sc - swappedMin sc)) mod 2 ^ 64
        else discard in
      let s := set_ctx (withChunks (ctx s) (erase xid (swapChunks (ctx s)))) s in
      match files s xid with
      | None => cleanLoop unlinkFails rest discard lg s
      | Some _ =>
        if unlinkFails xid
        then cleanLoop unlinkFails rest discard (lg ++ [10010]) s
        else cleanLoop unlinkFails rest discard lg
               (set_files (putFile xid None (files s)) s)
      end
    end
  end.

Definition cleanOldTransactions (unlinkFails : Xid -> bool) (s : Sys)
    : Z * list Z * Sys :=
  let s' := mkSys (ctx s) (swappedShrinkXid s) [] (swappedMB s) (mem s)
              (freed s) (files s) in
  cleanLoop unlinkFails (rev (commitedXids s)) 0 [] s'.

End MemorySwap.

(** *** Notions used to state the properties of swapping *)

Module MemorySwapSpec.
Import MemoryManager MemorySwap.

(** [swapChunks] is a map: no xid has two entries. *)
Definition uniqueXids (c : Ctx) : Prop := NoDup (map fst (swapChunks c)).

(** A transaction that [getChunkToSwap] may choose. *)
Definition eligible (c : Ctx) (xid : Xid) (sc : SwapChunk) : Prop :=
  xid <> swappedFlushXid c /\ release sc = false /\ 2 <= chunkCount sc
  /\ swappedMax sc < chunkCount sc - 2.

(** The swapped chunks of a transaction are none, or those from
    [swappedMin] to [swappedMax]. *)
Definition swapRange (sc : SwapChunk) : Prop :=
  (swappedMin sc = -1 /\ swappedMax sc = -1)
  \/ 0 <= swappedMin sc <= swappedMax sc.

(** A swap file is missing, or its size is a multiple of the chunk size
    (tested the way [unswap] tests it). *)
Definition fileAligned (MEMORY_CHUNK_SIZE : Z) (f : option File) : Prop :=
  match f with
  | None => True
  | Some f => Z.land (fileSize f) (MEMORY_CHUNK_SIZE - 1) = 0 /\ 0 <= fileSize f
  end.

(** Fixtures: the transaction 7 of [twoChunks] with data in its first
    chunk and no swap file; the same while transaction 7 is being shrunk;
    and a system in which transaction 7, being flushed, has its first chunk
    in a swap file of one chunk of 2^20 bytes while transaction 9, committed,
    has nothing swapped. *)
Definition swapSys : Sys :=
  mkSys MemoryManagerSpec.twoChunks 0 [] 0
    (fun p => if p =? 4096 then [x01; x02] else []) [] (fun _ => None).

Definition shrinkingSys : Sys :=
  mkSys MemoryManagerSpec.twoChunks 7 [] 0
    (fun p => if p =? 4096 then [x01; x02] else []) [] (fun _ => None).

Definition chunkFile : File := mkFile 1048576 (fun _ => [x01; x02]).

(** System calls that never fail, on chunks of 2^20 bytes. *)
Definition noFail : Xid -> bool := fun _ => false.

Definition wholeChunk : Xid -> Z -> Z := fun _ _ => 1048576.

Definition truncateOk : Xid -> Z -> bool := fun _ _ => false.

Definition busySys : Sys :=
  mkSys
    (mkCtx [(7, mkSwapChunk [0; 8192; 12288] 0 0 false);
            (9, mkSwapChunk [4096; 16384] (-1) (-1) false)] 7 false)
    0 [9] 1 (fun _ => []) [4096]
    (fun x => if x =? 7 then Some chunkFile else None).

End MemorySwapSpec.

(** The value of a byte. *)
Definition bv (b : byte) : Z := Z.of_N (Byte.to_N b).

(** * Properties *)

#[local] Set Default Proof Using "Type".

(** *** Bits of the checksum fold *)

Lemma u8_range (buffer : list byte) (off : Z) : 0 <= u8 buffer off < 256.
Proof.
  unfold u8. pose proof (Byte.to_N_bounded (nth (Z.to_nat off) buffer x00)).
  lia.
Qed.

Lemma testbit_split (k lo hi n : Z) :
  0 <= k -> 0 <= lo < 2 ^ k -> 0 <= n ->
  Z.testbit (lo + hi * 2 ^ k) n
  = if n <? k then Z.testbit lo n else Z.testbit hi (n - k).
Proof.
  intros Hk Hlo Hn. destruct (Z.ltb_spec n k) as [Hlt | Hge].
  - rewrite <- (Z.mod_pow2_bits_low (lo + hi * 2 ^ k) k n) by lia.
    rewrite Z.mod_add by lia. rewrite Z.mod_small by lia. reflexivity.
  - replace n with ((n - k) + k) at 1 by lia.
    rewrite <- Z.div_pow2_bits by lia.
    rewrite Z.div_add by lia. rewrite Z.div_small by lia. reflexivity.
Qed.

Lemma testbit_mask16 (n : Z) : 0 <= n -> Z.testbit 0xFFFF n = (n <? 16).
Proof.
  intros Hn. change 0xFFFF with (Z.ones 16).
  destruct (Z.ltb_spec n 16).
  - apply Z.ones_spec_low. lia.
  - apply Z.ones_spec_high. lia.
Qed.

Lemma fold16_bits (s n : Z) :
  0 <= n ->
  Z.testbit (fold16 s) n
  = (n <? 16) && xorb (xorb (Z.testbit s n) (Z.testbit s (n + 32)))
                   (xorb (Z.testbit s (n + 16)) (Z.testbit s (n + 48))).
Proof.
  intros Hn. unfold fold16.
  rewrite Z.land_spec, testbit_mask16 by lia.
  rewrite !Z.lxor_spec, !Z.shiftr_spec by lia. rewrite !Z.lxor_spec.
  rewrite !Z.shiftr_spec by lia.
  replace (n + 16 + 32) with (n + 48) by lia.
  destruct (n <? 16); btauto.
Qed.

Lemma testbit_small16 (x n : Z) :
  0 <= x < 2 ^ 16 -> 16 <= n -> Z.testbit x n = false.
Proof.
  intros Hx Hn. replace x with (x + 0 * 2 ^ 16) by lia.
  rewrite testbit_split by lia.
  destruct (Z.ltb_spec n 16); [lia | apply Z.testbit_0_l].
Qed.

Lemma read16_range (be : bool) (buffer : list byte) (off : Z) :
  0 <= read16 be buffer off < 2 ^ 16.
Proof.
  pose proof (u8_range buffer off). pose proof (u8_range buffer (off + 1)).
  unfold read16, read16Big, read16Little. destruct be; lia.
Qed.

(** The result of [calcChSum], bit by bit. *)
Lemma calcChSum_bits (hb be : bool) (buffer : list byte) (size n : Z) :
  0 <= n ->
  Z.testbit (calcChSum hb be buffer size) n
  = xorb (Z.testbit (fold16 (xorWords hb (Z.to_nat (size / 8)) buffer 0)) n)
         (Z.testbit (read16 be buffer 14) n).
Proof.
  intros Hn. rewrite fold16_bits by lia. unfold calcChSum.
  rewrite Z.land_spec, testbit_mask16 by lia.
  rewrite !Z.lxor_spec, !Z.shiftr_spec by lia. rewrite !Z.lxor_spec.
  rewrite !Z.shiftr_spec by lia.
  replace (n + 16 + 32) with (n + 48) by lia.
  destruct (Z.ltb_spec n 16) as [Hlt | Hge].
  - btauto.
  - rewrite (testbit_small16 (read16 be buffer 14) n (read16_range _ _ _) Hge).
    btauto.
Qed.

Lemma calcChSum_fold (hb be : bool) (buffer : list byte) (size : Z) :
  calcChSum hb be buffer size
  = Z.lxor (fold16 (xorWords hb (Z.to_nat (size / 8)) buffer 0))
           (read16 be buffer 14).
Proof.
  apply Z.bits_inj'. intros n Hn.
  rewrite calcChSum_bits by lia. now rewrite Z.lxor_spec.
Qed.

Lemma xorWords_acc (hb : bool) (n : nat) :
  forall (buffer : list byte) (sum : Z),
    xorWords hb n buffer sum = Z.lxor sum (xorWords hb n buffer 0).
Proof.
  induction n as [| n IH]; intros buffer sum; simpl.
  - now rewrite Z.lxor_0_r.
  - rewrite IH. symmetry. rewrite IH. symmetry.
    rewrite ?Z.lxor_0_l. apply Z.lxor_assoc.
Qed.

Lemma buffer_16 (buffer : list byte) :
  (16 <= length buffer)%nat ->
  exists a0 a1 a2 a3 a4 a5 a6 a7 a8 a9 a10 a11 a12 a13 a14 a15 rest,
    buffer = a0 :: a1 :: a2 :: a3 :: a4 :: a5 :: a6 :: a7 :: a8 :: a9 :: a10
             :: a11 :: a12 :: a13 :: a14 :: a15 :: rest.
Proof.
  intros H.
  do 16 (destruct buffer as [| ? buffer]; [simpl in H; lia |]).
  repeat eexists.
Qed.

(** A word whose two checksum bytes sit in the 16 bits that [read16] of the
    same byte order reads: little-endian host and log. *)
Lemma lane_little (a8 a9 a10 a11 a12 a13 b14 b15 r n : Z) :
  0 <= a8 < 256 -> 0 <= a9 < 256 -> 0 <= a10 < 256 -> 0 <= a11 < 256 ->
  0 <= a12 < 256 -> 0 <= a13 < 256 -> 0 <= n < 16 ->
  let w := a8 + a9 * 2 ^ 8 + a10 * 2 ^ 16 + a11 * 2 ^ 24 + a12 * 2 ^ 32
           + a13 * 2 ^ 40 + b14 * 2 ^ 48 + b15 * 2 ^ 56 in
  let w0 := a8 + a9 * 2 ^ 8 + a10 * 2 ^ 16 + a11 * 2 ^ 24 + a12 * 2 ^ 32
           + a13 * 2 ^ 40 + 0 * 2 ^ 48 + 0 * 2 ^ 56 in
  xorb (Z.testbit (fold16 (Z.lxor r w)) n) (Z.testbit (b14 + b15 * 2 ^ 8) n)
  = Z.testbit (fold16 (Z.lxor r w0)) n.
Proof.
  intros H8 H9 H10 H11 H12 H13 Hn w w0.
  set (lo := a8 + a9 * 2 ^ 8 + a10 * 2 ^ 16 + a11 * 2 ^ 24 + a12 * 2 ^ 32
             + a13 * 2 ^ 40).
  assert (Hlo : 0 <= lo < 2 ^ 48) by (subst lo; lia).
  replace w with (lo + (b14 + b15 * 2 ^ 8) * 2 ^ 48) by (subst w lo; lia).
  replace w0 with (lo + 0 * 2 ^ 48) by (subst w0 lo; lia).
  rewrite !fold16_bits by lia. rewrite !Z.lxor_spec.
  rewrite !(testbit_split 48 lo) by lia.
  replace (n <? 16) with true by (symmetry; apply Z.ltb_lt; lia).
  replace (n <? 48) with true by (symmetry; apply Z.ltb_lt; lia).
  replace (n + 16 <? 48) with true by (symmetry; apply Z.ltb_lt; lia).
  replace (n + 32 <? 48) with true by (symmetry; apply Z.ltb_lt; lia).
  replace (n + 48 <? 48) with false by (symmetry; apply Z.ltb_ge; lia).
  replace (n + 48 - 48) with n by lia.
  rewrite ?Z.testbit_0_l. cbn [andb]. btauto.
Qed.

(** The same for a big-endian host and log. *)
Lemma lane_big (a8 a9 a10 a11 a12 a13 b14 b15 r n : Z) :
  0 <= b14 < 256 -> 0 <= b15 < 256 -> 0 <= n < 16 ->
  let w := a8 * 2 ^ 56 + a9 * 2 ^ 48 + a10 * 2 ^ 40 + a11 * 2 ^ 32
           + a12 * 2 ^ 24 + a13 * 2 ^ 16 + b14 * 2 ^ 8 + b15 in
  let w0 := a8 * 2 ^ 56 + a9 * 2 ^ 48 + a10 * 2 ^ 40 + a11 * 2 ^ 32
           + a12 * 2 ^ 24 + a13 * 2 ^ 16 + 0 * 2 ^ 8 + 0 in
  xorb (Z.testbit (fold16 (Z.lxor r w)) n) (Z.testbit (b14 * 2 ^ 8 + b15) n)
  = Z.testbit (fold16 (Z.lxor r w0)) n.
Proof.
  intros H14 H15 Hn w w0.
  set (hi := a8 * 2 ^ 40 + a9 * 2 ^ 32 + a10 * 2 ^ 24 + a11 * 2 ^ 16
             + a12 * 2 ^ 8 + a13).
  replace w with ((b14 * 2 ^ 8 + b15) + hi * 2 ^ 16) by (subst w hi; lia).
  replace w0 with (0 + hi * 2 ^ 16) by (subst w0 hi; lia).
  rewrite !fold16_bits by lia. rewrite !Z.lxor_spec.
  rewrite !(testbit_split 16 _ hi) by lia.
  replace (n <? 16) with true by (symmetry; apply Z.ltb_lt; lia).
  replace (n + 16 <? 16) with false by (symmetry; apply Z.ltb_ge; lia).
  replace (n + 32 <? 16) with false by (symmetry; apply Z.ltb_ge; lia).
  replace (n + 48 <? 16) with false by (symmetry; apply Z.ltb_ge; lia).
  rewrite ?Z.testbit_0_l. cbn [andb]. btauto.
Qed.

Lemma lxor_swap (a w r : Z) : Z.lxor (Z.lxor a w) r = Z.lxor (Z.lxor a r) w.
Proof.
  rewrite !Z.lxor_assoc. f_equal. apply Z.lxor_comm.
Qed.

Lemma div8_two (size : Z) :
  16 <= size -> exists m, Z.to_nat (size / 8) = S (S m).
Proof.
  intros H. assert (2 <= size / 8) by (apply Z.div_le_lower_bound; lia).
  exists (Z.to_nat (size / 8) - 2)%nat. lia.
Qed.

Lemma bv_range (b : byte) : 0 <= bv b < 256.
Proof. unfold bv. pose proof (Byte.to_N_bounded b). lia. Qed.

(** The first two turns of the checksum loop on a buffer whose first 16
    bytes are named. *)
Lemma xorWords_two (hb : bool) (m : nat)
    (a0 a1 a2 a3 a4 a5 a6 a7 a8 a9 a10 a11 a12 a13 a14 a15 : byte)
    (rest : list byte) :
  xorWords hb (S (S m))
    (a0 :: a1 :: a2 :: a3 :: a4 :: a5 :: a6 :: a7 :: a8 :: a9 :: a10 :: a11
     :: a12 :: a13 :: a14 :: a15 :: rest) 0
  = Z.lxor (Z.lxor (load64 hb [a0; a1; a2; a3; a4; a5; a6; a7])
                   (xorWords hb m rest 0))
           (load64 hb [a8; a9; a10; a11; a12; a13; a14; a15]).
Proof.
  change (xorWords hb (S (S m))
            (a0 :: a1 :: a2 :: a3 :: a4 :: a5 :: a6 :: a7 :: a8 :: a9 :: a10
             :: a11 :: a12 :: a13 :: a14 :: a15 :: rest) 0)
    with (xorWords hb m rest
            (Z.lxor (Z.lxor 0 (load64 hb [a0; a1; a2; a3; a4; a5; a6; a7]))
                    (load64 hb [a8; a9; a10; a11; a12; a13; a14; a15]))).
  rewrite xorWords_acc, Z.lxor_0_l. apply lxor_swap.
Qed.

Lemma load64_bytes (hb : bool) (a b c d e f g h : byte) :
  load64 hb [a; b; c; d; e; f; g; h]
  = if hb
    then bv a * 2 ^ 56 + bv b * 2 ^ 48 + bv c * 2 ^ 40 + bv d * 2 ^ 32
         + bv e * 2 ^ 24 + bv f * 2 ^ 16 + bv g * 2 ^ 8 + bv h
    else bv a + bv b * 2 ^ 8 + bv c * 2 ^ 16 + bv d * 2 ^ 24 + bv e * 2 ^ 32
         + bv f * 2 ^ 40 + bv g * 2 ^ 48 + bv h * 2 ^ 56.
Proof. destruct hb; reflexivity. Qed.

Lemma read16_checksum (be : bool)
    (a0 a1 a2 a3 a4 a5 a6 a7 a8 a9 a10 a11 a12 a13 a14 a15 : byte)
    (rest : list byte) :
  read16 be
    (a0 :: a1 :: a2 :: a3 :: a4 :: a5 :: a6 :: a7 :: a8 :: a9 :: a10 :: a11
     :: a12 :: a13 :: a14 :: a15 :: rest) 14
  = if be then bv a14 * 2 ^ 8 + bv a15 else bv a14 + bv a15 * 2 ^ 8.
Proof. destruct be; reflexivity. Qed.

Lemma setChSumBytes_16
    (a0 a1 a2 a3 a4 a5 a6 a7 a8 a9 a10 a11 a12 a13 a14 a15 b14 b15 : byte)
    (rest : list byte) :
  setChSumBytes
    (a0 :: a1 :: a2 :: a3 :: a4 :: a5 :: a6 :: a7 :: a8 :: a9 :: a10 :: a11
     :: a12 :: a13 :: a14 :: a15 :: rest) b14 b15
  = a0 :: a1 :: a2 :: a3 :: a4 :: a5 :: a6 :: a7 :: a8 :: a9 :: a10 :: a11
    :: a12 :: a13 :: b14 :: b15 :: rest.
Proof. reflexivity. Qed.

Lemma calcChSum_zeroed (hb : bool) (buffer : list byte) (b14 b15 : byte)
    (size : Z) :
  (16 <= length buffer)%nat -> 16 <= size ->
  calcChSum hb hb (setChSumBytes buffer b14 b15) size
  = calcChSum hb hb (setChSumBytes buffer x00 x00) size.
Proof.
  intros Hlen Hsize.
  destruct (buffer_16 buffer Hlen)
    as (a0 & a1 & a2 & a3 & a4 & a5 & a6 & a7 & a8 & a9 & a10 & a11 & a12
        & a13 & a14 & a15 & rest & ->).
  destruct (div8_two size Hsize) as [m Hm].
  rewrite !setChSumBytes_16.
  apply Z.bits_inj'. intros n Hn. rewrite !calcChSum_bits by lia.
  destruct (Z.ltb_spec n 16) as [Hlt | Hge].
  2:{ rewrite !fold16_bits by lia.
      replace (n <? 16) with false by (symmetry; apply Z.ltb_ge; lia).
      rewrite !(testbit_small16 (read16 _ _ _) n (read16_range _ _ _) Hge).
      reflexivity. }
  rewrite Hm, !xorWords_two, !read16_checksum, !load64_bytes.
  pose proof (bv_range a8). pose proof (bv_range a9).
  pose proof (bv_range a10). pose proof (bv_range a11).
  pose proof (bv_range a12). pose proof (bv_range a13).
  pose proof (bv_range b14). pose proof (bv_range b15).
  change (bv x00) with 0.
  destruct hb.
  - rewrite lane_big by lia.
    rewrite (lane_big _ _ _ _ _ _ 0 0) by lia.
    reflexivity.
  - rewrite lane_little by lia.
    rewrite (lane_little _ _ _ _ _ _ 0 0) by lia.
    reflexivity.
Qed.

(** C10, amended: when the log has the byte order of the host, overwriting
    the checksum bytes 14 and 15 of a block of at least 16 bytes does not
    change [calcChSum]; and in every byte order the test "stored checksum
    equals [calcChSum]" holds exactly when the XOR of all 8-byte words,
    folded to 16 bits, is zero. *)
Theorem calcChSum_checksum_field (hostBig bigEndian : bool)
    (buffer : list byte) (b14 b15 : byte) (size : Z) :
  (16 <= length buffer)%nat -> 16 <= size ->
  (bigEndian = hostBig ->
   calcChSum hostBig bigEndian (setChSumBytes buffer b14 b15) size
   = calcChSum hostBig bigEndian buffer size)
  /\ ((read16 bigEndian buffer 14 =? calcChSum hostBig bigEndian buffer size)
      = true
      <-> fold16 (xorWords hostBig (Z.to_nat (size / 8)) buffer 0) = 0).
Proof.
  intros Hlen Hsize. split.
  - intros ->.
    rewrite (calcChSum_zeroed hostBig buffer b14 b15 size Hlen Hsize).
    destruct (buffer_16 buffer Hlen)
      as (a0 & a1 & a2 & a3 & a4 & a5 & a6 & a7 & a8 & a9 & a10 & a11 & a12
          & a13 & a14 & a15 & rest & E).
    rewrite <- (calcChSum_zeroed hostBig buffer a14 a15 size Hlen Hsize).
    rewrite E at 1. rewrite setChSumBytes_16. rewrite <- E. reflexivity.
  - rewrite calcChSum_fold, Z.eqb_eq.
    set (f := fold16 _). set (old := read16 _ _ _). split.
    + intros H.
      assert (Hf : f = Z.lxor (Z.lxor f old) old)
        by (now rewrite Z.lxor_assoc, Z.lxor_nilpotent, Z.lxor_0_r).
      rewrite Hf, <- H. apply Z.lxor_nilpotent.
    + intros ->. now rewrite Z.lxor_0_l.
Qed.

(** ** The reader *)

Section ReaderBasics.

Import Reader ReaderSpec.

Lemma headerAccepted_tests (r : t) (buffer : list byte) :
  headerAccepted r buffer = true ->
  (u8 buffer 0 =? 0) && (u8 buffer 1 =? 0) = false
  /\ ((blockSize r =? 512) && negb (u8 buffer 1 =? 34))
     || ((blockSize r =? 1024) && negb (u8 buffer 1 =? 34))
     || ((blockSize r =? 4096) && negb (u8 buffer 1 =? 130)) = false.
Proof.
  unfold headerAccepted. intros H.
  apply andb_true_iff in H. destruct H as [H1 H2].
  apply negb_true_iff in H1, H2. split; assumption.
Qed.

Lemma STATUS_beq_false (a b : STATUS) : a <> b -> STATUS_beq a b = false.
Proof. destruct a, b; simpl; congruence. Qed.

Lemma REDO_CODE_beq_eq (a b : REDO_CODE) : REDO_CODE_beq a b = true <-> a = b.
Proof. destruct a, b; simpl; split; congruence. Qed.

Lemma REDO_CODE_beq_refl (a : REDO_CODE) : REDO_CODE_beq a a = true.
Proof. destruct a; reflexivity. Qed.

Lemma blockSizeOK_valid (size h1 : Z) :
  blockSizeOK size h1 = true <-> validBlockSize size h1.
Proof.
  unfold blockSizeOK, validBlockSize.
  rewrite !orb_true_iff, !andb_true_iff, !Z.eqb_eq. tauto.
Qed.

Lemma blockSizeOK_invalid (size h1 : Z) :
  blockSizeOK size h1 = false <-> ~ validBlockSize size h1.
Proof.
  rewrite <- blockSizeOK_valid. destruct (blockSizeOK size h1); split;
    congruence.
Qed.

Lemma sleeps_app (l1 l2 : list Event) :
  sleeps (l1 ++ l2) = (sleeps l1 + sleeps l2)%nat.
Proof.
  induction l1 as [| e l1 IH]; [reflexivity |].
  destruct e; simpl; rewrite IH; reflexivity.
Qed.


End ReaderBasics.

Section BlockHeader.

Import Reader ReaderSpec.

Variable hostBig : bool.

(** C3, amended: on an online or standby reader that already has a sequence,
    a block whose header sequence is lower than expected is EMPTY and one
    whose header sequence is higher is OVERWRITTEN. *)
Theorem checkBlockHeader_sequence_mismatch
    (c : Ctx) (r : t) (buffer : list byte) (blockNumber : Z) (showHint : bool) :
  group r <> 0 ->
  sequence r <> Seq.zero ->
  status r <> UPDATE ->
  headerAccepted r buffer = true ->
  let sequenceHeader := read32 (bigEndian c) buffer 8 in
  (sequenceHeader < sequence r ->
   checkBlockHeader hostBig c r buffer blockNumber showHint = (EMPTY, r, []))
  /\ (sequence r < sequenceHeader ->
      checkBlockHeader hostBig c r buffer blockNumber showHint
      = (OVERWRITTEN, r, [])).
Proof.
  intros Hgroup Hseq Hstatus Hacc sequenceHeader.
  destruct (headerAccepted_tests r buffer Hacc) as [Hzero Hsize].
  assert (Hs : Seq.eqb (sequence r) Seq.zero = false)
    by (apply Z.eqb_neq; exact Hseq).
  pose proof (STATUS_beq_false _ _ Hstatus) as Hu.
  assert (Hg : (group r =? 0) = false) by (apply Z.eqb_neq; exact Hgroup).
  unfold checkBlockHeader. rewrite Hzero, Hsize, Hs, Hu, Hg. cbn [orb].
  fold sequenceHeader. unfold Seq.gtb, Seq.ltb. split; intros Hlt.
  - replace (sequence r >? sequenceHeader) with true
      by (symmetry; apply Z.gtb_lt; lia).
    reflexivity.
  - replace (sequence r >? sequenceHeader) with false
      by (symmetry; rewrite Z.gtb_ltb; apply Z.ltb_ge; lia).
    replace (sequence r <? sequenceHeader) with true
      by (symmetry; apply Z.ltb_lt; lia).
    reflexivity.
Qed.

Lemma checkBlockHeader_fields (c : Ctx) (r : t) (buffer : list byte)
    (blockNumber : Z) (showHint : bool) :
  let r' := snd (fst (checkBlockHeader hostBig c r buffer blockNumber showHint)) in
  group r' = group r /\ nextScnHeader r' = nextScnHeader r
  /\ blockSize r' = blockSize r /\ headerBuffer r' = headerBuffer r
  /\ status r' = status r.
Proof.
  unfold checkBlockHeader.
  repeat match goal with
         | |- context [if ?b then _ else _] => destruct b
         end; cbn; auto.
Qed.

(** The answer of [checkBlockHeader] depends on the reader only through
    its block size, sequence, status and group, and on the context only
    through the byte order and the checksum switch. *)
Lemma checkBlockHeader_code_ext (c c' : Ctx) (r r' : t) (buffer : list byte)
    (blockNumber : Z) (showHint showHint' : bool) :
  bigEndian c' = bigEndian c ->
  disableChecksBlockSum c' = disableChecksBlockSum c ->
  blockSize r' = blockSize r -> sequence r' = sequence r ->
  status r' = status r -> group r' = group r ->
  fst (fst (checkBlockHeader hostBig c' r' buffer blockNumber showHint'))
  = fst (fst (checkBlockHeader hostBig c r buffer blockNumber showHint)).
Proof.
  intros H1 H2 H3 H4 H5 H6. destruct r, r'. cbn in H3, H4, H5, H6. subst.
  unfold checkBlockHeader, checksum. cbv zeta.
  cbn [blockSize sequence status group set_sequence]. rewrite H1, H2.
  repeat (match goal with
          | |- context [if ?b then _ else _] => destruct b
          end;
          cbn [blockSize sequence status group set_sequence hintDisplayed
               configuredBlockSum]);
    reflexivity.
Qed.

Lemma checkBlockHeader_no_sleep (c : Ctx) (r : t) (buffer : list byte)
    (blockNumber : Z) (showHint : bool) :
  sleeps (snd (checkBlockHeader hostBig c r buffer blockNumber showHint)) = 0%nat.
Proof.
  unfold checkBlockHeader.
  repeat match goal with
         | |- context [if ?b then _ else _] => destruct b
         end; reflexivity.
Qed.

(** A check that fails on the checksum without the hint leaves a state in
    which the same check fails the same way: nothing that it reads has
    changed. *)
Lemma checkBlockHeader_crc_stable (c : Ctx) (r r' : t) (buffer : list byte)
    (blockNumber : Z) (lg : list Event) :
  checkBlockHeader hostBig c r buffer blockNumber false = (ERROR_CRC, r', lg) ->
  lg = []
  /\ checkBlockHeader hostBig c r' buffer blockNumber false
     = (ERROR_CRC, r', []).
Proof.
  unfold checkBlockHeader.
  destruct ((u8 buffer 0 =? 0) && (u8 buffer 1 =? 0)); [discriminate |].
  destruct (((blockSize r =? 512) && negb (u8 buffer 1 =? 34))
            || ((blockSize r =? 1024) && negb (u8 buffer 1 =? 34))
            || ((blockSize r =? 4096) && negb (u8 buffer 1 =? 130))) eqn:Hsize;
    [discriminate |].
  set (sh := read32 (bigEndian c) buffer 8).
  destruct (Seq.eqb (sequence r) Seq.zero || STATUS_beq (status r) UPDATE)
    eqn:Hadopt.
  - (* the header sequence was adopted *)
    cbn [blockSize set_sequence].
    destruct (negb (read32 (bigEndian c) buffer 4 =? blockNumber));
      [discriminate |].
    destruct (negb (disableChecksBlockSum c)); [| discriminate].
    destruct (negb (read16 (bigEndian c) buffer 14
                    =? checksum hostBig c buffer (blockSize r))) eqn:Hcrc;
      [| discriminate].
    intros H. inversion H; subst r' lg. split; [reflexivity |].
    cbn [blockSize set_sequence sequence status group]. rewrite Hsize.
    assert (Hself : Seq.neb sh sh = false)
      by (unfold Seq.neb; rewrite Z.eqb_refl; reflexivity).
    assert (Hgt : Seq.gtb sh sh = false)
      by (unfold Seq.gtb; rewrite Z.gtb_ltb; apply Z.ltb_irrefl).
    assert (Hlt : Seq.ltb sh sh = false) by apply Z.ltb_irrefl.
    rewrite Hself, Hgt, Hlt.
    destruct (Seq.eqb sh Seq.zero || STATUS_beq (status r) UPDATE);
      [| destruct (group r =? 0)];
      cbn [blockSize set_sequence]; rewrite Hcrc; reflexivity.
  - destruct (group r =? 0) eqn:Hgroup.
    + destruct (Seq.neb (sequence r) sh) eqn:Hne; [discriminate |].
      destruct (negb (read32 (bigEndian c) buffer 4 =? blockNumber));
        [discriminate |].
      destruct (negb (disableChecksBlockSum c)); [| discriminate].
      destruct (negb (read16 (bigEndian c) buffer 14
                      =? checksum hostBig c buffer (blockSize r))) eqn:Hcrc;
        [| discriminate].
      intros H. inversion H; subst r' lg. split; [reflexivity |].
      rewrite Hsize, Hadopt, Hgroup, Hne, Hcrc. reflexivity.
    + destruct (Seq.gtb (sequence r) sh) eqn:Hgt; [discriminate |].
      destruct (Seq.ltb (sequence r) sh) eqn:Hlt; [discriminate |].
      destruct (negb (read32 (bigEndian c) buffer 4 =? blockNumber));
        [discriminate |].
      destruct (negb (disableChecksBlockSum c)); [| discriminate].
      destruct (negb (read16 (bigEndian c) buffer 14
                      =? checksum hostBig c buffer (blockSize r))) eqn:Hcrc;
        [| discriminate].
      intros H. inversion H; subst r' lg. split; [reflexivity |].
      rewrite Hsize, Hadopt, Hgroup, Hgt, Hlt, Hcrc. reflexivity.
Qed.

Lemma crcRetryLoop_bounded (c : Ctx) (fuel : nat) :
  forall (r : t) (retReload : REDO_CODE) (cnt : Z) (lg : list Event),
    0 <= cnt < BAD_CDC_MAX_CNT ->
    BAD_CDC_MAX_CNT - cnt <= Z.of_nat fuel ->
    exists exit r' lg',
      crcRetryLoop hostBig fuel c r retReload cnt lg = Some (exit, r', lg')
      /\ (Z.of_nat (sleeps lg')
          <= Z.of_nat (sleeps lg) + (BAD_CDC_MAX_CNT - 1 - cnt)).
Proof.
  unfold BAD_CDC_MAX_CNT.
  induction fuel as [| fuel IH]; intros r retReload cnt lg Hcnt Hfuel;
    [lia |].
  cbn [crcRetryLoop].
  destruct (REDO_CODE_beq retReload ERROR_CRC).
  - unfold BAD_CDC_MAX_CNT. destruct (Z.eqb_spec (cnt + 1) 20) as [E | E].
    + exists (LoopReturn ERROR_BAD_DATA), r, lg. split; [reflexivity | lia].
    + pose proof (checkBlockHeader_no_sleep c r
                    (advance (headerBuffer r) (blockSize r)) 1 false) as Hns.
      destruct (checkBlockHeader hostBig c r _ 1 false) as [[ret' r'] lg0].
      cbn [snd] in Hns.
      destruct (IH r' ret' (cnt + 1)
                  (lg ++ Usleep (redoReadSleepUs c) :: lg0))
        as (exit & r'' & lg' & Hrun & Hsl); [lia | lia |].
      exists exit, r'', lg'. split; [exact Hrun |].
      rewrite sleeps_app in Hsl. cbn [sleeps] in Hsl. lia.
  - exists (LoopDone retReload), r, lg. split; [reflexivity | lia].
Qed.

Lemma crcRetryLoop_persistent (c : Ctx) (r : t) (fuel : nat) :
  checkBlockHeader hostBig c r (advance (headerBuffer r) (blockSize r)) 1 false
  = (ERROR_CRC, r, []) ->
  forall (cnt : Z) (lg : list Event),
    cnt + Z.of_nat fuel = BAD_CDC_MAX_CNT -> (0 < fuel)%nat ->
    crcRetryLoop hostBig fuel c r ERROR_CRC cnt lg
    = Some (LoopReturn ERROR_BAD_DATA, r,
            lg ++ repeat (Usleep (redoReadSleepUs c)) (fuel - 1)).
Proof.
  intros Hcheck. unfold BAD_CDC_MAX_CNT.
  induction fuel as [| fuel IH]; intros cnt lg Hcnt Hpos; [lia |].
  cbn [crcRetryLoop REDO_CODE_beq]. unfold BAD_CDC_MAX_CNT.
  destruct (Z.eqb_spec (cnt + 1) 20) as [E | E].
  - assert (fuel = 0%nat) by lia. subst fuel. cbn [Nat.sub repeat].
    now rewrite app_nil_r.
  - rewrite Hcheck. rewrite IH by lia.
    destruct fuel as [| fuel]; [lia |].
    cbn [Nat.sub repeat]. rewrite Nat.sub_0_r.
    rewrite <- app_assoc. reflexivity.
Qed.


End BlockHeader.

Section HeaderRead.

Import Reader ReaderSpec.

Variable MIN_BLOCK_SIZE : Z.
Variable redoRead : Z -> Z -> Z * list byte.
Variable openCopy : Seq.t -> Z.
Variable pwrite : Z -> list byte -> Z -> Z -> Z.

Lemma copyHeader_state (c : Ctx) (r : t) (actualRead : Z) (lg : list Event)
    (res : outcome REDO_CODE) (c' : Ctx) (r' : t) (lg' : list Event) :
  copyHeader openCopy pwrite c r actualRead lg = (res, c', r', lg') ->
  c' = c /\ blockSize r' = blockSize r /\ headerBuffer r' = headerBuffer r.
Proof.
  unfold copyHeader.
  destruct (Seq.neb (fileCopySequence r) _ && negb (fileCopyDes r =? -1));
    cbn [fileCopyDes set_fileCopyDes];
    repeat match goal with
           | |- context [if ?b then _ else _] => destruct b
           end;
    intros H; inversion H; subst; auto.
Qed.

(** C6: [reloadHeaderRead] returns OK only for a size field of 512 or 1024
    with header byte 1 equal to 0x22, or of 4096 with header byte 1 equal to
    0x82; a header that reaches the size test with any other combination is
    refused with error 40005, result ERROR_BAD_DATA and [blockSize] reset to
    0; each of the three listed combinations is accepted. *)
Theorem reloadHeaderRead_block_size (c : Ctx) (r : t) :
  let res := reloadHeaderRead MIN_BLOCK_SIZE redoRead openCopy pwrite c r in
  (forall c' r' lg,
      res = (Returns OK, c', r', lg) ->
      blockSize r' = read32 (bigEndian c') (headerBuffer r') 20
      /\ validBlockSize (blockSize r') (u8 (headerBuffer r') 1))
  /\ (forall actualRead data c1,
         softShutdown c = false ->
         redoRead 0 (headerReadSize r) = (actualRead, data) ->
         MIN_BLOCK_SIZE <= actualRead ->
         let h := data ++ skipn (length data) (headerBuffer r) in
         u8 h 0 = 0 ->
         detectEndian c h = Some c1 ->
         let size := read32 (bigEndian c1) h 20 in
         (~ validBlockSize size (u8 h 1) ->
          exists r' lg,
            res = (Returns ERROR_BAD_DATA, c1, r', lg ++ [LogError 40005])
            /\ blockSize r' = 0)
         /\ (validBlockSize size (u8 h 1) ->
             size * 2 <= actualRead -> redoCopyPathEmpty c1 = true ->
             exists r' lg,
               res = (Returns OK, c1, r', lg) /\ blockSize r' = size)).
Proof.
  intros res. subst res. split.
  - intros c' r' lg. unfold reloadHeaderRead.
    destruct (softShutdown c); [discriminate |].
    destruct (redoRead 0 _) as [actualRead data].
    destruct (actualRead <? MIN_BLOCK_SIZE); [discriminate |].
    cbn [headerBuffer set_headerBuffer].
    destruct (negb (u8 _ 0 =? 0)); [discriminate |].
    destruct (detectEndian c _) as [c1 |]; [| discriminate].
    cbn [blockSize set_blockSize headerBuffer].
    destruct (blockSizeOK _ _) eqn:Hok; cbn [negb]; [| discriminate].
    apply blockSizeOK_valid in Hok.
    destruct (actualRead <? _); [discriminate |].
    destruct (negb (redoCopyPathEmpty c1)).
    + intros H. apply copyHeader_state in H. destruct H as (-> & Hb & Hh).
      rewrite Hb, Hh. cbn [blockSize set_blockSize headerBuffer]. auto.
    + intros H. inversion H; subst. cbn [blockSize set_blockSize headerBuffer].
      auto.
  - intros actualRead data c1 Hsoft Hread Hmin h Hh0 Hend size.
    unfold reloadHeaderRead. rewrite Hsoft.
    fold (headerReadSize r). rewrite Hread.
    replace (actualRead <? MIN_BLOCK_SIZE) with false
      by (symmetry; apply Z.ltb_ge; lia).
    cbn [headerBuffer set_headerBuffer]. fold h. rewrite Hh0.
    cbn [Z.eqb negb]. rewrite Hend.
    cbn [blockSize set_blockSize headerBuffer]. fold size. split.
    + intros Hbad. apply blockSizeOK_invalid in Hbad. rewrite Hbad.
      cbn [negb]. eexists. eexists. split; reflexivity.
    + intros Hgood Hlen Hcopy. apply blockSizeOK_valid in Hgood.
      rewrite Hgood. cbn [negb].
      replace (actualRead <? size * 2) with false
        by (symmetry; apply Z.ltb_ge; lia).
      rewrite Hcopy. cbn [negb]. eexists. eexists. split; reflexivity.
Qed.

End HeaderRead.

Section Reload.

Import Reader ReaderSpec.

Variable hostBig : bool.
Variable MIN_BLOCK_SIZE ZERO_BLK : Z.
Variable readScn : bool -> list byte -> Z -> Scn.t.
Variable redoRead : Z -> Z -> Z * list byte.
Variable openCopy : Seq.t -> Z.
Variable pwrite : Z -> list byte -> Z -> Z -> Z.

Lemma updateScn_no_sleep (c : Ctx) (r : t) (lg : list Event) :
  sleeps (snd (updateScn c r lg)) = sleeps lg.
Proof.
  clear. unfold updateScn.
  repeat match goal with
         | |- context [if ?b then _ else _] => destruct b
         end; cbn [snd]; rewrite ?sleeps_app; cbn [sleeps]; lia.
Qed.

(** What [reloadHeader] hands to its first check of block 1 agrees with
    what [reloadHeaderRead] left in everything the check reads. *)
Lemma readHeaderFields_check (c : Ctx) (r : t) (v size : Z) :
  let r1 := readHeaderFields readScn c (set_compatVsn v r) in
  (blockSize r1 = blockSize r /\ sequence r1 = sequence r
   /\ status r1 = status r /\ group r1 = group r
   /\ headerBuffer r1 = headerBuffer r)
  /\ (blockSize (set_fileSize size r1) = blockSize r
      /\ sequence (set_fileSize size r1) = sequence r
      /\ status (set_fileSize size r1) = status r
      /\ group (set_fileSize size r1) = group r
      /\ headerBuffer (set_fileSize size r1) = headerBuffer r).
Proof. destruct r. cbn. repeat split; reflexivity. Qed.

(** C8: [reloadHeader] always returns, after at most 19 sleeps of the CRC
    retry loop; and when the header was read, its version accepted, and the
    first check of block 1 fails on the checksum, then all 20 checks fail,
    the loop sleeps 19 times, and [reloadHeader] returns ERROR_BAD_DATA. *)
Theorem reloadHeader_crc_retry (c : Ctx) (r : t) :
  let read := reloadHeaderRead MIN_BLOCK_SIZE redoRead openCopy pwrite c r in
  (exists res c' r' lg',
      reloadHeader hostBig MIN_BLOCK_SIZE ZERO_BLK readScn redoRead openCopy
        pwrite (Z.to_nat BAD_CDC_MAX_CNT) c r = Some (res, c', r', lg')
      /\ (sleeps lg' <= sleeps (snd read) + 19)%nat)
  /\ (forall c1 r1 lg1,
         read = (Returns OK, c1, r1, lg1) ->
         let hb := advance (headerBuffer r1) (blockSize r1) in
         let vsn := read32 (bigEndian c1) hb 20 in
         vsn <> 0 ->
         versionSupported vsn = true ->
         version c1 = 0 \/ version c1 = vsn ->
         fst (fst (checkBlockHeader hostBig c1 r1 hb 1 false)) = ERROR_CRC ->
         exists c' r' lg',
           reloadHeader hostBig MIN_BLOCK_SIZE ZERO_BLK readScn redoRead
             openCopy pwrite (Z.to_nat BAD_CDC_MAX_CNT) c r
           = Some (Returns ERROR_BAD_DATA, c', r',
                   lg' ++ repeat (Usleep (redoReadSleepUs c1)) 19)
           /\ sleeps lg' = sleeps lg1).
Proof.
  cbv zeta. split.
  - unfold reloadHeader.
    destruct (reloadHeaderRead _ _ _ _ c r) as [[[res c1] r1] lg1].
    cbn [snd].
    assert (Hexit : forall (o : outcome REDO_CODE) (cx : Ctx) (rx : t)
                           (lgx : list Event),
               (sleeps lgx <= sleeps lg1 + 19)%nat ->
               exists res' c' r' lg',
                 Some (o, cx, rx, lgx) = Some (res', c', r', lg')
                 /\ (sleeps lg' <= sleeps lg1 + 19)%nat).
    { intros o cx rx lgx H. exists o, cx, rx, lgx. auto. }
    destruct res as [code | e]; [| apply Hexit; lia].
    destruct code; try (apply Hexit; lia).
    cbn [compatVsn set_compatVsn].
    match goal with |- context [if ?b then _ else _] => destruct b end;
      [apply Hexit; lia |].
    match goal with |- context [if ?b then _ else _] => destruct b end;
      [apply Hexit; rewrite sleeps_app; cbn [sleeps]; lia |].
    match goal with
    | |- context [let '(_, _) := ?x in _] =>
      assert (Hl2 : sleeps (snd x) = sleeps lg1)
        by (match goal with
            | |- context [if ?b then _ else _] => destruct b
            end; cbn [snd]; rewrite ?sleeps_app; cbn [sleeps]; lia);
      destruct x as [r2 lg2]
    end.
    cbn [snd] in Hl2.
    match goal with
    | |- context [let '(_, _) := ?x in _] =>
      assert (Hl3 : sleeps (snd x) = sleeps lg1)
        by (match goal with
            | |- context [if ?b then _ else _] => destruct b
            end; cbn [snd]; rewrite ?sleeps_app; cbn [sleeps]; lia);
      destruct x as [c2 lg3]
    end.
    cbn [snd] in Hl3.
    match goal with |- context [if ?b then _ else _] => destruct b end;
      [apply Hexit; rewrite sleeps_app; cbn [sleeps]; lia |].
    match goal with
    | |- context [checkBlockHeader ?a ?b ?c ?d ?e ?f] =>
      pose proof (checkBlockHeader_no_sleep a b c d e f) as Hl4;
      destruct (checkBlockHeader a b c d e f) as [[ret0 r3] lg4]
    end.
    cbn [snd] in Hl4.
    destruct (crcRetryLoop_bounded hostBig c2 (Z.to_nat BAD_CDC_MAX_CNT) r3
                ret0 0 (lg3 ++ lg4))
      as (exit & r' & lg' & Hrun & Hsl);
      [unfold BAD_CDC_MAX_CNT; lia | unfold BAD_CDC_MAX_CNT; lia |].
    rewrite sleeps_app in Hsl. unfold BAD_CDC_MAX_CNT in Hsl.
    rewrite Hrun. destruct exit as [code | ret1]; [apply Hexit; lia |].
    destruct (negb (REDO_CODE_beq ret1 OK)); [apply Hexit; lia |].
    pose proof (updateScn_no_sleep c2 r' lg') as Hu.
    destruct (updateScn c2 r' lg') as [[[o cx] rx] lgx]. cbn [snd] in Hu.
    apply Hexit. lia.
  - intros c1 r1 lg1 Hread Hvsn Hsup Hver Hcrc.
    unfold reloadHeader. rewrite Hread.
    cbn [compatVsn set_compatVsn].
    set (hb := advance (headerBuffer r1) (blockSize r1)) in *.
    set (vsn := read32 (bigEndian c1) hb 20) in *.
    replace (advance (headerBuffer (set_compatVsn vsn r1))
               (blockSize (set_compatVsn vsn r1))) with hb
      by (destruct r1; reflexivity).
    replace (vsn =? 0) with false by (symmetry; apply Z.eqb_neq; exact Hvsn).
    rewrite Hsup. cbn [negb].
    destruct (readHeaderFields_check c1 r1 vsn
                (numBlocksHeader
                   (readHeaderFields readScn c1 (set_compatVsn vsn r1))
                 * blockSize
                     (readHeaderFields readScn c1 (set_compatVsn vsn r1))))
      as [Hplain Hsized].
    cbv zeta in Hplain, Hsized.
    match goal with
    | |- context [let '(_, _) := ?x in _] =>
      assert (Hr2 : (blockSize (fst x) = blockSize r1
                     /\ sequence (fst x) = sequence r1
                     /\ status (fst x) = status r1
                     /\ group (fst x) = group r1
                     /\ headerBuffer (fst x) = headerBuffer r1)
                    /\ sleeps (snd x) = sleeps lg1)
        by (match goal with
            | |- context [if ?b then _ else _] => destruct b
            end; cbn [fst snd]; rewrite ?sleeps_app; cbn [sleeps];
            (split; [assumption | lia]));
      destruct x as [r2 lg2]
    end.
    cbn [fst snd] in Hr2.
    destruct Hr2 as [(Hbs & Hseq & Hst & Hgr & Hhb) Hl2].
    match goal with
    | |- context [let '(_, _) := ?x in _] =>
      assert (Hc2 : (bigEndian (fst x) = bigEndian c1
                     /\ disableChecksBlockSum (fst x)
                        = disableChecksBlockSum c1
                     /\ redoReadSleepUs (fst x) = redoReadSleepUs c1
                     /\ version (fst x) = vsn)
                    /\ sleeps (snd x) = sleeps lg1)
        by (destruct (Z.eqb_spec (version c1) 0) as [E0 | N0];
            cbn [fst snd]; rewrite ?sleeps_app; cbn [sleeps];
            (split; [repeat split; try reflexivity;
                     destruct Hver; congruence | lia]));
      destruct x as [c2 lg3]
    end.
    cbn [fst snd] in Hc2.
    destruct Hc2 as [(Hbe & Hdc & Hus & Hv2) Hl3].
    rewrite Hv2, Z.eqb_refl. cbn [negb].
    pose proof (checkBlockHeader_code_ext hostBig c1 c2 r1 r2 hb 1 false false
                  Hbe Hdc Hbs Hseq Hst Hgr) as Hcode.
    rewrite Hcrc in Hcode.
    pose proof (checkBlockHeader_fields hostBig c2 r2 hb 1 false) as Hf.
    destruct (checkBlockHeader hostBig c2 r2 hb 1 false)
      as [[ret0 r3] lg4] eqn:Hcheck.
    cbn [fst snd] in Hcode, Hf. subst ret0.
    destruct Hf as (_ & _ & Hbs3 & Hhb3 & _).
    apply checkBlockHeader_crc_stable in Hcheck.
    destruct Hcheck as [-> Hstable].
    assert (Ehb : hb = advance (headerBuffer r3) (blockSize r3))
      by (unfold hb; congruence).
    rewrite Ehb in Hstable.
    rewrite (crcRetryLoop_persistent hostBig c2 r3 _ Hstable 0 (lg3 ++ []));
      [| reflexivity | unfold BAD_CDC_MAX_CNT; lia].
    exists c2, r3, (lg3 ++ []). rewrite Hus.
    split; [reflexivity |]. rewrite app_nil_r. exact Hl3.
Qed.

End Reload.

Section Read1.

Import Reader ReaderSpec.

Variable hostBig : bool.
Variable MIN_BLOCK_SIZE MEMORY_CHUNK_SIZE ZERO_BLK : Z.
Variable readScn : bool -> list byte -> Z -> Scn.t.
Variable redoRead : Z -> Z -> Z * list byte.
Variable openCopy : Seq.t -> Z.
Variable pwrite : Z -> list byte -> Z -> Z -> Z.
Variable getTimeUt : Z.


End Read1.

(** ** The LWN heap of the parser *)

Section HeapFacts.

Import Parser ParserSpec.

Lemma store_same (a : members) (i : nat) (m : LwnMember) : store a i m i = m.
Proof. unfold store. now rewrite Nat.eqb_refl. Qed.

Lemma store_other (a : members) (i j : nat) (m : LwnMember) :
  j <> i -> store a i m j = a j.
Proof.
  intros H. unfold store. destruct (Nat.eqb_spec j i); [contradiction |].
  reflexivity.
Qed.

Lemma LwnMember_lt_iff (x y : LwnMember) :
  LwnMember_lt x y = true <-> pageOffset x < pageOffset y.
Proof. unfold LwnMember_lt. apply Z.ltb_lt. Qed.

Lemma LwnMember_lt_false (x y : LwnMember) :
  LwnMember_lt x y = false <-> byPageOffset y x.
Proof. unfold LwnMember_lt, byPageOffset. apply Z.ltb_ge. Qed.

Lemma byPageOffset_trans (x y z : LwnMember) :
  byPageOffset x y -> byPageOffset y z -> byPageOffset x z.
Proof. unfold byPageOffset. lia. Qed.

Lemma transpose_involutive (i j k : nat) :
  transpose i j (transpose i j k) = k.
Proof.
  unfold transpose.
  destruct (Nat.eqb_spec k i) as [-> | Hki].
  - rewrite Nat.eqb_refl. destruct (Nat.eqb_spec j i); congruence.
  - destruct (Nat.eqb_spec k j) as [-> | Hkj].
    + now rewrite Nat.eqb_refl.
    + destruct (Nat.eqb_spec k i); [contradiction |].
      destruct (Nat.eqb_spec k j); [contradiction | reflexivity].
Qed.

Lemma transpose_range (n i j k : nat) :
  (1 <= i <= n)%nat -> (1 <= j <= n)%nat -> (1 <= k <= n)%nat ->
  (1 <= transpose i j k <= n)%nat.
Proof.
  intros Hi Hj Hk. unfold transpose.
  destruct (Nat.eqb_spec k i); [lia |]. destruct (Nat.eqb_spec k j); lia.
Qed.

Lemma transpose_seq (n i j : nat) :
  (1 <= i <= n)%nat -> (1 <= j <= n)%nat ->
  Permutation (map (transpose i j) (seq 1 n)) (seq 1 n).
Proof.
  intros Hi Hj. apply NoDup_Permutation.
  - apply Finite.Injective_map_NoDup; [| apply seq_NoDup].
    intros x y Hxy.
    rewrite <- (transpose_involutive i j x), <- (transpose_involutive i j y).
    now rewrite Hxy.
  - apply seq_NoDup.
  - intros x. rewrite in_map_iff. split.
    + intros (k & <- & Hk). apply in_seq in Hk. apply in_seq.
      pose proof (transpose_range n i j k Hi Hj). lia.
    + intros Hx. apply in_seq in Hx. exists (transpose i j x). split.
      * apply transpose_involutive.
      * apply in_seq. pose proof (transpose_range n i j x Hi Hj). lia.
Qed.

Lemma contents_transposed (a b : members) (n i j : nat) :
  (1 <= i <= n)%nat -> (1 <= j <= n)%nat ->
  (forall k, (1 <= k <= n)%nat -> b k = a (transpose i j k)) ->
  Permutation (contents b n) (contents a n).
Proof.
  intros Hi Hj Hb. unfold contents.
  rewrite (map_ext_in b (fun k => a (transpose i j k))).
  - rewrite <- (map_map (transpose i j) a).
    apply Permutation_map, transpose_seq; assumption.
  - intros k Hk. apply in_seq in Hk. apply Hb. lia.
Qed.

Lemma contents_ext (a b : members) (n : nat) :
  (forall k, (1 <= k <= n)%nat -> b k = a k) -> contents b n = contents a n.
Proof.
  intros H. unfold contents. apply map_ext_in.
  intros k Hk. apply in_seq in Hk. apply H. lia.
Qed.

Lemma contents_S (a : members) (n : nat) :
  contents a (S n) = contents a n ++ [a (S n)].
Proof. unfold contents. rewrite seq_S, map_app. reflexivity. Qed.

Lemma in_contents (a : members) (n : nat) (m : LwnMember) :
  In m (contents a n) <-> exists i, (1 <= i <= n)%nat /\ a i = m.
Proof.
  unfold contents. rewrite in_map_iff. split.
  - intros (i & E & Hi). apply in_seq in Hi. exists i. split; [lia | exact E].
  - intros (i & Hi & E). exists i. split; [exact E | apply in_seq; lia].
Qed.

Lemma heap_root_least (a : members) (n : nat) :
  heapOK a n -> forall i, (1 <= i <= n)%nat -> byPageOffset (a 1%nat) (a i).
Proof.
  intros Hh i. induction i as [i IH] using (well_founded_induction lt_wf).
  intros Hi. destruct (Nat.eq_dec i 1) as [-> | Hne].
  - unfold byPageOffset. lia.
  - apply byPageOffset_trans with (a (i / 2)%nat).
    + apply IH; lia.
    + apply Hh. lia.
Qed.

Lemma upInv_start (a : members) (n : nat) (x : LwnMember) :
  heapOK a n -> upInv a (S n) (S n) x.
Proof.
  intros Hh. split; [lia | split].
  - intros i Hi Hne. rewrite !store_other by lia. apply Hh. lia.
  - intros i Hi Hhalf _. lia.
Qed.

Lemma upInv_step (a : members) (n pos : nat) (x : LwnMember) :
  upInv a n pos x -> (1 < pos)%nat ->
  pageOffset x < pageOffset (a (pos / 2)%nat) ->
  upInv (store a pos (a (pos / 2)%nat)) n (pos / 2)%nat x.
Proof.
  intros (Hpos & Hedge & Hgrand) Hgt Hlt.
  remember (pos / 2)%nat as p eqn:Hpdef.
  assert (Hp : (1 <= p < pos)%nat) by lia.
  split; [lia | split].
  - intros i Hi Hne. rewrite (store_other _ p i) by exact Hne.
    destruct (Nat.eq_dec i pos) as [-> | Hipos].
    + rewrite <- Hpdef, !store_same. unfold byPageOffset. lia.
    + rewrite (store_other a pos i) by exact Hipos.
      specialize (Hedge i Hi Hipos).
      rewrite (store_other a pos i) in Hedge by exact Hipos.
      destruct (Nat.eq_dec (i / 2)%nat p) as [Ep | Np].
      * rewrite Ep, store_same.
        rewrite Ep, (store_other a pos p) in Hedge by lia.
        unfold byPageOffset in *. lia.
      * rewrite (store_other _ p (i / 2)%nat) by exact Np.
        destruct (Nat.eq_dec (i / 2)%nat pos) as [Epos | Npos].
        -- rewrite Epos, store_same.
           apply Hgrand; [exact Hi | exact Epos | lia].
        -- rewrite (store_other a pos (i / 2)%nat) by exact Npos.
           rewrite (store_other a pos (i / 2)%nat) in Hedge by exact Npos.
           exact Hedge.
  - intros i Hi Hhalf Hp2.
    rewrite (store_other a pos (p / 2)%nat) by lia.
    assert (Hpp : byPageOffset (a (p / 2)%nat) (a p)).
    { assert (Hpn : p <> pos) by lia.
      assert (Hpr : (2 <= p <= n)%nat) by lia.
      specialize (Hedge p Hpr Hpn).
      rewrite (store_other a pos p), (store_other a pos (p / 2)%nat) in Hedge
        by lia.
      exact Hedge. }
    destruct (Nat.eq_dec i pos) as [-> | Hipos].
    + rewrite store_same. exact Hpp.
    + rewrite (store_other a pos i) by exact Hipos.
      apply byPageOffset_trans with (a p); [exact Hpp |].
      specialize (Hedge i Hi Hipos). rewrite Hhalf in Hedge.
      rewrite (store_other a pos p), (store_other a pos i) in Hedge by lia.
      exact Hedge.
Qed.

Lemma upInv_exit (a : members) (n pos : nat) (x : LwnMember) :
  upInv a n pos x ->
  (1 <? pos)%nat && LwnMember_lt x (a (pos / 2)%nat) = false ->
  heapOK (store a pos x) n.
Proof.
  intros (Hpos & Hedge & _) Hcond i Hi.
  destruct (Nat.eq_dec i pos) as [-> | Hne]; [| apply Hedge; assumption].
  rewrite store_same, store_other by lia.
  apply andb_false_iff in Hcond. destruct Hcond as [Hc | Hc].
  - apply Nat.ltb_ge in Hc. lia.
  - apply LwnMember_lt_false. exact Hc.
Qed.

Lemma upInv_swap (a : members) (n pos : nat) (x : LwnMember) :
  (1 <= pos <= n)%nat -> (1 < pos)%nat ->
  Permutation
    (contents (store (store a pos (a (pos / 2)%nat)) (pos / 2)%nat x) n)
    (contents (store a pos x) n).
Proof.
  intros Hpos Hgt.
  apply (contents_transposed _ _ n pos (pos / 2)%nat); [lia | lia |].
  intros k Hk. unfold transpose, store.
  destruct (Nat.eqb_spec k (pos / 2)%nat) as [-> | Hk2].
  - destruct (Nat.eqb_spec (pos / 2)%nat pos); [lia |].
    now rewrite Nat.eqb_refl.
  - destruct (Nat.eqb_spec k pos) as [-> | Hkp].
    + destruct (Nat.eqb_spec (pos / 2)%nat pos); [lia | reflexivity].
    + destruct (Nat.eqb_spec k pos); [contradiction | reflexivity].
Qed.

Lemma siftUp_spec (x : LwnMember) (n fuel : nat) :
  forall (a : members) (pos : nat),
    (pos <= fuel)%nat -> upInv a n pos x ->
    exists a' pos',
      siftUp fuel a x pos = Some (a', pos')
      /\ heapOK (store a' pos' x) n
      /\ Permutation (contents (store a' pos' x) n)
                     (contents (store a pos x) n).
Proof.
  induction fuel as [| fuel IH]; intros a pos Hfuel Hinv.
  - destruct Hinv as (Hpos & _). lia.
  - cbn [siftUp].
    destruct ((1 <? pos)%nat && LwnMember_lt x (a (pos / 2)%nat)) eqn:Hcond.
    + apply andb_true_iff in Hcond. destruct Hcond as [Hgt Hlt].
      apply Nat.ltb_lt in Hgt. apply LwnMember_lt_iff in Hlt.
      destruct (IH (store a pos (a (pos / 2)%nat)) (pos / 2)%nat)
        as (a' & pos' & Hrun & Hheap & Hperm).
      * lia.
      * apply upInv_step; assumption.
      * exists a', pos'. split; [exact Hrun | split; [exact Hheap |]].
        eapply Permutation_trans; [exact Hperm |].
        apply upInv_swap; [apply Hinv | exact Hgt].
    + exists a, pos. split; [reflexivity | split].
      * eapply upInv_exit; eassumption.
      * apply Permutation_refl.
Qed.

Lemma lwnPush_spec (a : members) (n : nat) (x : LwnMember) :
  heapOK a n -> Z.of_nat (S n) < MAX_RECORDS_IN_LWN ->
  exists a',
    lwnPush a n x = Some (Returns (a', S n))
    /\ heapOK a' (S n)
    /\ Permutation (contents a' (S n)) (contents a n ++ [x]).
Proof.
  intros Hh Hmax. unfold lwnPush.
  replace (MAX_RECORDS_IN_LWN <=? Z.of_nat (S n)) with false
    by (symmetry; apply Z.leb_gt; exact Hmax).
  destruct (siftUp_spec x (S n) (S n) a (S n) (le_n _) (upInv_start a n x Hh))
    as (a' & pos' & Hrun & Hheap & Hperm).
  rewrite Hrun. exists (store a' pos' x).
  split; [reflexivity | split; [exact Hheap |]].
  eapply Permutation_trans; [exact Hperm |].
  rewrite contents_S, store_same.
  rewrite (contents_ext a (store a (S n) x) n); [apply Permutation_refl |].
  intros k Hk. apply store_other. lia.
Qed.

Lemma pushAll_spec (ms : list LwnMember) :
  forall (a : members) (n : nat),
    heapOK a n ->
    Z.of_nat (n + length ms) < MAX_RECORDS_IN_LWN ->
    exists a',
      pushAll a n ms = Some (Returns (a', (n + length ms)%nat))
      /\ heapOK a' (n + length ms)
      /\ Permutation (contents a' (n + length ms)) (contents a n ++ ms).
Proof.
  induction ms as [| m ms IH]; intros a n Hh Hmax.
  - exists a. cbn [pushAll length]. rewrite Nat.add_0_r, app_nil_r.
    split; [reflexivity | split; [exact Hh | apply Permutation_refl]].
  - cbn [length] in *.
    destruct (lwnPush_spec a n m Hh) as (a1 & Hpush & Hh1 & Hp1); [lia |].
    destruct (IH a1 (S n) Hh1) as (a' & Hrun & Hh' & Hp'); [lia |].
    exists a'. cbn [pushAll]. rewrite Hpush.
    replace (n + S (length ms))%nat with (S n + length ms)%nat by lia.
    split; [exact Hrun | split; [exact Hh' |]].
    eapply Permutation_trans; [exact Hp' |].
    replace (m :: ms) with ([m] ++ ms) by reflexivity.
    rewrite app_assoc. apply Permutation_app_tail. exact Hp1.
Qed.

Lemma downInv_start (a : members) (n : nat) :
  heapOK a n -> (2 <= n)%nat -> downInv a n 1.
Proof.
  intros Hh Hn. split; [lia | split].
  - intros i Hi Hhalf.
    rewrite (store_other a 1 (i / 2)%nat), (store_other a 1 i) by lia.
    apply Hh. lia.
  - intros i Hi Hhalf Hp. lia.
Qed.

(** Moving the hole from [pos] to a child [c] that is below the waiting
    member and not above its sibling. *)
Lemma downInv_step (a : members) (n pos c : nat) :
  downInv a n pos ->
  (c / 2)%nat = pos -> (c < n)%nat ->
  pageOffset (a c) < pageOffset (a n) ->
  (forall s, (2 <= s < n)%nat -> (s / 2)%nat = pos -> byPageOffset (a c) (a s)) ->
  downInv (store a pos (a c)) n c.
Proof.
  intros (Hpos & Hedge & Hgrand) Hhalf Hcn Hlt Hsib.
  assert (Hc : (2 <= c)%nat /\ (pos < c)%nat) by lia.
  unfold downInv. rewrite (store_other a pos n) by lia.
  split; [lia | split].
  - intros i Hi Hne.
    destruct (Nat.eq_dec i c) as [-> | Hic].
    + rewrite Hhalf, store_same, (store_other _ c pos), store_same by lia.
      unfold byPageOffset. lia.
    + rewrite (store_other _ c i) by exact Hic.
      rewrite (store_other _ c (i / 2)%nat) by exact Hne.
      destruct (Nat.eq_dec i pos) as [-> | Hipos].
      * rewrite store_same, (store_other a pos (pos / 2)%nat) by lia.
        apply Hgrand; lia.
      * rewrite (store_other a pos i) by exact Hipos.
        destruct (Nat.eq_dec (i / 2)%nat pos) as [Epos | Npos].
        -- rewrite Epos, store_same. apply Hsib; assumption.
        -- rewrite (store_other a pos (i / 2)%nat) by exact Npos.
           specialize (Hedge i Hi Npos).
           rewrite (store_other a pos (i / 2)%nat), (store_other a pos i)
             in Hedge by assumption.
           exact Hedge.
  - intros i Hi Hic _.
    rewrite Hhalf, store_same, (store_other a pos i) by lia.
    assert (Hn : (i / 2)%nat <> pos) by lia.
    specialize (Hedge i Hi Hn).
    rewrite Hic, (store_other a pos c), (store_other a pos i) in Hedge by lia.
    exact Hedge.
Qed.

Lemma downInv_swap (a : members) (n pos c : nat) :
  (1 <= pos < n)%nat -> (1 <= c < n)%nat -> pos <> c ->
  Permutation
    (contents (store (store a pos (a c)) c (a n)) (n - 1))
    (contents (store a pos (a n)) (n - 1)).
Proof.
  intros Hpos Hc Hne.
  apply (contents_transposed _ _ (n - 1) pos c); [lia | lia |].
  intros k Hk. unfold transpose, store.
  destruct (Nat.eqb_spec k c) as [-> | Hkc].
  - destruct (Nat.eqb_spec c pos); [lia |]. now rewrite Nat.eqb_refl.
  - destruct (Nat.eqb_spec k pos) as [-> | Hkp].
    + destruct (Nat.eqb_spec c pos); [lia | reflexivity].
    + destruct (Nat.eqb_spec k pos); [contradiction | reflexivity].
Qed.

Lemma downInv_exit (a : members) (n pos : nat) :
  downInv a n pos ->
  (pos * 2 <? n)%nat && LwnMember_lt (a (pos * 2)%nat) (a n) = false ->
  (pos * 2 + 1 <? n)%nat && LwnMember_lt (a (pos * 2 + 1)%nat) (a n) = false ->
  heapOK (store a pos (a n)) (n - 1).
Proof.
  intros (Hpos & Hedge & _) Hleft Hright i Hi.
  destruct (Nat.eq_dec (i / 2)%nat pos) as [Epos | Npos];
    [| apply Hedge; [lia | exact Npos]].
  rewrite Epos, store_same, (store_other a pos i) by lia.
  assert (Hcase : i = (pos * 2)%nat \/ i = (pos * 2 + 1)%nat) by lia.
  destruct Hcase as [-> | ->].
  - apply andb_false_iff in Hleft. destruct Hleft as [H | H].
    + apply Nat.ltb_ge in H. lia.
    + apply LwnMember_lt_false. exact H.
  - apply andb_false_iff in Hright. destruct Hright as [H | H].
    + apply Nat.ltb_ge in H. lia.
    + apply LwnMember_lt_false. exact H.
Qed.

Lemma siftDown_spec (n fuel : nat) :
  forall (a : members) (pos : nat),
    (n <= fuel + pos)%nat -> downInv a n pos ->
    exists a' pos',
      siftDown fuel a n pos = Some (a', pos')
      /\ a' n = a n
      /\ heapOK (store a' pos' (a n)) (n - 1)
      /\ Permutation (contents (store a' pos' (a n)) (n - 1))
                     (contents (store a pos (a n)) (n - 1)).
Proof.
  induction fuel as [| fuel IH]; intros a pos Hfuel Hinv.
  - destruct Hinv as (Hpos & _). lia.
  - assert (Hpos : (1 <= pos < n)%nat) by apply Hinv.
    assert (Hmove : forall c,
               (c / 2)%nat = pos -> (c < n)%nat ->
               pageOffset (a c) < pageOffset (a n) ->
               (forall s, (2 <= s < n)%nat -> (s / 2)%nat = pos ->
                          byPageOffset (a c) (a s)) ->
               exists a' pos',
                 siftDown fuel (store a pos (a c)) n c = Some (a', pos')
                 /\ a' n = a n
                 /\ heapOK (store a' pos' (a n)) (n - 1)
                 /\ Permutation (contents (store a' pos' (a n)) (n - 1))
                                (contents (store a pos (a n)) (n - 1))).
    { intros c Hhalf Hcn Hlt Hsib.
      destruct (IH (store a pos (a c)) c) as (a' & pos' & Hrun & Hlast & Hheap
                                              & Hperm).
      - lia.
      - apply downInv_step; assumption.
      - rewrite (store_other a pos n) in Hlast, Hheap, Hperm by lia.
        exists a', pos'.
        split; [exact Hrun | split; [exact Hlast | split; [exact Hheap |]]].
        eapply Permutation_trans; [exact Hperm |].
        apply downInv_swap; lia. }
    cbn [siftDown].
    destruct ((pos * 2 <? n)%nat && LwnMember_lt (a (pos * 2)%nat) (a n))
      eqn:Hleft.
    + apply andb_true_iff in Hleft. destruct Hleft as [Hl1 Hl2].
      apply Nat.ltb_lt in Hl1. apply LwnMember_lt_iff in Hl2.
      destruct ((pos * 2 + 1 <? n)%nat
                && LwnMember_lt (a (pos * 2 + 1)%nat) (a (pos * 2)%nat))
        eqn:Hright.
      * apply andb_true_iff in Hright. destruct Hright as [Hr1 Hr2].
        apply Nat.ltb_lt in Hr1. apply LwnMember_lt_iff in Hr2.
        apply Hmove; [lia | lia | lia |].
        intros s Hs Hhalf.
        assert (Hcase : s = (pos * 2)%nat \/ s = (pos * 2 + 1)%nat) by lia.
        unfold byPageOffset. destruct Hcase as [-> | ->]; lia.
      * apply Hmove; [lia | lia | lia |].
        intros s Hs Hhalf.
        assert (Hcase : s = (pos * 2)%nat \/ s = (pos * 2 + 1)%nat) by lia.
        destruct Hcase as [-> | ->]; [unfold byPageOffset; lia |].
        apply andb_false_iff in Hright. destruct Hright as [H | H].
        -- apply Nat.ltb_ge in H. lia.
        -- apply LwnMember_lt_false. exact H.
    + destruct ((pos * 2 + 1 <? n)%nat
                && LwnMember_lt (a (pos * 2 + 1)%nat) (a n)) eqn:Hright.
      * apply andb_true_iff in Hright. destruct Hright as [Hr1 Hr2].
        apply Nat.ltb_lt in Hr1. apply LwnMember_lt_iff in Hr2.
        apply Hmove; [lia | lia | lia |].
        intros s Hs Hhalf.
        assert (Hcase : s = (pos * 2)%nat \/ s = (pos * 2 + 1)%nat) by lia.
        destruct Hcase as [-> | ->]; [| unfold byPageOffset; lia].
        apply andb_false_iff in Hleft. destruct Hleft as [H | H].
        -- apply Nat.ltb_ge in H. lia.
        -- apply LwnMember_lt_false in H. unfold byPageOffset in *. lia.
      * exists a, pos.
        split; [reflexivity | split; [reflexivity | split]].
        -- apply downInv_exit; assumption.
        -- apply Permutation_refl.
Qed.

Lemma pushAll_inv (ms : list LwnMember) :
  forall (a : members) (n : nat) (a' : members) (n' : nat),
    heapOK a n ->
    pushAll a n ms = Some (Returns (a', n')) ->
    n' = (n + length ms)%nat /\ heapOK a' n'
    /\ Permutation (contents a' n') (contents a n ++ ms).
Proof.
  induction ms as [| m ms IH]; intros a n a' n' Hh Hrun.
  - cbn [pushAll] in Hrun. inversion Hrun; subst.
    cbn [length]. rewrite Nat.add_0_r, app_nil_r.
    split; [reflexivity | split; [exact Hh | apply Permutation_refl]].
  - cbn [pushAll] in Hrun.
    destruct (Z.ltb_spec (Z.of_nat (S n)) MAX_RECORDS_IN_LWN) as [Hlt | Hge].
    + destruct (lwnPush_spec a n m Hh Hlt) as (a1 & Hpush & Hh1 & Hp1).
      rewrite Hpush in Hrun.
      destruct (IH a1 (S n) a' n' Hh1 Hrun) as (Hn & Hh' & Hp').
      cbn [length]. split; [lia | split; [exact Hh' |]].
      eapply Permutation_trans; [exact Hp' |].
      replace (m :: ms) with ([m] ++ ms) by reflexivity.
      rewrite app_assoc. apply Permutation_app_tail. exact Hp1.
    + unfold lwnPush in Hrun.
      replace (MAX_RECORDS_IN_LWN <=? Z.of_nat (S n)) with true in Hrun
        by (symmetry; apply Z.leb_le; exact Hge).
      discriminate.
Qed.

Lemma heapOK_empty (a : members) : heapOK a 0.
Proof. intros i Hi. lia. Qed.

Lemma analyzed_app (l1 l2 : list Event) :
  analyzed (l1 ++ l2) = analyzed l1 ++ analyzed l2.
Proof.
  induction l1 as [| e l1 IH]; [reflexivity |].
  destruct e; cbn [app analyzed]; rewrite IH; reflexivity.
Qed.

Lemma contents_tail (a : members) (k : nat) :
  Permutation (contents (store a 1 (a (S (S k)))) (S k))
              (map a (seq 2 (S k))).
Proof.
  unfold contents. cbn [seq map]. rewrite store_same.
  rewrite (map_ext_in (store a 1 (a (S (S k)))) a).
  - change (a 2%nat :: map a (seq 3 k)) with (map a (seq 2 (S k))).
    rewrite seq_S, map_app. cbn [map Nat.add].
    apply Permutation_cons_append.
  - intros i Hi. apply in_seq in Hi. apply store_other. lia.
Qed.

End HeapFacts.

Section Dispatch.

Import Parser ParserSpec.

Variable analyzeLwn : list Event -> LwnMember -> option exn.
Variable env : Env.

Lemma tryAnalyze_spec (tr : list Event) (m : LwnMember) :
  exists ext oe,
    tryAnalyze analyzeLwn env tr m = (tr ++ ext, oe)
    /\ analyzed ext = [m] /\ existsb isCheckpoint ext = false.
Proof.
  unfold tryAnalyze.
  destruct (analyzeLwn (tr ++ [AnalyzeLwn m]) m) as [[code | code | code] |].
  - destruct (ignoreDataErrors env).
    + exists [AnalyzeLwn m; LogError code; LogWarning 60013], None.
      rewrite <- app_assoc. auto.
    + exists [AnalyzeLwn m], (Some (DataException code)). auto.
  - destruct (ignoreDataErrors env).
    + exists [AnalyzeLwn m; LogError code; LogWarning 60013], None.
      rewrite <- app_assoc. auto.
    + exists [AnalyzeLwn m], (Some (RedoLogException code)). auto.
  - exists [AnalyzeLwn m], (Some (RuntimeException code)). auto.
  - exists [AnalyzeLwn m], None. auto.
Qed.

Lemma dispatchLwn_spec (n : nat) :
  forall (a : members) (tr0 : list Event),
    heapOK a n ->
    exists res ext,
      dispatchLwn analyzeLwn env n a tr0 = Some (res, tr0 ++ ext)
      /\ existsb isCheckpoint ext = false
      /\ StronglySorted byPageOffset (analyzed ext)
      /\ Forall (fun m => In m (contents a n)) (analyzed ext)
      /\ (forall a', res = Returns a' ->
                     Permutation (analyzed ext) (contents a n)).
Proof.
  induction n as [| k IH]; intros a tr0 Hh.
  - exists (Returns a), []. cbn [dispatchLwn analyzed existsb].
    rewrite app_nil_r.
    split; [reflexivity | split; [reflexivity | split; [constructor |]]].
    split; [constructor | intros; apply Permutation_refl].
  - cbn [dispatchLwn].
    destruct (tryAnalyze_spec tr0 (a 1%nat)) as (ext1 & oe & Htry & Han & Hck).
    rewrite Htry.
    assert (Hfirst : In (a 1%nat) (contents a (S k)))
      by (apply in_contents; exists 1%nat; split; [lia | reflexivity]).
    destruct oe as [e |].
    { exists (Throws e), ext1. rewrite Han.
      split; [reflexivity | split; [exact Hck | split]].
      - repeat constructor.
      - split; [repeat constructor; exact Hfirst | discriminate]. }
    destruct k as [| k].
    { exists (Returns a), ext1. rewrite Han.
      split; [reflexivity | split; [exact Hck | split]].
      - repeat constructor.
      - split; [repeat constructor; exact Hfirst |].
        intros _ _. apply Permutation_refl. }
    destruct (siftDown_spec (S (S k)) (S (S k)) a 1)
      as (a' & pos' & Hrun & Hlast & Hheap & Hperm);
      [lia | apply downInv_start; [exact Hh | lia] |].
    rewrite Hrun, Hlast.
    replace (S (S k) - 1)%nat with (S k) in Hheap, Hperm by lia.
    destruct (IH (store a' pos' (a (S (S k)))) (tr0 ++ ext1) Hheap)
      as (res & ext2 & Hdisp & Hck2 & Hsort & Hin & Hall).
    assert (Hrest : Permutation (contents (store a' pos' (a (S (S k)))) (S k))
                                (map a (seq 2 (S k))))
      by (eapply Permutation_trans; [exact Hperm | apply contents_tail]).
    assert (Hcont : contents a (S (S k)) = a 1%nat :: map a (seq 2 (S k)))
      by reflexivity.
    exists res, (ext1 ++ ext2). rewrite app_assoc, analyzed_app, Han.
    rewrite existsb_app, Hck, Hck2. cbn [app].
    split; [exact Hdisp | split; [reflexivity | split; [| split]]].
    + constructor; [exact Hsort |].
      eapply Forall_impl; [| exact Hin]. cbn beta. intros m Hm.
      apply (Permutation_in _ Hrest) in Hm. apply in_map_iff in Hm.
      destruct Hm as (i & <- & Hi). apply in_seq in Hi.
      apply (heap_root_least a (S (S k)) Hh). lia.
    + constructor; [exact Hfirst |].
      eapply Forall_impl; [| exact Hin]. cbn beta. intros m Hm.
      rewrite Hcont. right. exact (Permutation_in _ Hrest Hm).
    + intros r' Hr. rewrite Hcont. apply perm_skip.
      eapply Permutation_trans; [exact (Hall r' Hr) | exact Hrest].
Qed.

Lemma tryAnalyze_throws (tr tr' : list Event) (m : LwnMember) (e : exn) :
  tryAnalyze analyzeLwn env tr m = (tr', Some e) ->
  tr' = tr ++ [AnalyzeLwn m]
  /\ analyzeLwn tr' m = Some e
  /\ (ignoreDataErrors env = false \/ exists code, e = RuntimeException code).
Proof.
  unfold tryAnalyze.
  destruct (analyzeLwn (tr ++ [AnalyzeLwn m]) m) as [[code | code | code] |]
    eqn:Ha; [| | | discriminate].
  - destruct (ignoreDataErrors env); [discriminate |].
    intros H. injection H as <- <-. auto.
  - destruct (ignoreDataErrors env); [discriminate |].
    intros H. injection H as <- <-. auto.
  - intros H. injection H as <- <-.
    split; [reflexivity | split; [assumption | right; eauto]].
Qed.

Lemma dispatchLwn_throws_spec (n : nat) :
  forall (a : members) (tr0 tr : list Event) (e : exn),
    dispatchLwn analyzeLwn env n a tr0 = Some (Throws e, tr) ->
    exists tr1 m,
      tr = tr1 ++ [AnalyzeLwn m]
      /\ analyzeLwn tr m = Some e
      /\ (ignoreDataErrors env = false
          \/ exists code, e = RuntimeException code).
Proof.
  induction n as [| n IH]; intros a tr0 tr e H; [discriminate |].
  cbn [dispatchLwn] in H.
  destruct (tryAnalyze analyzeLwn env tr0 (a 1%nat)) as [tr1 [e1 |]] eqn:Ht.
  - injection H as <- <-. apply tryAnalyze_throws in Ht.
    destruct Ht as (-> & Ha & Hor). exists tr0, (a 1%nat). auto.
  - destruct n as [| n']; [discriminate |].
    destruct (siftDown (S (S n')) a (S (S n')) 1) as [[a1 pos] |];
      [| discriminate].
    eapply IH. eassumption.
Qed.

Lemma dispatchLwn_returns (n : nat) (a : members) (tr0 tr : list Event)
    (res : outcome members) :
  (forall tr1 m e, analyzeLwn tr1 m = Some e ->
                   ignoreDataErrors env = true
                   /\ forall code, e <> RuntimeException code) ->
  dispatchLwn analyzeLwn env n a tr0 = Some (res, tr) ->
  exists a', res = Returns a'.
Proof.
  intros Hno Hrun. destruct res as [a' | e]; [eauto |].
  apply dispatchLwn_throws_spec in Hrun.
  destruct Hrun as (tr1 & m & _ & Ha & Hor).
  destruct (Hno _ _ _ Ha) as [Hign Hrt].
  destruct Hor as [Hf | [code ->]]; [congruence |].
  exfalso. apply (Hrt code). reflexivity.
Qed.

(** What the dispatch does: the records reach [analyzeLwn] in ascending
    page-offset order, and when no exception ends the dispatch they are the
    pushed ones. *)
Lemma lwn_dispatch_order (a0 a : members) (n : nat) (ms : list LwnMember) :
  pushAll a0 0 ms = Some (Returns (a, n)) ->
  exists res tr,
    dispatchLwn analyzeLwn env n a [] = Some (res, tr)
    /\ StronglySorted byPageOffset (analyzed tr)
    /\ (forall a', res = Returns a' -> Permutation (analyzed tr) ms).
Proof.
  intros Hpush.
  destruct (pushAll_inv ms a0 0 a n (heapOK_empty a0) Hpush)
    as (_ & Hh & Hperm).
  destruct (dispatchLwn_spec n a [] Hh)
    as (res & ext & Hdisp & _ & Hsort & _ & Hall).
  exists res, ext. split; [exact Hdisp | split; [exact Hsort |]].
  intros a' Hr. eapply Permutation_trans; [exact (Hall a' Hr) | exact Hperm].
Qed.

Lemma sorted_before (R : LwnMember -> LwnMember -> Prop)
    (l1 l2 l3 : list LwnMember) (x y : LwnMember) :
  StronglySorted R (l1 ++ x :: l2 ++ y :: l3) -> R x y.
Proof.
  induction l1 as [| z l1 IH]; cbn [app]; intros H;
    inversion H as [| ? ? Hs Hall]; subst.
  - apply Forall_app in Hall. destruct Hall as [_ Hall].
    inversion Hall; subst. assumption.
  - apply IH. exact Hs.
Qed.

(** C1: the dispatch does not follow the sub-SCN.  Of two records of one
    batch, the one that the order (sub-SCN, page offset) puts first, because
    its sub-SCN is smaller, is never handed to [analyzeLwn] before the other
    when its page offset is the larger one: [LwnMember::operator<] compares
    the page offset only, whatever the block and the sub-SCN. *)
Theorem lwn_dispatch_not_by_subScn (ms order : list LwnMember)
    (x y : LwnMember) :
  dispatchOrder analyzeLwn env ms = Some order ->
  subScn x < subScn y ->
  pageOffset y < pageOffset x ->
  forall l1 l2 l3, order <> l1 ++ x :: l2 ++ y :: l3.
Proof.
  intros Hrun _ Hoff l1 l2 l3 E. unfold dispatchOrder in Hrun.
  destruct (pushAll noMembers 0 ms) as [[[a n] | e] |] eqn:Hpush;
    try discriminate.
  destruct (lwn_dispatch_order noMembers a n ms Hpush)
    as (res & tr & Hdisp & Hsort & _).
  rewrite Hdisp in Hrun. injection Hrun as <-.
  rewrite E in Hsort. apply sorted_before in Hsort.
  unfold byPageOffset in Hsort. lia.
Qed.

End Dispatch.

Section BatchEnd.

Import Parser ParserSpec.

Variable analyzeLwn : list Event -> LwnMember -> option exn.
Variable transactionBufferCheckpoint : Seq.t * FileOffset * Z.
Variable isNewData : Scn.t -> Z -> bool.
Variable toEpoch : Z -> Z.
Variable env : Env.

(** C5: at the end of a batch the records are dispatched first.  When an
    exception leaves the dispatch, it is the one [analyzeLwn] threw on the
    last record handed over, the flags did not absorb it, and no checkpoint
    was written.  When [analyzeLwn] throws nothing that the flags do not
    absorb, the batch end returns: every record of the batch was handed to
    [analyzeLwn] before anything else happened, and then a batch whose SCN
    is above [firstDataScn] calls [processCheckpoint] and
    [metadata->checkpoint] with the transaction buffer's minimum, while any
    other batch only counts a skipped checkpoint; afterwards the batch is
    empty and confirmed up to the current block. *)
Theorem lwnBatchEnd_checkpoint (a0 : members) (ms : list LwnMember) (p : t) :
  currentBlock p = lwnEndBlock p ->
  lwnNumCnt p = lwnNumMax p ->
  pushAll a0 0 ms = Some (Returns (lwnMembers p, lwnRecords p)) ->
  exists res tr,
    lwnBatchEnd analyzeLwn transactionBufferCheckpoint isNewData toEpoch env p
    = Some (res, tr)
    /\ ((forall tr1 m e, analyzeLwn tr1 m = Some e ->
                         ignoreDataErrors env = true
                         /\ forall code, e <> RuntimeException code) ->
        exists p', res = Returns p')
    /\ match res with
       | Throws e =>
         existsb isCheckpoint tr = false
         /\ exists tr1 m,
              tr = tr1 ++ [AnalyzeLwn m]
              /\ In m ms
              /\ analyzeLwn tr m = Some e
              /\ (ignoreDataErrors env = false
                  \/ exists code, e = RuntimeException code)
       | Returns p' =>
         lwnRecords p' = 0%nat
         /\ lwnNumCnt p' = 0
         /\ lwnConfirmedBlock p' = currentBlock p
         /\ exists dispatched after,
           tr = dispatched ++ after
           /\ Permutation (analyzed dispatched) ms
           /\ existsb isCheckpoint dispatched = false
           /\ analyzed after = []
           /\ (Scn.gtb (lwnScn p) (firstDataScn env) = true ->
               exists rest,
                 after
                 = ProcessCheckpoint (lwnScn p) (sequence p)
                     (toEpoch (lwnTimestamp p))
                     (mkFileOffset (currentBlock p) (blockSize env))
                     (switchRedo p)
                   :: MetadataCheckpoint (lwnScn p) (lwnTimestamp p)
                        (sequence p)
                        (mkFileOffset (currentBlock p) (blockSize env))
                        ((((currentBlock p - lwnConfirmedBlock p) mod 2 ^ 32)
                          * blockSize env) mod 2 ^ 64)
                        (fst (fst transactionBufferCheckpoint))
                        (snd (fst transactionBufferCheckpoint))
                        (snd transactionBufferCheckpoint)
                   :: rest)
           /\ (Scn.gtb (lwnScn p) (firstDataScn env) = false ->
               after
               = (if metrics env then [EmitCheckpointsSkip 1] else [])
                 ++ FreeLwn
                 :: (if metrics env
                     then [EmitBytesParsed
                             (((currentBlock p - lwnConfirmedBlock p)
                               * blockSize env) mod 2 ^ 32)]
                     else []))
       end.
Proof.
  intros Hblock Hnum Hpush.
  destruct (pushAll_inv ms a0 0 _ _ (heapOK_empty a0) Hpush)
    as (_ & Hh & Hperm).
  destruct (dispatchLwn_spec analyzeLwn env (lwnRecords p) (lwnMembers p) [] Hh)
    as (res & ext & Hdisp & Hck & _ & Hin & Hall).
  cbn [app] in Hdisp. unfold lwnBatchEnd.
  replace ((currentBlock p =? lwnEndBlock p) && (lwnNumCnt p =? lwnNumMax p))
    with true
    by (symmetry; apply andb_true_iff; split; apply Z.eqb_eq; assumption).
  rewrite Hdisp.
  destruct res as [a' | e].
  2:{ exists (Throws e), ext. split; [reflexivity |].
      split.
      - intros Hno.
        destruct (dispatchLwn_returns analyzeLwn env _ _ _ _ _ Hno Hdisp)
          as [a' E]. discriminate.
      - split; [exact Hck |].
        destruct (dispatchLwn_throws_spec analyzeLwn env _ _ _ _ _ Hdisp)
          as (tr1 & m & E & Ha & Hor).
        exists tr1, m. split; [exact E |]. split; [| split; assumption].
        rewrite E, analyzed_app in Hin. apply Forall_app in Hin.
        destruct Hin as [_ Hm]. cbn in Hm. inversion Hm as [| ? ? Hm1 _]; subst.
        eapply Permutation_in; [exact Hperm | exact Hm1]. }
  unfold emitCheckpoint.
  destruct (Scn.gtb (lwnScn p) (firstDataScn env)) eqn:Hgt.
  - destruct transactionBufferCheckpoint as [[minSequence minFileOffset] minXid].
    destruct ((stopCheckpoints p >? 0) && isNewData (lwnScn p) (lwnIdx env));
      [destruct (stopCheckpoints p - 1 =? 0) |];
      destruct (metrics env);
      (eexists; eexists; split; [reflexivity |];
       split; [intros _; eexists; reflexivity |];
       split; [reflexivity |]; split; [reflexivity |];
       split; [reflexivity |];
       exists ext; eexists; split; [reflexivity |];
       split; [eapply Permutation_trans;
               [exact (Hall a' eq_refl) | exact Hperm] |];
       split; [exact Hck |];
       split; [reflexivity |];
       split; [intros _; eexists; reflexivity | discriminate]).
  - eexists; eexists; split; [reflexivity |].
    split; [intros _; eexists; reflexivity |].
    split; [reflexivity |]. split; [reflexivity |]. split; [reflexivity |].
    exists ext; eexists; split; [reflexivity |].
    split; [eapply Permutation_trans;
            [exact (Hall a' eq_refl) | exact Hperm] |].
    split; [exact Hck |].
    split; [destruct (metrics env); reflexivity |].
    split; [discriminate | intros _; reflexivity].
Qed.

End BatchEnd.

(** ** Swap selection *)

Section SwapFacts.

Import MemoryManager MemoryManagerSpec.

Lemma to_int64_small (x : Z) : 0 <= x < 2 ^ 63 -> to_int64 x = x.
Proof.
  intros H. unfold to_int64. rewrite Z.mod_small by lia.
  destruct (Z.ltb_spec x (2 ^ 63)); lia.
Qed.

Lemma scanSwapChunks_spec (flush : Xid) (l : list (Xid * SwapChunk)) :
  forall xid0 index0 xid index,
    scanSwapChunks flush l xid0 index0 = (xid, index) ->
    (xid, index) = (xid0, index0)
    \/ exists sc,
         In (xid, sc) l /\ index = swappedMax sc + 1
         /\ swappedMax sc < to_int64 (chunkCount sc - 2)
         /\ 2 <= chunkCount sc /\ release sc = false /\ xid <> flush.
Proof.
  induction l as [| [swapXid sc] l IH]; intros xid0 index0 xid index Hscan.
  - cbn [scanSwapChunks] in Hscan. left. congruence.
  - cbn [scanSwapChunks] in Hscan.
    destruct ((flush =? swapXid) || release sc || (chunkCount sc <=? 1))
      eqn:Hskip.
    + destruct (IH _ _ _ _ Hscan) as [E | (sc' & Hin & Hrest)];
        [left; exact E | right].
      exists sc'. split; [right; exact Hin | exact Hrest].
    + apply orb_false_iff in Hskip. destruct Hskip as [Hskip Hcount].
      apply orb_false_iff in Hskip. destruct Hskip as [Hflush Hrel].
      apply Z.eqb_neq in Hflush. apply Z.leb_gt in Hcount.
      destruct (swappedMax sc <? to_int64 (chunkCount sc - 2)) eqn:Hmax.
      * inversion Hscan; subst. right. exists sc.
        apply Z.ltb_lt in Hmax.
        repeat split; try assumption; try lia. left. reflexivity.
      * destruct (IH _ _ _ _ Hscan) as [E | (sc' & Hin & Hrest)];
          [left; exact E | right].
        exists sc'. split; [right; exact Hin | exact Hrest].
Qed.

(** C4, amended: the chunk chosen for a swap is never the last one of the
    victim's chain, it is the chunk after the last one swapped (so index 0,
    the first chunk, when nothing is swapped yet), and a victim with at most
    one chunk is never selected. *)
Theorem getChunkToSwap_candidate (c : Ctx) (xid0 xid : Xid) (index : Z) :
  (forall x sc, In (x, sc) (swapChunks c) -> SwapChunk_wf sc) ->
  getChunkToSwap c xid0 (-1) = (xid, index) ->
  index <> -1 ->
  exists sc,
    In (xid, sc) (swapChunks c)
    /\ index = swappedMax sc + 1
    /\ 0 <= index < chunkCount sc - 1
    /\ 2 <= chunkCount sc
    /\ release sc = false
    /\ xid <> swappedFlushXid c.
Proof.
  intros Hwf Hget Hidx. unfold getChunkToSwap in Hget.
  destruct (nothingToSwap c); [inversion Hget; subst; contradiction |].
  apply scanSwapChunks_spec in Hget.
  destruct Hget as [E | (sc & Hin & Hi & Hmax & Hcount & Hrel & Hflush)];
    [inversion E; subst; contradiction |].
  exists sc. destruct (Hwf _ _ Hin) as [Hlow Hhigh].
  rewrite to_int64_small in Hmax by lia.
  repeat split; try assumption; lia.
Qed.

End SwapFacts.

(** ** The writer's checkpoint state *)

Section WriterBasics.

Import Writer WriterSpec.

Lemma newer_lex (w : t) (msg : BuilderMsg) :
  newer w msg = true
  <-> lexLt (confirmedScn w) (confirmedIdx w) (lwnScn msg) (lwnIdx msg).
Proof.
  unfold newer, lexLt, Scn.gtb, Scn.eqb.
  rewrite orb_true_iff, andb_true_iff, Z.eqb_eq.
  rewrite (Z.gtb_ltb (lwnScn msg)), (Z.gtb_ltb (lwnIdx msg)), !Z.ltb_lt.
  intuition lia.
Qed.

Lemma confirmMessage_marks (now : Z) (w : t) (msg : BuilderMsg) :
  marks (confirmMessage now w msg)
  = if newer w msg
    then (lwnScn msg, lwnIdx msg, lwnScn msg, lwnIdx msg)
    else marks w.
Proof.
  unfold confirmMessage, marks. destruct (newer w msg); reflexivity.
Qed.

Lemma initial_marks (db : list byte) (now : Z) :
  marks (initial db now) = (Scn.none, 0, Scn.none, 0).
Proof. reflexivity. Qed.

End WriterBasics.

Section WriterFacts.

Import Writer WriterSpec.

Variable checkpointIntervalS : Z.
Variable stateWrite : list byte -> Scn.t -> Document -> bool.
Variable disableChecksJsonTags : bool.
Variable jsonTagError : Z.

Lemma writeCheckpoint_marks (now : Z) (md : Metadata) (w : t) (force : bool) :
  let w' := fst (writeCheckpoint checkpointIntervalS stateWrite now md w force) in
  marks w' = marks w
  \/ marks w' = (confirmedScn w, confirmedIdx w, confirmedScn w, confirmedIdx w).
Proof.
  unfold writeCheckpoint, marks.
  repeat match goal with
         | |- context [if ?b then _ else _] => destruct b
         end; cbn; auto.
Qed.

(** C9, amended: [checkpointScn <= confirmedScn], in the unsigned order of
    [Scn] where NONE is the greatest value, is kept by [confirmMessage] and
    [writeCheckpoint], and by [readCheckpoint] when the stored SCN is not
    above [confirmedScn] (as at start, where [confirmedScn] is NONE);
    [confirmedScn] never decreases; [confirmMessage] and [writeCheckpoint]
    never decrease [checkpointScn], while [readCheckpoint] replaces it by the
    stored SCN; [confirmMessage] changes the four fields only for a message
    whose (lwnScn, lwnIdx) is above (confirmedScn, confirmedIdx). *)
Theorem writer_marks_step (op : Op) (md : Metadata) (w : t)
    (tr : list Event) :
  checkpointScn w <= confirmedScn w ->
  (forall doc, op = OpReadCheckpoint (Json doc) ->
               jScn doc <= confirmedScn w) ->
  let w' :=
    snd (fst (step checkpointIntervalS stateWrite disableChecksJsonTags
                jsonTagError op (md, w, tr))) in
  checkpointScn w' <= confirmedScn w'
  /\ confirmedScn w <= confirmedScn w'
  /\ ((forall file, op <> OpReadCheckpoint file) ->
      checkpointScn w <= checkpointScn w')
  /\ (forall file, op = OpReadCheckpoint file ->
      checkpointScn w' = checkpointScn w
      \/ exists doc, file = Json doc /\ checkpointScn w' = jScn doc)
  /\ (forall now msg, op = OpConfirmMessage now msg ->
      (marks w' <> marks w ->
       lexLt (confirmedScn w) (confirmedIdx w) (lwnScn msg) (lwnIdx msg))).
Proof.
  intros Hinv Hread. destruct op as [file | now msg | now force | now];
    cbn [step].
  - (* readCheckpoint *)
    assert (Hcase :
              let w' := snd (fst (match readCheckpoint disableChecksJsonTags
                                          jsonTagError file md w with
                                  | (Returns (md', w'), ev) => (md', w', tr ++ ev)
                                  | (Throws _, ev) => (md, w, tr ++ ev)
                                  end)) in
              (marks w' = marks w)
              \/ exists doc, file = Json doc
                             /\ checkpointScn w' = jScn doc
                             /\ confirmedScn w' = confirmedScn w).
    { unfold readCheckpoint. destruct file as [| | doc];
        [left; reflexivity | left; reflexivity |].
      destruct (negb disableChecksJsonTags && jUnknownTag doc);
        [left; reflexivity |].
      destruct (negb (bytes_eqb (database w) (jDatabase doc)));
        [left; reflexivity |].
      right. exists doc. cbn. auto. }
    cbn zeta in Hcase. destruct Hcase as [E | (doc & -> & Ecp & Ecf)].
    + unfold marks in E. injection E as E1 E2 E3 E4.
      rewrite E1, E3.
      repeat split; try lia; try congruence.
    + rewrite Ecp, Ecf. specialize (Hread doc eq_refl).
      repeat split; try lia; try congruence.
      * intros H. exfalso. exact (H _ eq_refl).
      * intros f E. right. exists doc. split; [congruence | reflexivity].
  - (* confirmMessage *)
    cbn [fst snd]. pose proof (confirmMessage_marks now w msg) as Hm.
    set (w1 := confirmMessage now w msg) in *. clearbody w1.
    destruct (newer w msg) eqn:Hnew.
    + apply newer_lex in Hnew. unfold marks in Hm.
      injection Hm as E1 E2 E3 E4. rewrite E1, E3.
      unfold lexLt in Hnew.
      repeat split; try lia; try congruence.
      intros now' msg' E _. inversion E; subst. exact Hnew.
    + unfold marks in Hm. injection Hm as E1 E2 E3 E4. rewrite E1, E3.
      repeat split; try lia; try congruence.
      intros now' msg' E Hne. exfalso. apply Hne. unfold marks. congruence.
  - (* writeCheckpoint *)
    pose proof (writeCheckpoint_marks now md w force) as Hm. cbn zeta in Hm.
    destruct (writeCheckpoint checkpointIntervalS stateWrite now md w force)
      as [w1 ev]. cbn [fst snd] in *.
    unfold marks in Hm.
    destruct Hm as [E | E]; injection E as E1 E2 E3 E4; rewrite E1, E3;
      repeat split; try lia; try congruence.
  - (* the end of mainLoop *)
    unfold mainLoopExit.
    destruct (Scn.neb (checkpointScn w) Scn.none).
    + pose proof (writeCheckpoint_marks now md w true) as Hm. cbn zeta in Hm.
      destruct (writeCheckpoint checkpointIntervalS stateWrite now md w true)
        as [w1 ev]. cbn [fst snd] in *.
      unfold marks in Hm.
      destruct Hm as [E | E]; injection E as E1 E2 E3 E4; rewrite E1, E3;
        repeat split; try lia; try congruence.
    + cbn [fst snd]. repeat split; try lia; try congruence.
Qed.

(** From the constructor state, [confirmedScn] stays NONE whatever is
    confirmed, because no 64-bit SCN is above NONE; so no operation ever
    calls [stateWrite]. *)
Lemma step_confirmedScn_none (op : Op) (md : Metadata) (w : t)
    (tr : list Event) :
  opWf op -> confirmedScn w = Scn.none ->
  let s' := step checkpointIntervalS stateWrite disableChecksJsonTags
              jsonTagError op (md, w, tr) in
  confirmedScn (snd (fst s')) = Scn.none
  /\ filter isStateWrite (snd s') = filter isStateWrite tr.
Proof.
  intros Hwf Hnone.
  assert (Hwrite : forall now force,
             writeCheckpoint checkpointIntervalS stateWrite now md w force
             = (mk (database w) (checkpointScn w) (checkpointIdx w)
                  (checkpointTime w) (sentMessages w) false (confirmedScn w)
                  (confirmedIdx w) (queue w), [])).
  { intros now force. unfold writeCheckpoint. cbn [confirmedScn].
    rewrite Hnone. unfold Scn.eqb at 2. rewrite Z.eqb_refl.
    now rewrite orb_true_r. }
  destruct op as [file | now msg | now force | now]; cbn [step].
  - unfold readCheckpoint. destruct file as [| | doc]; cbn [fst snd].
    + now rewrite app_nil_r.
    + now rewrite app_nil_r.
    + destruct (negb disableChecksJsonTags && jUnknownTag doc); cbn [fst snd];
        [now rewrite app_nil_r |].
      destruct (negb (bytes_eqb (database w) (jDatabase doc))); cbn [fst snd];
        [now rewrite app_nil_r |].
      cbn [confirmedScn]. split; [exact Hnone |].
      rewrite filter_app. cbn. now rewrite app_nil_r.
  - cbn [fst snd]. split; [| reflexivity].
    pose proof (confirmMessage_marks now w msg) as Hm.
    set (w1 := confirmMessage now w msg) in *. clearbody w1.
    destruct (newer w msg) eqn:Hnew.
    + unfold marks in Hm. injection Hm as E1 E2 E3 E4. rewrite E3.
      apply newer_lex in Hnew. unfold lexLt in Hnew. rewrite Hnone in Hnew.
      cbn [opWf] in Hwf. unfold Scn.wf, Scn.none in *. lia.
    + unfold marks in Hm. injection Hm as E1 E2 E3 E4. congruence.
  - rewrite Hwrite. cbn [fst snd confirmedScn].
    split; [exact Hnone | now rewrite app_nil_r].
  - unfold mainLoopExit. destruct (Scn.neb (checkpointScn w) Scn.none).
    + rewrite Hwrite. cbn [fst snd confirmedScn].
      split; [exact Hnone | now rewrite app_nil_r].
    + cbn [fst snd]. split; [exact Hnone | now rewrite app_nil_r].
Qed.

Lemma run_confirmedScn_none (ops : list Op) :
  forall (md : Metadata) (w : t) (tr : list Event),
    Forall opWf ops -> confirmedScn w = Scn.none ->
    let s' := run checkpointIntervalS stateWrite disableChecksJsonTags
                jsonTagError ops (md, w, tr) in
    confirmedScn (snd (fst s')) = Scn.none
    /\ filter isStateWrite (snd s') = filter isStateWrite tr.
Proof.
  induction ops as [| op ops IH]; intros md w tr Hwf Hnone; cbn zeta.
  - cbn [run fold_left fst snd]. auto.
  - inversion Hwf as [| ? ? Hop Hops]; subst.
    unfold run. cbn [fold_left].
    destruct (step_confirmedScn_none op md w tr Hop Hnone) as [Hc Hf].
    destruct (step checkpointIntervalS stateWrite disableChecksJsonTags
                jsonTagError op (md, w, tr)) as [[md1 w1] tr1].
    cbn [fst snd] in Hc, Hf.
    destruct (IH md1 w1 tr1 Hops Hc) as [Hc' Hf']. unfold run in Hc', Hf'.
    split; [exact Hc' | congruence].
Qed.

End WriterFacts.

(** ** The theorems at concrete inputs *)

Section ParserInstances.

Import Parser ParserSpec.

Lemma lwn_dispatch_not_by_subScn_witness :
  dispatchOrder analyzeOk (plainEnv 0) ParserMoreSpec.crossBlockRecords
  = Some [ParserMoreSpec.secondRecord; ParserMoreSpec.firstRecord]
  /\ forall l1 l2 l3,
       [ParserMoreSpec.secondRecord; ParserMoreSpec.firstRecord]
       <> l1 ++ ParserMoreSpec.firstRecord
             :: l2 ++ ParserMoreSpec.secondRecord :: l3.
Proof.
  split; [reflexivity |].
  apply (lwn_dispatch_not_by_subScn analyzeOk (plainEnv 0)
           ParserMoreSpec.crossBlockRecords
           [ParserMoreSpec.secondRecord; ParserMoreSpec.firstRecord]
           ParserMoreSpec.firstRecord ParserMoreSpec.secondRecord).
  - reflexivity.
  - vm_compute. reflexivity.
  - vm_compute. reflexivity.
Defined.

Lemma lwnBatchEnd_checkpoint_witness :
  exists p' dispatched rest,
    lwnBatchEnd analyzeOk (Seq.none, mkFileOffset 0 0, 0) (fun _ _ => true)
      (fun ts => ts) (plainEnv 500) (batchState twoMembers 2 600)
    = Some (Parser.Returns p',
            dispatched
            ++ ProcessCheckpoint 600 7 1000 (mkFileOffset 12 512) false
               :: MetadataCheckpoint 600 1000 7 (mkFileOffset 12 512) 1024
                    Seq.none (mkFileOffset 0 0) 0
               :: rest)
    /\ Permutation (analyzed dispatched) twoRecords
    /\ existsb isCheckpoint dispatched = false
    /\ lwnRecords p' = 0%nat
    /\ lwnNumCnt p' = 0
    /\ lwnConfirmedBlock p' = 12.
Proof.
  destruct (lwnBatchEnd_checkpoint analyzeOk (Seq.none, mkFileOffset 0 0, 0)
              (fun _ _ => true) (fun ts => ts) (plainEnv 500) noMembers
              twoRecords (batchState twoMembers 2 600))
    as (res & tr & Hrun & Hret & Hres); try reflexivity.
  destruct Hret as [p' ->]; [intros tr1 m e H; discriminate H |].
  destruct Hres as (H1 & H2 & H3 & dispatched & after & -> & Hperm & Hck & _
                    & Hgt & _).
  destruct (Hgt eq_refl) as [rest ->].
  exists p', dispatched, rest.
  split; [exact Hrun |].
  split; [exact Hperm |]. split; [exact Hck |].
  split; [exact H1 |]. split; [exact H2 | exact H3].
Defined.

End ParserInstances.

Section ReaderInstances.

Import Reader ReaderSpec.

(** C3, as stated, fails: a header sequence 5 below the expected 7 gives
    EMPTY, not OVERWRITTEN. *)
Lemma lower_sequence_is_not_overwritten :
  group onlineReader <> 0
  /\ read32 (bigEndian plainCtx) staleBlock 8 < sequence onlineReader
  /\ fst (fst (checkBlockHeader false plainCtx onlineReader staleBlock 5 true))
     <> OVERWRITTEN.
Proof.
  split; [vm_compute; discriminate |].
  split; [vm_compute; reflexivity | vm_compute; discriminate].
Qed.

Lemma checkBlockHeader_sequence_mismatch_witness :
  (read32 (bigEndian plainCtx) staleBlock 8 < sequence onlineReader ->
   checkBlockHeader false plainCtx onlineReader staleBlock 5 true
   = (EMPTY, onlineReader, []))
  /\ (sequence onlineReader < read32 (bigEndian plainCtx) staleBlock 8 ->
      checkBlockHeader false plainCtx onlineReader staleBlock 5 true
      = (OVERWRITTEN, onlineReader, [])).
Proof.
  apply (checkBlockHeader_sequence_mismatch false plainCtx onlineReader
           staleBlock 5 true).
  - vm_compute. discriminate.
  - vm_compute. discriminate.
  - vm_compute. discriminate.
  - vm_compute. reflexivity.
Defined.

Lemma reloadHeaderRead_block_size_witness :
  (exists r' lg,
      reloadHeaderRead 512 (fileRead file2048) noCopy pwriteAll plainCtx
        (initial 0xFFFFFFFF 0 true)
      = (Reader.Returns ERROR_BAD_DATA, plainCtx, r', lg ++ [LogError 40005])
      /\ blockSize r' = 0)
  /\ (exists r' lg,
         reloadHeaderRead 512 (fileRead file512) noCopy pwriteAll plainCtx
           (initial 0xFFFFFFFF 0 true)
         = (Reader.Returns OK, plainCtx, r', lg)
         /\ blockSize r' = 512).
Proof.
  split.
  - apply (proj2 (reloadHeaderRead_block_size 512 (fileRead file2048) noCopy
                    pwriteAll plainCtx (initial 0xFFFFFFFF 0 true))
             1024 file2048 plainCtx);
      try (vm_compute; reflexivity).
    + vm_compute. discriminate.
    + vm_compute. intros [[H _] | [[H _] | [H _]]]; discriminate.
  - apply (proj2 (reloadHeaderRead_block_size 512 (fileRead file512) noCopy
                    pwriteAll plainCtx (initial 0xFFFFFFFF 0 true))
             1024 file512 plainCtx);
      try (vm_compute; reflexivity).
    + vm_compute. discriminate.
    + vm_compute. left. split; reflexivity.
    + vm_compute. discriminate.
Defined.


Lemma reloadHeader_crc_retry_witness :
  exists c' r' lg',
    reloadHeader false 512 0xFFFFFFFF scn12345
      (fileRead ReaderMore.badCrcFile) noCopy pwriteAll
      (Z.to_nat BAD_CDC_MAX_CNT) plainCtx (initial 0xFFFFFFFF 0 true)
    = Some (Returns ERROR_BAD_DATA, c', r',
            lg' ++ repeat (Usleep 1000) 19)
    /\ sleeps lg' = 0%nat.
Proof.
  pose (read := reloadHeaderRead 512 (fileRead ReaderMore.badCrcFile) noCopy
                  pwriteAll plainCtx (initial 0xFFFFFFFF 0 true)).
  assert (Hread : read = (Returns OK, snd (fst (fst read)), snd (fst read),
                          snd read))
    by (vm_compute; reflexivity).
  destruct (proj2 (reloadHeader_crc_retry false 512 0xFFFFFFFF scn12345
                     (fileRead ReaderMore.badCrcFile) noCopy pwriteAll
                     plainCtx (initial 0xFFFFFFFF 0 true))
              _ _ _ Hread) as (c' & r' & lg' & Hrun & Hsl).
  - vm_compute. discriminate.
  - vm_compute. reflexivity.
  - left. vm_compute. reflexivity.
  - vm_compute. reflexivity.
  - exists c', r', lg'. split; [exact Hrun | exact Hsl].
Defined.

(** C10, as stated, fails: on a little-endian host that reads a big-endian
    log, the result changes with the stored checksum. *)
Lemma calcChSum_mixed_order_depends_on_field :
  calcChSum false true (setChSumBytes (repeat x00 512) x00 x01) 512
  <> calcChSum false true (repeat x00 512) 512.
Proof. vm_compute. discriminate. Qed.

Lemma calcChSum_checksum_field_witness :
  (false = false ->
   calcChSum false false (setChSumBytes staleBlock xab xcd) 512
   = calcChSum false false staleBlock 512)
  /\ ((read16 false staleBlock 14 =? calcChSum false false staleBlock 512)
      = true
      <-> fold16 (xorWords false (Z.to_nat (512 / 8)) staleBlock 0) = 0).
Proof.
  apply (calcChSum_checksum_field false false staleBlock xab xcd 512).
  - vm_compute. lia.
  - lia.
Defined.

End ReaderInstances.

Section SwapInstances.

Import MemoryManager MemoryManagerSpec.

(** C4, as stated, fails: with two chunks and nothing swapped yet the
    chosen index is 0, the first chunk. *)
Lemma first_chunk_is_chosen :
  getChunkToSwap twoChunks 0 (-1) = (7, 0) /\ ~ 0 < 0.
Proof. split; [reflexivity | lia]. Qed.

Lemma getChunkToSwap_candidate_witness :
  exists sc,
    In (7, sc) (swapChunks twoChunks)
    /\ 0 = swappedMax sc + 1
    /\ 0 <= 0 < chunkCount sc - 1
    /\ 2 <= chunkCount sc
    /\ release sc = false
    /\ 7 <> swappedFlushXid twoChunks.
Proof.
  apply (getChunkToSwap_candidate twoChunks 0 7 0).
  - intros x sc [H | []]. inversion H; subst. vm_compute.
    split; [discriminate | reflexivity].
  - reflexivity.
  - lia.
Defined.

End SwapInstances.

Section WriterInstances.

Import Writer WriterSpec.

(** C2: the code at a run that confirms a message after the stored
    checkpoint and then leaves the main loop.  [checkpointScn] is 100, so
    [writeCheckpoint(true)] is called, but [confirmedScn] is still NONE and
    [stateWrite] is never called, although every write would succeed. *)
Theorem final_checkpoint_not_written :
  let s := run 60 writeOk false 0 shutdownRun
             (metadata0, initial orcl 0, []) in
  marks (snd (fst s)) = (100, 0, Scn.none, 0)
  /\ filter isStateWrite (snd s) = [].
Proof. vm_compute. split; reflexivity. Qed.

(** C9, as stated, fails: [readCheckpoint] at start lowers [checkpointScn]
    from NONE to the stored value 100. *)
Lemma readCheckpoint_lowers_checkpointScn :
  let w := initial orcl 0 in
  let w' := snd (fst (step 60 writeOk false 0 (OpReadCheckpoint checkpoint100)
                        (metadata0, w, []))) in
  checkpointScn w' = 100 /\ checkpointScn w' < checkpointScn w.
Proof. vm_compute. split; reflexivity. Qed.

Lemma writer_marks_step_witness :
  let w := initial orcl 0 in
  let w' := snd (fst (step 60 writeOk false 0 (OpReadCheckpoint checkpoint100)
                        (metadata0, w, []))) in
  checkpointScn w' <= confirmedScn w'
  /\ confirmedScn w <= confirmedScn w'
  /\ ((forall file, OpReadCheckpoint checkpoint100 <> OpReadCheckpoint file) ->
      checkpointScn w <= checkpointScn w')
  /\ (forall file, OpReadCheckpoint checkpoint100 = OpReadCheckpoint file ->
      checkpointScn w' = checkpointScn w
      \/ exists doc, file = Json doc /\ checkpointScn w' = jScn doc)
  /\ (forall now msg,
         OpReadCheckpoint checkpoint100 = OpConfirmMessage now msg ->
         (marks w' <> marks w ->
          lexLt (confirmedScn w) (confirmedIdx w) (lwnScn msg) (lwnIdx msg))).
Proof.
  apply (writer_marks_step 60 writeOk false 0 (OpReadCheckpoint checkpoint100)
           metadata0 (initial orcl 0) []).
  - vm_compute. discriminate.
  - intros doc E. inversion E; subst. vm_compute. discriminate.
Defined.

End WriterInstances.

(** ** More on the reader: block checks, byte order, header reload *)

Section BlockChecks.

Import Reader ReaderSpec.

Variable hostBig : bool.

Ltac split_ifs :=
  repeat match goal with
         | |- context [if ?b then _ else _] => destruct b eqn:?
         end.

Ltac bool_to_prop :=
  repeat match goal with
         | H : _ && _ = true |- _ => apply andb_true_iff in H; destruct H
         | H : _ || _ = false |- _ => apply orb_false_iff in H; destruct H
         | H : _ && _ = false |- _ => apply andb_false_iff in H; destruct H
         | H : _ || _ = true |- _ => apply orb_true_iff in H; destruct H
         | H : negb _ = true |- _ => apply negb_true_iff in H
         | H : negb _ = false |- _ => apply negb_false_iff in H
         | H : (_ =? _) = true |- _ => apply Z.eqb_eq in H
         | H : (_ =? _) = false |- _ => apply Z.eqb_neq in H
         | H : (_ <? _) = true |- _ => apply Z.ltb_lt in H
         | H : (_ <? _) = false |- _ => apply Z.ltb_ge in H
         | H : (_ >? _) = true |- _ => rewrite Z.gtb_ltb in H
         | H : (_ >? _) = false |- _ => rewrite Z.gtb_ltb in H
         | H : (_ <=? _) = true |- _ => apply Z.leb_le in H
         | H : (_ <=? _) = false |- _ => apply Z.leb_gt in H
         end.

(** [checkBlockHeader] writes no field but [sequence] and
    [hintDisplayed]. *)
Lemma checkBlockHeader_frame (c : Ctx) (r : t) (buffer : list byte)
    (blockNumber : Z) (showHint : bool) :
  let r' :=
    snd (fst (checkBlockHeader hostBig c r buffer blockNumber showHint)) in
  r' = set_hintDisplayed (hintDisplayed r') (set_sequence (sequence r') r).
Proof.
  unfold checkBlockHeader. destruct r. split_ifs; reflexivity.
Qed.

Lemma checkBlockHeader_ok_spec (c : Ctx) (r : t) (buffer : list byte)
    (blockNumber : Z) (showHint : bool) :
  let res := checkBlockHeader hostBig c r buffer blockNumber showHint in
  (fst (fst res) = OK
   <-> headerAccepted r buffer = true
       /\ (sequence r = Seq.zero \/ status r = UPDATE
           \/ sequence r = read32 (bigEndian c) buffer 8)
       /\ read32 (bigEndian c) buffer 4 = blockNumber
       /\ (disableChecksBlockSum c = true
           \/ read16 (bigEndian c) buffer 14
              = calcChSum hostBig (bigEndian c) buffer (blockSize r)))
  /\ (fst (fst res) = OK ->
      snd res = []
      /\ snd (fst res) = set_sequence (read32 (bigEndian c) buffer 8) r).
Proof.
  cbn zeta.
  assert (Hst : STATUS_beq (status r) UPDATE = true <-> status r = UPDATE).
  { split; [apply internal_STATUS_dec_bl | apply internal_STATUS_dec_lb]. }
  unfold checkBlockHeader, headerAccepted, checksum, Seq.eqb, Seq.neb,
    Seq.gtb, Seq.ltb, Seq.zero.
  destruct (STATUS_beq (status r) UPDATE) eqn:Hu;
    [assert (Hup : status r = UPDATE) by (apply Hst; reflexivity)
    | assert (Hup : status r <> UPDATE)
        by (intros E; apply Hst in E; discriminate)];
    clear Hst;
    replace (blockSize (set_sequence (read32 (bigEndian c) buffer 8) r))
      with (blockSize r) by (destruct r; reflexivity);
    split_ifs; cbn [fst snd];
    (split; [split; [intros HOK | intros (H1 & H2 & H3 & H4)] | intros HOK]);
    try discriminate; bool_to_prop;
    try solve [repeat split; auto; try lia; try tauto];
    try solve [exfalso; intuition (try congruence; try lia)];
    try solve [split; [reflexivity | destruct r; reflexivity]];
    (split; [reflexivity |]);
    assert (E : sequence r = read32 (bigEndian c) buffer 8)
      by (first [assumption | lia]);
    rewrite <- E; destruct r; reflexivity.
Qed.

(** X1: [checkBlockHeader] answers OK exactly for a block that does not
    start with two zero bytes, whose byte 1 fits the block size, whose
    sequence is the expected one (any sequence when none is known yet or
    during an update), whose block number is the one asked for and, unless
    the check is disabled, whose stored checksum equals [calcChSum]; an OK
    answer logs nothing and leaves the reader with the sequence of the
    header. *)
Theorem checkBlockHeader_ok_iff (c : Ctx) (r : t) (buffer : list byte)
    (blockNumber : Z) (showHint : bool) :
  let res := checkBlockHeader hostBig c r buffer blockNumber showHint in
  (fst (fst res) = OK
   <-> headerAccepted r buffer = true
       /\ (sequence r = Seq.zero \/ status r = UPDATE
           \/ sequence r = read32 (bigEndian c) buffer 8)
       /\ read32 (bigEndian c) buffer 4 = blockNumber
       /\ (disableChecksBlockSum c = true
           \/ read16 (bigEndian c) buffer 14
              = calcChSum hostBig (bigEndian c) buffer (blockSize r)))
  /\ (fst (fst res) = OK ->
      snd res = []
      /\ snd (fst res) = set_sequence (read32 (bigEndian c) buffer 8) r).
Proof. apply checkBlockHeader_ok_spec. Qed.

End BlockChecks.

Section MoreBlockChecks.

Import Reader ReaderSpec ReaderMore.

Variable hostBig : bool.

Ltac split_ifs :=
  repeat match goal with
         | |- context [if ?b then _ else _] => destruct b eqn:?
         end.

Lemma hints_app (l1 l2 : list Event) :
  hints (l1 ++ l2) = (hints l1 + hints l2)%nat.
Proof.
  induction l1 as [| e l1 IH]; [reflexivity |].
  destruct e; cbn; rewrite ?IH; reflexivity.
Qed.

Lemma checkBlockHeader_hint (c : Ctx) (r : t) (buffer : list byte)
    (blockNumber : Z) (showHint : bool) :
  let res := checkBlockHeader hostBig c r buffer blockNumber showHint in
  (hintDisplayed r = true ->
   hintDisplayed (snd (fst res)) = true /\ hints (snd res) = 0%nat)
  /\ (hints (snd res) <= 1)%nat
  /\ (hints (snd res) = 1%nat ->
      hintDisplayed r = false /\ hintDisplayed (snd (fst res)) = true
      /\ configuredBlockSum r = false /\ showHint = true
      /\ fst (fst res) = ERROR_CRC).
Proof.
  cbn zeta. unfold checkBlockHeader.
  destruct r; cbn [hintDisplayed configuredBlockSum set_sequence
                   set_hintDisplayed].
  split_ifs; cbn [fst snd hints app hintDisplayed configuredBlockSum];
    repeat split; intros; subst; cbn in *;
    try discriminate; try congruence; try lia;
    try (destruct showHint; congruence);
    try (apply negb_true_iff; assumption).
Qed.

(** X2: over the blocks that one [read1] scans, the hint about
    DB_BLOCK_CHECKSUM is logged at most once, never once [hintDisplayed] is
    set, and [hintDisplayed] is never reset. *)
Theorem scanBlocks_hint_once (c : Ctx) (data : list byte)
    (bufferScanBlock : Z) (showHint : bool) (k : nat) :
  forall (r : t) (numBlock goodBlocks : Z) (currentRet : REDO_CODE)
         (lg : list Event),
    let res := scanBlocks hostBig c r data bufferScanBlock showHint k
                 numBlock goodBlocks currentRet lg in
    (hints (snd res) <= hints lg + 1)%nat
    /\ (hintDisplayed r = true ->
        hintDisplayed (snd (fst res)) = true /\ hints (snd res) = hints lg)
    /\ (hints lg < hints (snd res) ->
        hintDisplayed (snd (fst res)) = true)%nat.
Proof.
  induction k as [| k IH]; intros r numBlock goodBlocks currentRet lg.
  - cbn. repeat split; auto; lia.
  - cbn zeta. cbn [scanBlocks].
    pose proof (checkBlockHeader_hint c r
                  (advance data (numBlock * blockSize r))
                  (bufferScanBlock + numBlock) showHint) as Hh.
    destruct (checkBlockHeader hostBig c r
                (advance data (numBlock * blockSize r))
                (bufferScanBlock + numBlock) showHint) as [[ret1 r1] lg1].
    cbn [fst snd] in Hh. destruct Hh as (Hset & Hle & Hone).
    destruct (negb (REDO_CODE_beq ret1 OK)) eqn:Hok.
    + cbn [fst snd]. rewrite hints_app. split; [lia | split].
      * intros Hd. apply Hset in Hd. split; [apply Hd | lia].
      * intros Hlt. apply Hone. lia.
    + apply negb_false_iff, REDO_CODE_beq_eq in Hok. subst ret1.
      assert (H0 : hints lg1 = 0%nat).
      { destruct (Nat.eq_dec (hints lg1) 1) as [E | E].
        - apply Hone in E. destruct E as (_ & _ & _ & _ & E). discriminate.
        - lia. }
      specialize (IH r1 (numBlock + 1) (goodBlocks + 1) OK (lg ++ lg1)).
      cbn zeta in IH. rewrite hints_app, H0, Nat.add_0_r in IH.
      destruct IH as (IH1 & IH2 & IH3).
      split; [assumption | split; [| assumption]].
      intros Hd. apply IH2. apply Hset. assumption.
Qed.

End MoreBlockChecks.

Section ByteOrder.

Import Reader ReaderSpec.

(** X3: when the byte-order mark of bytes 28-31 is accepted, it decodes to
    0x7A7B7C7D in the byte order the context has afterwards; the context is
    only ever switched to big-endian; and the mark is refused exactly when it
    is not the big-endian mark and either it is not the little-endian mark
    or the context is already big-endian. *)
Theorem detectEndian_mark (c : Ctx) (h : list byte) :
  (forall c', detectEndian c h = Some c' ->
     read32 (bigEndian c') h 28 = 0x7A7B7C7D
     /\ (bigEndian c = true -> bigEndian c' = true)
     /\ (c' = c \/ (bigEndian c = false /\ c' = setBigEndian c)))
  /\ (detectEndian c h = None
      <-> read32Big h 28 <> 0x7A7B7C7D
          /\ (read32Little h 28 <> 0x7A7B7C7D \/ bigEndian c = true)).
Proof.
  unfold detectEndian, read32, read32Big, read32Little.
  replace (28 + 1) with 29 by reflexivity.
  replace (28 + 2) with 30 by reflexivity.
  replace (28 + 3) with 31 by reflexivity.
  pose proof (u8_range h 28). pose proof (u8_range h 29).
  pose proof (u8_range h 30). pose proof (u8_range h 31).
  change (2 ^ 8) with 256. change (2 ^ 16) with 65536.
  change (2 ^ 24) with 16777216.
  set (big := u8 h 28 * 16777216 + u8 h 29 * 65536 + u8 h 30 * 256 + u8 h 31).
  set (little :=
         u8 h 28 + u8 h 29 * 256 + u8 h 30 * 65536 + u8 h 31 * 16777216).
  assert (HB : (u8 h 28 =? 122) && (u8 h 29 =? 123) && (u8 h 30 =? 124)
               && (u8 h 31 =? 125) = true <-> big = 0x7A7B7C7D).
  { rewrite !andb_true_iff, !Z.eqb_eq. subst big. lia. }
  assert (HL : negb (u8 h 28 =? 125) || negb (u8 h 29 =? 124)
               || negb (u8 h 30 =? 123) || negb (u8 h 31 =? 122) = false
               <-> little = 0x7A7B7C7D).
  { rewrite !orb_false_iff, !negb_false_iff, !Z.eqb_eq. subst little. lia. }
  destruct ((u8 h 28 =? 122) && (u8 h 29 =? 123) && (u8 h 30 =? 124)
            && (u8 h 31 =? 125)) eqn:E1.
  - assert (Hbig : big = 0x7A7B7C7D) by (apply HB; reflexivity).
    split.
    + intros c' Hc'. injection Hc' as <-.
      destruct (bigEndian c) eqn:Hbe; cbn [negb bigEndian setBigEndian].
      * rewrite Hbe. auto.
      * auto.
    + split; [discriminate | intros [Hn _]; contradiction].
  - assert (Hbig : big <> 0x7A7B7C7D)
      by (intros E; apply HB in E; discriminate).
    destruct (negb (u8 h 28 =? 125) || negb (u8 h 29 =? 124)
              || negb (u8 h 30 =? 123) || negb (u8 h 31 =? 122)) eqn:E2.
    + assert (Hl : little <> 0x7A7B7C7D)
        by (intros E; apply HL in E; discriminate).
      cbn [orb]. split; [discriminate |].
      split; [auto | reflexivity].
    + assert (Hl : little = 0x7A7B7C7D) by (apply HL; reflexivity).
      cbn [orb]. destruct (bigEndian c) eqn:Hbe.
      * split; [discriminate |]. split; [auto | reflexivity].
      * split.
        -- intros c' Hc'. injection Hc' as <-. rewrite Hbe.
           split; [assumption | split; [discriminate | auto]].
        -- split; [discriminate |].
           intros [_ [Hn | Hn]]; [contradiction | discriminate].
Qed.

End ByteOrder.

Section RetryLoop.

Import Reader ReaderSpec ReaderMore.

Variable hostBig : bool.

Ltac split_ifs :=
  repeat match goal with
         | |- context [if ?b then _ else _] => destruct b eqn:?
         end.

Lemma sameBut_refl (r : t) : sameBut r r.
Proof. unfold sameBut. destruct r; reflexivity. Qed.

Lemma sameBut_trans (r1 r2 r3 : t) :
  sameBut r1 r2 -> sameBut r2 r3 -> sameBut r1 r3.
Proof.
  unfold sameBut. intros H12 H23. rewrite H23 at 1. rewrite H12 at 1.
  destruct r1; reflexivity.
Qed.

Lemma sameBut_fields (r r' : t) :
  sameBut r r' ->
  blockSize r' = blockSize r /\ headerBuffer r' = headerBuffer r
  /\ compatVsn r' = compatVsn r /\ firstScn r' = firstScn r
  /\ firstScnHeader r' = firstScnHeader r /\ nextScn r' = nextScn r
  /\ nextScnHeader r' = nextScnHeader r /\ status r' = status r
  /\ bufferStart r' = bufferStart r /\ bufferEnd r' = bufferEnd r
  /\ bufferScan r' = bufferScan r /\ group r' = group r.
Proof.
  unfold sameBut. intros ->. destruct r; cbn. repeat split.
Qed.

Lemma checkBlockHeader_sameBut (c : Ctx) (r : t) (buffer : list byte)
    (blockNumber : Z) (showHint : bool) :
  sameBut r
    (snd (fst (checkBlockHeader hostBig c r buffer blockNumber showHint))).
Proof. apply checkBlockHeader_frame. Qed.

Lemma checkBlockHeader_ok_sequence (c : Ctx) (r r' : t) (buffer : list byte)
    (blockNumber : Z) (showHint : bool) (lg : list Event) :
  checkBlockHeader hostBig c r buffer blockNumber showHint = (OK, r', lg) ->
  sequence r' = read32 (bigEndian c) buffer 8.
Proof.
  unfold checkBlockHeader, Seq.eqb, Seq.neb, Seq.gtb, Seq.ltb.
  split_ifs; intros H; inversion H; subst; try (destruct r; reflexivity);
    repeat match goal with
           | H : negb _ = false |- _ => apply negb_false_iff in H
           | H : (_ =? _) = true |- _ => apply Z.eqb_eq in H
           | H : (_ >? _) = false |- _ => rewrite Z.gtb_ltb in H
           | H : (_ <? _) = false |- _ => apply Z.ltb_ge in H
           end; try assumption; lia.
Qed.

(** The retry loop left by its condition: the reader differs from the one
    it started with in [sequence] and [hintDisplayed] only, and the code it
    ends with is either the one it started with or the answer of a check of
    block 1 that left the reader as it is now. *)
Lemma crcRetryLoop_done (c : Ctx) (fuel : nat) :
  forall (r : t) (ret : REDO_CODE) (cnt : Z) (lg : list Event)
         (ret' : REDO_CODE) (r' : t) (lg' : list Event),
    crcRetryLoop hostBig fuel c r ret cnt lg = Some (LoopDone ret', r', lg') ->
    sameBut r r'
    /\ ((ret' = ret /\ r' = r)
        \/ exists r0 lg0,
             sameBut r r0
             /\ checkBlockHeader hostBig c r0
                  (advance (headerBuffer r0) (blockSize r0)) 1 false
                = (ret', r', lg0)).
Proof.
  induction fuel as [| fuel IH]; intros r ret cnt lg ret' r' lg' H;
    [discriminate |].
  cbn [crcRetryLoop] in H.
  destruct (REDO_CODE_beq ret ERROR_CRC) eqn:Hcrc.
  - destruct (cnt + 1 =? BAD_CDC_MAX_CNT); [discriminate |].
    pose proof (checkBlockHeader_sameBut c r
                  (advance (headerBuffer r) (blockSize r)) 1 false) as Hs.
    destruct (checkBlockHeader hostBig c r
                (advance (headerBuffer r) (blockSize r)) 1 false)
      as [[ret1 r1] lg1] eqn:Hcheck.
    cbn [fst snd] in Hs.
    apply IH in H. destruct H as (Hs1 & Hor).
    split; [eapply sameBut_trans; eassumption |].
    right. destruct Hor as [[-> ->] | (r0 & lg0 & Hs0 & Hc0)].
    + exists r, lg1. split; [apply sameBut_refl | assumption].
    + exists r0, lg0. split; [eapply sameBut_trans; eassumption | assumption].
  - inversion H; subst. split; [apply sameBut_refl | left; auto].
Qed.

Lemma crcRetryLoop_return (c : Ctx) (fuel : nat) :
  forall (r : t) (ret : REDO_CODE) (cnt : Z) (lg : list Event)
         (code : REDO_CODE) (r' : t) (lg' : list Event),
    crcRetryLoop hostBig fuel c r ret cnt lg
    = Some (LoopReturn code, r', lg') ->
    code = ERROR_BAD_DATA.
Proof.
  induction fuel as [| fuel IH]; intros r ret cnt lg code r' lg' H;
    [discriminate |].
  cbn [crcRetryLoop] in H.
  destruct (REDO_CODE_beq ret ERROR_CRC); [| discriminate].
  destruct (cnt + 1 =? BAD_CDC_MAX_CNT); [congruence |].
  destruct (checkBlockHeader hostBig c r
              (advance (headerBuffer r) (blockSize r)) 1 false)
    as [[ret1 r1] lg1].
  eapply IH; eassumption.
Qed.

End RetryLoop.

Section HeaderSize.

Import Reader ReaderSpec ReaderMore.

Variable MIN_BLOCK_SIZE : Z.
Variable redoRead : Z -> Z -> Z * list byte.
Variable openCopy : Seq.t -> Z.
Variable pwrite : Z -> list byte -> Z -> Z -> Z.

Lemma reloadHeaderRead_ok_size (c : Ctx) (r : t) (c' : Ctx) (r' : t)
    (lg : list Event) :
  reloadHeaderRead MIN_BLOCK_SIZE redoRead openCopy pwrite c r
  = (Returns OK, c', r', lg) ->
  validBlockSize (blockSize r') (u8 (headerBuffer r') 1).
Proof.
  unfold reloadHeaderRead.
  destruct (softShutdown c); [discriminate |].
  destruct (redoRead 0 _) as [actualRead data].
  destruct (actualRead <? MIN_BLOCK_SIZE); [discriminate |].
  cbn [headerBuffer set_headerBuffer].
  destruct (negb (u8 _ 0 =? 0)); [discriminate |].
  destruct (detectEndian c _) as [c1 |]; [| discriminate].
  cbn [blockSize set_blockSize headerBuffer].
  destruct (blockSizeOK _ _) eqn:Hok; cbn [negb]; [| discriminate].
  apply blockSizeOK_valid in Hok.
  destruct (actualRead <? _); [discriminate |].
  destruct (negb (redoCopyPathEmpty c1)).
  - intros H. apply copyHeader_state in H. destruct H as (-> & Hb & Hh).
    rewrite Hb, Hh. cbn [blockSize set_blockSize headerBuffer]. auto.
  - intros H. inversion H; subst. cbn [blockSize set_blockSize headerBuffer].
    auto.
Qed.

End HeaderSize.

Section UpdateScn.

Import Reader ReaderSpec ReaderMore.

Ltac split_ifs :=
  repeat match goal with
         | |- context [if ?b then _ else _] => destruct b eqn:?
         end.

Lemma updateScn_ok (c : Ctx) (r : t) (lg : list Event) (c' : Ctx) (r' : t)
    (lg' : list Event) :
  updateScn c r lg = (Returns OK, c', r', lg') ->
  c' = c /\ lg' = lg
  /\ firstScn r' = firstScnHeader r
  /\ (nextScnHeader r <> Scn.none -> nextScn r' = nextScnHeader r)
  /\ blockSize r' = blockSize r /\ headerBuffer r' = headerBuffer r
  /\ compatVsn r' = compatVsn r /\ sequence r' = sequence r
  /\ firstScnHeader r' = firstScnHeader r
  /\ nextScnHeader r' = nextScnHeader r.
Proof.
  unfold updateScn, Scn.eqb, Scn.neb.
  destruct (_ || _) eqn:E1.
  - cbn [nextScn set_nextScn nextScnHeader firstScn set_firstScn].
    replace (nextScn (set_nextScn (nextScnHeader r)
                        (set_firstScn (firstScnHeader r) r)))
      with (nextScnHeader r) by (destruct r; reflexivity).
    replace (nextScnHeader (set_nextScn (nextScnHeader r)
                              (set_firstScn (firstScnHeader r) r)))
      with (nextScnHeader r) by (destruct r; reflexivity).
    split_ifs; intros H; try discriminate; injection H as Hc Hr Hl;
      subst c' r' lg'; destruct r; cbn in *; repeat split; auto.
  - destruct (negb (firstScnHeader r =? firstScn r)) eqn:E2;
      [discriminate |].
    apply negb_false_iff, Z.eqb_eq in E2.
    split_ifs; intros H; try discriminate; injection H as Hc Hr Hl;
      subst c' r' lg'; destruct r; cbn in *; repeat split; auto; intros Hn;
      repeat match goal with
             | H : _ && _ = false |- _ =>
               apply andb_false_iff in H; destruct H
             | H : negb _ = false |- _ => apply negb_false_iff in H
             | H : negb _ = true |- _ => apply negb_true_iff in H
             | H : (_ =? _) = true |- _ => apply Z.eqb_eq in H
             | H : (_ =? _) = false |- _ => apply Z.eqb_neq in H
             end; try congruence.
Qed.

End UpdateScn.

Section HeaderReload.

Import Reader ReaderSpec ReaderMore.

Variable hostBig : bool.
Variable MIN_BLOCK_SIZE ZERO_BLK : Z.
Variable readScn : bool -> list byte -> Z -> Scn.t.
Variable redoRead : Z -> Z -> Z * list byte.
Variable openCopy : Seq.t -> Z.
Variable pwrite : Z -> list byte -> Z -> Z -> Z.

(** X4: when [reloadHeader] answers OK, the block size is one of the three
    valid ones, the compatibility version of the header is supported and is
    the version of the context, the reader's first SCN is the header's, its
    next SCN is the header's when the header has one, and its sequence is
    the one in the header of block 1. *)
Theorem reloadHeader_ok (fuel : nat) (c : Ctx) (r : t) (c' : Ctx) (r' : t)
    (lg : list Event) :
  reloadHeader hostBig MIN_BLOCK_SIZE ZERO_BLK readScn redoRead openCopy
    pwrite fuel c r = Some (Returns OK, c', r', lg) ->
  let hb := advance (headerBuffer r') (blockSize r') in
  validBlockSize (blockSize r') (u8 (headerBuffer r') 1)
  /\ compatVsn r' = read32 (bigEndian c') hb 20
  /\ versionSupported (compatVsn r') = true
  /\ version c' = compatVsn r'
  /\ firstScn r' = firstScnHeader r'
  /\ (nextScnHeader r' <> Scn.none -> nextScn r' = nextScnHeader r')
  /\ sequence r' = read32 (bigEndian c') hb 8.
Proof.
  unfold reloadHeader.
  destruct (reloadHeaderRead _ _ _ _ c r) as [[[res c1] r1] lg1] eqn:Hread.
  destruct res as [code | e]; [| discriminate].
  destruct code; try discriminate.
  apply reloadHeaderRead_ok_size in Hread.
  set (hb1 := advance (headerBuffer r1) (blockSize r1)) in *.
  set (ra := set_compatVsn (read32 (bigEndian c1) hb1 20) r1).
  assert (Hra : blockSize ra = blockSize r1 /\ headerBuffer ra = headerBuffer r1
                /\ compatVsn ra = read32 (bigEndian c1) hb1 20)
    by (subst ra; destruct r1; cbn; auto).
  destruct Hra as (Hra1 & Hra2 & Hra3).
  destruct (compatVsn ra =? 0); [discriminate |].
  destruct (negb (versionSupported (compatVsn ra))) eqn:Hvs; [discriminate |].
  apply negb_false_iff in Hvs.
  set (rb := readHeaderFields readScn c1 ra).
  assert (Hrb : blockSize rb = blockSize ra /\ headerBuffer rb = headerBuffer ra
                /\ compatVsn rb = compatVsn ra)
    by (subst rb; unfold readHeaderFields; destruct ra; cbn; auto).
  destruct Hrb as (Hrb1 & Hrb2 & Hrb3).
  match goal with
  | |- context [let '(_, _) := ?x in _] =>
    assert (Hrc : blockSize (fst x) = blockSize rb
                  /\ headerBuffer (fst x) = headerBuffer rb
                  /\ compatVsn (fst x) = compatVsn rb)
      by (destruct (_ && _); cbn [fst]; [destruct rb; cbn; auto | auto]);
    destruct x as [rc lg2]
  end.
  cbn [fst] in Hrc. destruct Hrc as (Hrc1 & Hrc2 & Hrc3).
  match goal with
  | |- context [let '(_, _) := ?x in _] =>
    assert (Hc2 : bigEndian (fst x) = bigEndian c1
                  /\ (version c1 = 0 -> version (fst x) = compatVsn ra)
                  /\ (version c1 <> 0 -> version (fst x) = version c1))
      by (destruct (version c1 =? 0) eqn:Ev; cbn [fst];
          [apply Z.eqb_eq in Ev | apply Z.eqb_neq in Ev];
          repeat split; auto; try contradiction; intros; congruence);
    destruct x as [c2 lg3]
  end.
  cbn [fst] in Hc2. destruct Hc2 as (Hbe & _ & _).
  destruct (negb (compatVsn ra =? version c2)) eqn:Hv; [discriminate |].
  apply negb_false_iff, Z.eqb_eq in Hv.
  pose proof (checkBlockHeader_sameBut hostBig c2 rc hb1 1 false) as Hs0.
  destruct (checkBlockHeader hostBig c2 rc hb1 1 false)
    as [[ret0 rd] lg4] eqn:Hcheck.
  cbn [fst snd] in Hs0.
  destruct (crcRetryLoop hostBig fuel c2 rd ret0 0 (lg3 ++ lg4))
    as [[[exit re] lg5] |] eqn:Hloop; [| discriminate].
  destruct exit as [code | ret1].
  { apply crcRetryLoop_return in Hloop. subst code. discriminate. }
  destruct (negb (REDO_CODE_beq ret1 OK)) eqn:Hok.
  { intros H. injection H as H _ _ _. subst ret1. discriminate. }
  apply negb_false_iff, REDO_CODE_beq_eq in Hok. subst ret1.
  apply crcRetryLoop_done in Hloop. destruct Hloop as (Hs1 & Hor).
  assert (Hse : sameBut rc re) by (eapply sameBut_trans; eassumption).
  apply sameBut_fields in Hse.
  destruct Hse as (Hf1 & Hf2 & Hf3 & _ & Hf5 & _ & Hf7 & _).
  assert (Hseq : sequence re = read32 (bigEndian c2) hb1 8).
  { destruct Hor as [[E1 E2] | (r0 & lg0 & Hs2 & Hc0)].
    - subst ret0 re. eapply checkBlockHeader_ok_sequence; eassumption.
    - assert (Hs3 : sameBut rc r0) by (eapply sameBut_trans; eassumption).
      apply sameBut_fields in Hs3. destruct Hs3 as (Hg1 & Hg2 & _).
      apply checkBlockHeader_ok_sequence in Hc0.
      rewrite Hc0, Hg1, Hg2, Hrc1, Hrc2, Hrb1, Hrb2, Hra1, Hra2.
      reflexivity. }
  intros H. injection H as H. apply updateScn_ok in H.
  destruct H as (-> & -> & Hu1 & Hu2 & Hu3 & Hu4 & Hu5 & Hu6 & Hu7 & Hu8).
  assert (Hbs : blockSize r' = blockSize r1) by congruence.
  assert (Hhd : headerBuffer r' = headerBuffer r1) by congruence.
  cbn zeta. rewrite Hbs, Hhd. fold hb1.
  repeat split.
  - assumption.
  - rewrite Hbe. congruence.
  - replace (compatVsn r') with (compatVsn ra) by congruence. assumption.
  - congruence.
  - congruence.
  - rewrite Hu8. assumption.
  - rewrite Hu6, Hseq. reflexivity.
Qed.

End HeaderReload.

(** ** More on the reader: the size and the window of a read *)

Section ReadSize.

Import Reader ReaderSpec ReaderMore.

Variable MEMORY_CHUNK_SIZE : Z.

(** X5: for a reader inside its file, [read1] asks for a number of bytes
    that stays inside the file and inside the current memory chunk, and
    that is zero only at the end of the file. *)
Theorem read1ToRead_bounds (r : t) :
  0 < blockSize r <= MEMORY_CHUNK_SIZE ->
  MEMORY_CHUNK_SIZE <= 2 ^ 32 ->
  0 <= lastRead r < 2 ^ 31 ->
  0 <= bufferScan r <= fileSize r ->
  let toRead := read1ToRead MEMORY_CHUNK_SIZE r in
  0 <= toRead
  /\ bufferScan r + toRead <= fileSize r
  /\ bufferScan r mod MEMORY_CHUNK_SIZE + toRead <= MEMORY_CHUNK_SIZE
  /\ (toRead = 0 <-> bufferScan r = fileSize r).
Proof.
  intros Hbs Hchunk Hlast Hscan. cbn zeta.
  unfold read1ToRead, readSize.
  pose proof (Z.mod_pos_bound (bufferScan r) MEMORY_CHUNK_SIZE
                ltac:(lia)) as Hpos.
  set (pos := bufferScan r mod MEMORY_CHUNK_SIZE) in *.
  change (2 ^ 32) with 4294967296 in *. change (2 ^ 31) with 2147483648 in *.
  rewrite (Z.mod_small (lastRead r * 2) 4294967296) by lia.
  set (toRead0 := if lastRead r <? blockSize r then blockSize r
                  else Z.min (lastRead r * 2) MEMORY_CHUNK_SIZE).
  assert (H0 : 0 < toRead0 <= MEMORY_CHUNK_SIZE).
  { subst toRead0. destruct (lastRead r <? blockSize r) eqn:E.
    - lia.
    - apply Z.ltb_ge in E. lia. }
  clearbody toRead0.
  destruct (bufferScan r + toRead0 >? fileSize r) eqn:E1.
  - rewrite Z.gtb_ltb in E1. apply Z.ltb_lt in E1.
    rewrite (Z.mod_small (fileSize r - bufferScan r) 4294967296) by lia.
    destruct (pos + (fileSize r - bufferScan r) >? MEMORY_CHUNK_SIZE) eqn:E2.
    + rewrite Z.gtb_ltb in E2. apply Z.ltb_lt in E2. lia.
    + rewrite Z.gtb_ltb in E2. apply Z.ltb_ge in E2. lia.
  - rewrite Z.gtb_ltb in E1. apply Z.ltb_ge in E1.
    destruct (pos + toRead0 >? MEMORY_CHUNK_SIZE) eqn:E2.
    + rewrite Z.gtb_ltb in E2. apply Z.ltb_lt in E2. lia.
    + rewrite Z.gtb_ltb in E2. apply Z.ltb_ge in E2. lia.
Qed.

End ReadSize.

Section Frames.

Import Reader ReaderSpec ReaderMore.

Ltac split_ifs :=
  repeat match goal with
         | |- context [if ?b then _ else _] => destruct b eqn:?
         end.

Lemma sameBuffers_trans (r1 r2 r3 : t) :
  sameBuffers r1 r2 -> sameBuffers r2 r3 -> sameBuffers r1 r3.
Proof. unfold sameBuffers. intuition congruence. Qed.

Lemma sameBut_buffers (r r' : t) : sameBut r r' -> sameBuffers r r'.
Proof.
  intros H. apply sameBut_fields in H. unfold sameBuffers. tauto.
Qed.

Lemma updateScn_buffers (c : Ctx) (r : t) (lg : list Event) :
  sameBuffers r (snd (fst (updateScn c r lg))).
Proof.
  unfold updateScn, sameBuffers. destruct r; cbn. split_ifs; cbn; auto.
Qed.

End Frames.

Section ReadWindow.

Import Reader ReaderSpec ReaderMore.

Variable hostBig : bool.

Lemma scanBlocks_good (c : Ctx) (data : list byte) (bufferScanBlock : Z)
    (showHint : bool) (k : nat) :
  forall (r : t) (numBlock goodBlocks : Z) (currentRet : REDO_CODE)
         (lg : list Event),
    let res := scanBlocks hostBig c r data bufferScanBlock showHint k
                 numBlock goodBlocks currentRet lg in
    goodBlocks <= fst (fst (fst res)) <= goodBlocks + Z.of_nat k
    /\ sameBut r (snd (fst res)).
Proof.
  induction k as [| k IH]; intros r numBlock goodBlocks currentRet lg.
  - cbn. split; [lia | apply sameBut_refl].
  - cbn zeta. cbn [scanBlocks].
    pose proof (checkBlockHeader_sameBut hostBig c r
                  (advance data (numBlock * blockSize r))
                  (bufferScanBlock + numBlock) showHint) as Hs.
    destruct (checkBlockHeader hostBig c r
                (advance data (numBlock * blockSize r))
                (bufferScanBlock + numBlock) showHint) as [[ret1 r1] lg1].
    cbn [fst snd] in Hs.
    destruct (negb (REDO_CODE_beq ret1 OK)).
    + cbn [fst snd]. split; [lia | assumption].
    + specialize (IH r1 (numBlock + 1) (goodBlocks + 1) ret1 (lg ++ lg1)).
      cbn zeta in IH. destruct IH as [IH1 IH2].
      split; [lia | eapply sameBut_trans; eassumption].
Qed.

Lemma crcRetryLoop_sameBut (c : Ctx) (fuel : nat) :
  forall (r : t) (ret : REDO_CODE) (cnt : Z) (lg : list Event)
         (exit : loopExit) (r' : t) (lg' : list Event),
    crcRetryLoop hostBig fuel c r ret cnt lg = Some (exit, r', lg') ->
    sameBut r r'.
Proof.
  induction fuel as [| fuel IH]; intros r ret cnt lg exit r' lg' H;
    [discriminate |].
  cbn [crcRetryLoop] in H.
  destruct (REDO_CODE_beq ret ERROR_CRC).
  - destruct (cnt + 1 =? BAD_CDC_MAX_CNT).
    + injection H as _ <- _. apply sameBut_refl.
    + pose proof (checkBlockHeader_sameBut hostBig c r
                    (advance (headerBuffer r) (blockSize r)) 1 false) as Hs.
      destruct (checkBlockHeader hostBig c r
                  (advance (headerBuffer r) (blockSize r)) 1 false)
        as [[ret1 r1] lg1].
      cbn [fst snd] in Hs. apply IH in H.
      eapply sameBut_trans; eassumption.
  - injection H as _ <- _. apply sameBut_refl.
Qed.

End ReadWindow.

Section CopyFrame.

Import Reader ReaderSpec ReaderMore.

Variable openCopy : Seq.t -> Z.
Variable pwrite : Z -> list byte -> Z -> Z -> Z.

Ltac split_ifs :=
  repeat match goal with
         | |- context [if ?b then _ else _] => destruct b eqn:?
         end.

Lemma copyHeader_buffers (c : Ctx) (r : t) (actualRead : Z)
    (lg : list Event) :
  sameBuffers r (snd (fst (copyHeader openCopy pwrite c r actualRead lg))).
Proof.
  unfold copyHeader, sameBuffers. destruct r; cbn.
  split_ifs; cbn; auto.
Qed.

End CopyFrame.

Section HeaderReadFrame.

Import Reader ReaderSpec ReaderMore.

Variable MIN_BLOCK_SIZE : Z.
Variable redoRead : Z -> Z -> Z * list byte.
Variable openCopy : Seq.t -> Z.
Variable pwrite : Z -> list byte -> Z -> Z -> Z.

Lemma reloadHeaderRead_buffers (c : Ctx) (r : t) :
  sameBuffers r
    (snd (fst (reloadHeaderRead MIN_BLOCK_SIZE redoRead openCopy pwrite c r))).
Proof.
  unfold reloadHeaderRead.
  destruct (softShutdown c); [cbn; unfold sameBuffers; auto |].
  destruct (redoRead 0 _) as [actualRead data].
  set (r1 := set_headerBuffer _ r).
  assert (H1 : sameBuffers r r1)
    by (subst r1; unfold sameBuffers; destruct r; cbn; auto).
  clearbody r1.
  destruct (actualRead <? MIN_BLOCK_SIZE); [exact H1 |].
  destruct (negb (u8 (headerBuffer r1) 0 =? 0)); [exact H1 |].
  destruct (detectEndian c (headerBuffer r1)) as [c1 |]; [| exact H1].
  set (r2 := set_blockSize _ r1).
  assert (H2 : sameBuffers r r2)
    by (subst r2; unfold sameBuffers in *; destruct r1; cbn in *; auto).
  clearbody r2.
  destruct (negb (blockSizeOK (blockSize r2) (u8 (headerBuffer r1) 1))).
  { cbn [fst snd]. unfold sameBuffers in *. destruct r2; cbn in *; auto. }
  destruct (actualRead <? blockSize r2 * 2); [exact H2 |].
  destruct (negb (redoCopyPathEmpty c1)); [| exact H2].
  pose proof (copyHeader_buffers openCopy pwrite c1 r2 actualRead
                (if metrics c then [EmitBytesRead actualRead] else [])) as H3.
  unfold sameBuffers in *. intuition congruence.
Qed.

End HeaderReadFrame.

Section HeaderFrame.

Import Reader ReaderSpec ReaderMore.

Variable hostBig : bool.
Variable MIN_BLOCK_SIZE ZERO_BLK : Z.
Variable readScn : bool -> list byte -> Z -> Scn.t.
Variable redoRead : Z -> Z -> Z * list byte.
Variable openCopy : Seq.t -> Z.
Variable pwrite : Z -> list byte -> Z -> Z -> Z.

Lemma reloadHeader_buffers (fuel : nat) (c : Ctx) (r : t)
    (res : outcome REDO_CODE) (c' : Ctx) (r' : t) (lg : list Event) :
  reloadHeader hostBig MIN_BLOCK_SIZE ZERO_BLK readScn redoRead openCopy
    pwrite fuel c r = Some (res, c', r', lg) ->
  sameBuffers r r'.
Proof.
  unfold reloadHeader.
  pose proof (reloadHeaderRead_buffers MIN_BLOCK_SIZE redoRead openCopy pwrite c r) as H1.
  destruct (reloadHeaderRead _ _ _ _ c r) as [[[res1 c1] r1] lg1].
  cbn [fst snd] in H1.
  destruct res1 as [code | e]; [| intros H; injection H as _ _ <- _; exact H1].
  destruct code;
    try (intros H; injection H as _ _ <- _; exact H1).
  set (ra := set_compatVsn _ r1).
  assert (Ha : sameBuffers r ra)
    by (subst ra; unfold sameBuffers in *; destruct r1; cbn in *; auto).
  clearbody ra.
  destruct (compatVsn ra =? 0);
    [intros H; injection H as _ _ <- _; exact Ha |].
  destruct (negb (versionSupported (compatVsn ra)));
    [intros H; injection H as _ _ <- _; exact Ha |].
  set (rb := readHeaderFields readScn c1 ra).
  assert (Hb : sameBuffers r rb)
    by (subst rb; unfold readHeaderFields, sameBuffers in *;
        destruct ra; cbn in *; auto).
  clearbody rb.
  match goal with
  | |- context [let '(_, _) := ?x in _] =>
    assert (Hc : sameBuffers r (fst x))
      by (destruct (_ && _); cbn [fst]; [| exact Hb];
          unfold sameBuffers in *; destruct rb; cbn in *; auto);
    destruct x as [rc lg2]
  end.
  cbn [fst] in Hc.
  match goal with
  | |- context [let '(_, _) := ?x in _] => destruct x as [c2 lg3]
  end.
  destruct (negb (compatVsn ra =? version c2));
    [intros H; injection H as _ _ <- _; exact Hc |].
  pose proof (checkBlockHeader_sameBut hostBig c2 rc
                (advance (headerBuffer r1) (blockSize r1)) 1 false) as Hs0.
  destruct (checkBlockHeader hostBig c2 rc
              (advance (headerBuffer r1) (blockSize r1)) 1 false)
    as [[ret0 rd] lg4].
  cbn [fst snd] in Hs0.
  destruct (crcRetryLoop hostBig fuel c2 rd ret0 0 (lg3 ++ lg4))
    as [[[exit re] lg5] |] eqn:Hloop; [| discriminate].
  apply crcRetryLoop_sameBut in Hloop.
  assert (He : sameBuffers r re).
  { eapply sameBuffers_trans; [exact Hc |].
    apply sameBut_buffers. eapply sameBut_trans; eassumption. }
  destruct exit as [code | ret1];
    [intros H; injection H as _ _ <- _; exact He |].
  destruct (negb (REDO_CODE_beq ret1 OK));
    [intros H; injection H as _ _ <- _; exact He |].
  intros H. injection H as H.
  pose proof (updateScn_buffers c2 re lg5) as Hu. rewrite H in Hu.
  cbn [fst snd] in Hu. eapply sameBuffers_trans; eassumption.
Qed.

End HeaderFrame.

Section Read1Window.

Import Reader ReaderSpec ReaderMore.

Variable hostBig : bool.
Variable MIN_BLOCK_SIZE MEMORY_CHUNK_SIZE ZERO_BLK : Z.
Variable readScn : bool -> list byte -> Z -> Scn.t.
Variable redoRead : Z -> Z -> Z * list byte.
Variable openCopy : Seq.t -> Z.
Variable pwrite : Z -> list byte -> Z -> Z -> Z.
Variable getTimeUt : Z.

Lemma endOfFile_buffers (r : t) (lg : list Event) :
  sameBuffers r (fst (endOfFile r lg)).
Proof.
  clear. unfold endOfFile, sameBuffers.
  destruct (Scn.neb (nextScnHeader r) Scn.none); destruct r; cbn; auto.
Qed.

Lemma read1Publish_window (fuel : nat) (c : Ctx) (r : t) (goodBlocks : Z)
    (currentRet : REDO_CODE) (lg : list Event) (res : outcome bool)
    (c' : Ctx) (r' : t) (lg' : list Event) :
  read1Publish hostBig MIN_BLOCK_SIZE ZERO_BLK readScn redoRead openCopy
    pwrite getTimeUt fuel c r goodBlocks currentRet lg
  = Some (res, c', r', lg') ->
  0 <= goodBlocks -> 0 <= blockSize r -> bufferEnd r <= bufferScan r ->
  bufferStart r' = bufferStart r
  /\ bufferEnd r' <= bufferScan r'
  /\ exists g, 0 <= g <= goodBlocks
               /\ bufferEnd r' = bufferEnd r + g * blockSize r.
Proof.
  clear MEMORY_CHUNK_SIZE.
  intros H Hg Hbs Hwin. unfold read1Publish in H.
  assert (Hfin : forall (cx : Ctx) (r1 : t) (g : Z) (lg1 : list Event),
             bufferStart r1 = bufferStart r ->
             bufferEnd r1 <= bufferScan r1 ->
             0 <= g <= goodBlocks ->
             bufferEnd r1 = bufferEnd r + g * blockSize r ->
             (if REDO_CODE_beq currentRet ERROR_SEQUENCE && (group r1 =? 0)
              then let '(r2, lg2) := endOfFile r1 lg1 in
                   Some (Returns false, cx, r2, lg2)
              else Some (Returns true, cx, r1, lg1))
             = Some (res, c', r', lg') ->
             bufferStart r' = bufferStart r
             /\ bufferEnd r' <= bufferScan r'
             /\ exists g, 0 <= g <= goodBlocks
                          /\ bufferEnd r' = bufferEnd r + g * blockSize r).
  { intros cx r1 g lg1 H1 H2 H3 H4 H5.
    destruct (REDO_CODE_beq currentRet ERROR_SEQUENCE && (group r1 =? 0)).
    - pose proof (endOfFile_buffers r1 lg1) as He.
      destruct (endOfFile r1 lg1) as [r2 lg2]. cbn [fst] in He.
      injection H5 as _ _ <- _. unfold sameBuffers in He.
      destruct He as (E1 & E2 & E3). rewrite E1, E2, E3.
      split; [assumption | split; [assumption |]]. exists g. auto.
    - injection H5 as _ _ <- _.
      split; [assumption | split; [assumption |]]. exists g. auto. }
  destruct ((goodBlocks =? 0) && REDO_CODE_beq currentRet EMPTY) eqn:Hz.
  - apply andb_true_iff in Hz. destruct Hz as [Hz _].
    apply Z.eqb_eq in Hz. subst goodBlocks.
    destruct (reloadHeader _ _ _ _ _ _ _ fuel c r)
      as [[[[res1 c1] r1] lg1] |] eqn:Hre; [| discriminate].
    apply reloadHeader_buffers in Hre.
    destruct Hre as (E1 & E2 & E3).
    destruct res1 as [code | e].
    + destruct code;
        try (injection H as _ _ <- _;
             destruct r1; cbn in *;
             split; [assumption | split; [lia | exists 0; lia]]).
    + injection H as _ _ <- _.
      split; [assumption | split; [lia | exists 0; lia]].
  - clear Hz.
    set (r0 := set_reachedZero false (set_readBlocks true r)) in H.
    assert (H0 : sameBuffers r r0 /\ blockSize r0 = blockSize r)
      by (subst r0; unfold sameBuffers; destruct r; cbn; auto).
    destruct H0 as ((E1 & E2 & E3) & E4). clearbody r0.
    set (r1 := set_lastReadTime getTimeUt
                 (set_lastRead ((goodBlocks * blockSize r0) mod 2 ^ 32) r0))
      in H.
    assert (H1 : sameBuffers r0 r1 /\ blockSize r1 = blockSize r0)
      by (subst r1; unfold sameBuffers; destruct r0; cbn; auto).
    destruct H1 as ((F1 & F2 & F3) & F4). clearbody r1.
    destruct (goodBlocks >? 0) eqn:Hpos.
    + destruct ((redoVerifyDelayUs c >? 0) && negb (group r1 =? 0)).
      * eapply (Hfin _ _ 0); [| | | | exact H];
          destruct r1; cbn in *; try lia; try nia.
      * eapply (Hfin _ _ goodBlocks); [| | | | exact H];
          destruct r1; cbn in *; try lia; try nia.
    + eapply (Hfin _ r1 0); [| | | | exact H]; try lia; try congruence.
Qed.

(** X6: whatever [read1] answers, it leaves [bufferStart] alone, moves
    [bufferEnd] forward by a whole number of blocks, and keeps [bufferEnd]
    at or below [bufferScan]. *)
Theorem read1_window (fuel : nat) (c : Ctx) (r : t) (res : outcome bool)
    (c' : Ctx) (r' : t) (lg : list Event) :
  read1 hostBig MIN_BLOCK_SIZE MEMORY_CHUNK_SIZE ZERO_BLK readScn redoRead
    openCopy pwrite getTimeUt fuel c r = Some (res, c', r', lg) ->
  0 <= blockSize r -> bufferEnd r <= bufferScan r ->
  bufferStart r' = bufferStart r
  /\ bufferEnd r' <= bufferScan r'
  /\ exists g, 0 <= g /\ bufferEnd r' = bufferEnd r + g * blockSize r.
Proof.
  intros H Hbs Hwin. unfold read1 in H.
  assert (Hset : forall code,
             bufferStart (set_ret code r) = bufferStart r
             /\ bufferEnd (set_ret code r) <= bufferScan (set_ret code r)
             /\ exists g, 0 <= g
                          /\ bufferEnd (set_ret code r)
                             = bufferEnd r + g * blockSize r).
  { intros code. destruct r; cbn in *.
    split; [reflexivity | split; [assumption | exists 0; lia]]. }
  destruct (read1ToRead MEMORY_CHUNK_SIZE r =? 0);
    [injection H as _ _ <- _; apply Hset |].
  destruct (redoRead (bufferScan r) (read1ToRead MEMORY_CHUNK_SIZE r))
    as [actualRead data].
  destruct (actualRead <? 0); [injection H as _ _ <- _; apply Hset |].
  match type of H with
  | (if ?b then _ else _) = _ => destruct b
  end; [injection H as _ _ <- _; apply Hset |].
  match type of H with
  | context [scanBlocks ?hb ?c ?r ?d ?b ?s ?k ?n ?g ?cr ?l] =>
    pose proof (scanBlocks_good hb c d b s k r n g cr l) as Hsc;
    destruct (scanBlocks hb c r d b s k n g cr l)
      as [[[goodBlocks currentRet] r1] lg1]
  end.
  cbn [fst snd] in Hsc. destruct Hsc as [Hg Hs].
  apply sameBut_fields in Hs.
  destruct Hs as (S1 & _ & _ & _ & _ & _ & _ & _ & S2 & S3 & S4 & _).
  destruct ((goodBlocks =? 0) && (group r1 =? 0)).
  { pose proof (endOfFile_buffers r1 lg1) as He.
    destruct (endOfFile r1 lg1) as [r2 lg2]. cbn [fst] in He.
    injection H as _ _ <- _. destruct He as (E1 & E2 & E3).
    rewrite E1, E2, E3, S2, S3, S4.
    split; [reflexivity | split; [assumption | exists 0; lia]]. }
  match type of H with
  | (if ?b then _ else _) = _ => destruct b
  end.
  { injection H as _ _ <- _. destruct r1; cbn in *. subst.
    split; [reflexivity | split; [assumption | exists 0; lia]]. }
  apply read1Publish_window in H; [| lia | lia | lia].
  destruct H as (P1 & P2 & g & Pg & P3).
  rewrite P1, P3, S1, S2, S3.
  split; [reflexivity | split; [lia | exists g; split; [lia | reflexivity]]].
Qed.

End Read1Window.

(** ** The checksum as a XOR of 16-bit words *)

Section Checksum16.

Import ChecksumSpec.

Lemma fold16_lxor (a b : Z) :
  fold16 (Z.lxor a b) = Z.lxor (fold16 a) (fold16 b).
Proof.
  apply Z.bits_inj'. intros n Hn.
  rewrite Z.lxor_spec, !fold16_bits by lia. rewrite !Z.lxor_spec.
  destruct (n <? 16); btauto.
Qed.

Lemma fold16_lanes (l0 l1 l2 l3 : Z) :
  0 <= l0 < 2 ^ 16 -> 0 <= l1 < 2 ^ 16 -> 0 <= l2 < 2 ^ 16 ->
  0 <= l3 < 2 ^ 16 ->
  fold16 (l0 + l1 * 2 ^ 16 + l2 * 2 ^ 32 + l3 * 2 ^ 48)
  = Z.lxor (Z.lxor l0 l1) (Z.lxor l2 l3).
Proof.
  intros H0 H1 H2 H3.
  replace (l0 + l1 * 2 ^ 16 + l2 * 2 ^ 32 + l3 * 2 ^ 48)
    with (l0 + (l1 + (l2 + l3 * 2 ^ 16) * 2 ^ 16) * 2 ^ 16).
  2:{ change (2 ^ 32) with (2 ^ 16 * 2 ^ 16).
      change (2 ^ 48) with (2 ^ 16 * 2 ^ 16 * 2 ^ 16). ring. }
  apply Z.bits_inj'. intros n Hn.
  rewrite fold16_bits by lia. rewrite !Z.lxor_spec.
  destruct (Z.ltb_spec n 16) as [Hlt | Hge].
  - cbn [andb].
    rewrite (testbit_split 16 l0 _ n) by lia.
    rewrite (testbit_split 16 l0 _ (n + 32)) by lia.
    rewrite (testbit_split 16 l0 _ (n + 16)) by lia.
    rewrite (testbit_split 16 l0 _ (n + 48)) by lia.
    replace (n <? 16) with true by (symmetry; apply Z.ltb_lt; lia).
    replace (n + 32 <? 16) with false by (symmetry; apply Z.ltb_ge; lia).
    replace (n + 16 <? 16) with false by (symmetry; apply Z.ltb_ge; lia).
    replace (n + 48 <? 16) with false by (symmetry; apply Z.ltb_ge; lia).
    replace (n + 32 - 16) with (n + 16) by lia.
    replace (n + 16 - 16) with n by lia.
    replace (n + 48 - 16) with (n + 32) by lia.
    rewrite (testbit_split 16 l1 _ (n + 16)) by lia.
    rewrite (testbit_split 16 l1 _ n) by lia.
    rewrite (testbit_split 16 l1 _ (n + 32)) by lia.
    replace (n <? 16) with true by (symmetry; apply Z.ltb_lt; lia).
    replace (n + 32 <? 16) with false by (symmetry; apply Z.ltb_ge; lia).
    replace (n + 16 <? 16) with false by (symmetry; apply Z.ltb_ge; lia).
    replace (n + 32 - 16) with (n + 16) by lia.
    replace (n + 16 - 16) with n by lia.
    rewrite (testbit_split 16 l2 _ n) by lia.
    rewrite (testbit_split 16 l2 _ (n + 16)) by lia.
    replace (n <? 16) with true by (symmetry; apply Z.ltb_lt; lia).
    replace (n + 16 <? 16) with false by (symmetry; apply Z.ltb_ge; lia).
    replace (n + 16 - 16) with n by lia.
    btauto.
  - cbn [andb].
    rewrite (testbit_small16 l0 n), (testbit_small16 l1 n),
      (testbit_small16 l2 n), (testbit_small16 l3 n) by lia.
    reflexivity.
Qed.

Lemma nth_skipn_add (A : Type) (d : A) (l : list A) (k i : nat) :
  nth i (skipn k l) d = nth (k + i) l d.
Proof.
  revert l. induction k as [| k IH]; intros l; [reflexivity |].
  destruct l as [| x l]; [destruct i; reflexivity |]. cbn. apply IH.
Qed.

Lemma u8_advance (buffer : list byte) (off i : Z) :
  0 <= off -> 0 <= i -> u8 (advance buffer off) i = u8 buffer (off + i).
Proof.
  intros Ho Hi. unfold u8, advance. rewrite nth_skipn_add.
  replace (Z.to_nat off + Z.to_nat i)%nat with (Z.to_nat (off + i)) by lia.
  reflexivity.
Qed.

Lemma advance_advance (buffer : list byte) (a b : Z) :
  0 <= a -> 0 <= b -> advance (advance buffer a) b = advance buffer (a + b).
Proof.
  intros Ha Hb. unfold advance. rewrite skipn_skipn.
  f_equal. lia.
Qed.

Lemma load64_lanes (hb : bool) (buffer : list byte) (off : Z) :
  0 <= off ->
  fold16 (load64 hb (advance buffer off))
  = Z.lxor (Z.lxor (read16 hb buffer off) (read16 hb buffer (off + 2)))
           (Z.lxor (read16 hb buffer (off + 4)) (read16 hb buffer (off + 6))).
Proof.
  intros Ho. unfold load64, load64Big, load64Little.
  rewrite !u8_advance by lia.
  replace (off + 0) with off by lia.
  pose proof (read16_range hb buffer off) as R0.
  pose proof (read16_range hb buffer (off + 2)) as R2.
  pose proof (read16_range hb buffer (off + 4)) as R4.
  pose proof (read16_range hb buffer (off + 6)) as R6.
  remember (read16 hb buffer off) as w0 eqn:E0.
  remember (read16 hb buffer (off + 2)) as w2 eqn:E2.
  remember (read16 hb buffer (off + 4)) as w4 eqn:E4.
  remember (read16 hb buffer (off + 6)) as w6 eqn:E6.
  unfold read16, read16Big, read16Little in E0, E2, E4, E6.
  replace (off + 2 + 1) with (off + 3) in * by lia.
  replace (off + 4 + 1) with (off + 5) in * by lia.
  replace (off + 6 + 1) with (off + 7) in * by lia.
  destruct hb.
  - replace (u8 buffer off * 2 ^ 56 + u8 buffer (off + 1) * 2 ^ 48
             + u8 buffer (off + 2) * 2 ^ 40 + u8 buffer (off + 3) * 2 ^ 32
             + u8 buffer (off + 4) * 2 ^ 24 + u8 buffer (off + 5) * 2 ^ 16
             + u8 buffer (off + 6) * 2 ^ 8 + u8 buffer (off + 7))
      with (w6 + w4 * 2 ^ 16 + w2 * 2 ^ 32 + w0 * 2 ^ 48).
    2:{ subst w0 w2 w4 w6.
        change (2 ^ 56) with (2 ^ 8 * 2 ^ 48).
        change (2 ^ 40) with (2 ^ 8 * 2 ^ 32).
        change (2 ^ 24) with (2 ^ 8 * 2 ^ 16). ring. }
    rewrite fold16_lanes by assumption.
    rewrite (Z.lxor_comm w6 w4), (Z.lxor_comm w2 w0).
    apply Z.lxor_comm.
  - replace (u8 buffer off + u8 buffer (off + 1) * 2 ^ 8
             + u8 buffer (off + 2) * 2 ^ 16 + u8 buffer (off + 3) * 2 ^ 24
             + u8 buffer (off + 4) * 2 ^ 32 + u8 buffer (off + 5) * 2 ^ 40
             + u8 buffer (off + 6) * 2 ^ 48 + u8 buffer (off + 7) * 2 ^ 56)
      with (w0 + w2 * 2 ^ 16 + w4 * 2 ^ 32 + w6 * 2 ^ 48).
    2:{ subst w0 w2 w4 w6.
        change (2 ^ 56) with (2 ^ 8 * 2 ^ 48).
        change (2 ^ 40) with (2 ^ 8 * 2 ^ 32).
        change (2 ^ 24) with (2 ^ 8 * 2 ^ 16). ring. }
    apply fold16_lanes; assumption.
Qed.

Lemma xorWords_xor16 (hb : bool) (buffer : list byte) (n : nat) :
  forall off,
    0 <= off ->
    fold16 (xorWords hb n (advance buffer off) 0)
    = xor16 hb buffer off (4 * n).
Proof.
  induction n as [| n IH]; intros off Ho.
  - reflexivity.
  - cbn [xorWords]. rewrite xorWords_acc, Z.lxor_0_l, fold16_lxor.
    rewrite advance_advance by lia. rewrite IH by lia.
    rewrite load64_lanes by lia.
    replace (4 * S n)%nat with (S (S (S (S (4 * n))))) by lia.
    cbn [xor16].
    replace (off + 2 + 2) with (off + 4) by lia.
    replace (off + 4 + 2) with (off + 6) by lia.
    replace (off + 6 + 2) with (off + 8) by lia.
    rewrite !Z.lxor_assoc. reflexivity.
Qed.

(** X7: [calcChSum] is the XOR of all 16-bit words of the block, each read
    in the byte order of the host, and of the checksum field as the log's
    byte order reads it. *)
Theorem calcChSum_xor16 (hostBig bigEndian : bool) (buffer : list byte)
    (size : Z) :
  calcChSum hostBig bigEndian buffer size
  = Z.lxor (xor16 hostBig buffer 0 (4 * Z.to_nat (size / 8)))
           (read16 bigEndian buffer 14).
Proof.
  rewrite calcChSum_fold.
  rewrite <- (xorWords_xor16 hostBig buffer (Z.to_nat (size / 8)) 0) by lia.
  unfold advance. reflexivity.
Qed.

End Checksum16.

Section Corruption.

Import ChecksumSpec.

Lemma nth_setByte (buffer : list byte) (k i : nat) (b : byte) :
  (k < length buffer)%nat ->
  nth i (setByte buffer k b) x00 = if Nat.eqb i k then b else nth i buffer x00.
Proof.
  intros Hk. unfold setByte.
  assert (Hlen : length (firstn k buffer) = k)
    by (rewrite length_firstn; lia).
  destruct (Nat.eqb_spec i k) as [-> | Hne].
  - rewrite app_nth2 by lia. rewrite Hlen, Nat.sub_diag. reflexivity.
  - destruct (Nat.lt_ge_cases i k) as [Hlt | Hge].
    + rewrite app_nth1 by lia. rewrite nth_firstn.
      destruct (Nat.ltb_spec i k); [reflexivity | lia].
    + rewrite app_nth2 by lia. rewrite Hlen.
      destruct (i - k)%nat as [| j] eqn:Ej; [lia |].
      cbn [nth]. rewrite nth_skipn_add. f_equal. lia.
Qed.

Lemma u8_setByte (buffer : list byte) (k : nat) (b : byte) (i : Z) :
  (k < length buffer)%nat -> 0 <= i ->
  u8 (setByte buffer k b) i
  = if i =? Z.of_nat k then bv b else u8 buffer i.
Proof.
  intros Hk Hi. unfold u8. rewrite nth_setByte by assumption.
  destruct (Z.eqb_spec i (Z.of_nat k)) as [-> | Hne].
  - rewrite Nat2Z.id, Nat.eqb_refl. reflexivity.
  - destruct (Nat.eqb_spec (Z.to_nat i) k) as [E | _]; [lia | reflexivity].
Qed.

Lemma bv_inj (a b : byte) : bv a = bv b -> a = b.
Proof.
  unfold bv. intros H. apply N2Z.inj in H.
  assert (E : Byte.of_N (Byte.to_N a) = Byte.of_N (Byte.to_N b))
    by (rewrite H; reflexivity).
  rewrite !Byte.of_to_N in E. congruence.
Qed.

Lemma read16_setByte_other (hb : bool) (buffer : list byte) (k : nat)
    (b : byte) (off : Z) :
  (k < length buffer)%nat -> 0 <= off ->
  Z.of_nat k <> off -> Z.of_nat k <> off + 1 ->
  read16 hb (setByte buffer k b) off = read16 hb buffer off.
Proof.
  intros Hk Ho H0 H1. unfold read16, read16Big, read16Little.
  rewrite !u8_setByte by lia.
  destruct (Z.eqb_spec off (Z.of_nat k)); [lia |].
  destruct (Z.eqb_spec (off + 1) (Z.of_nat k)); [lia |]. reflexivity.
Qed.

Lemma read16_setByte_hit (hb : bool) (buffer : list byte) (k : nat)
    (b : byte) (off : Z) :
  (k < length buffer)%nat -> 0 <= off ->
  Z.of_nat k = off \/ Z.of_nat k = off + 1 ->
  b <> nth k buffer x00 ->
  read16 hb (setByte buffer k b) off <> read16 hb buffer off.
Proof.
  intros Hk Ho Hhit Hb. unfold read16, read16Big, read16Little.
  rewrite !u8_setByte by lia.
  assert (Hbv : bv b <> u8 buffer (Z.of_nat k)).
  { unfold u8. rewrite Nat2Z.id. fold (bv (nth k buffer x00)).
    intros E. apply bv_inj in E. contradiction. }
  pose proof (bv_range b). pose proof (u8_range buffer off).
  pose proof (u8_range buffer (off + 1)).
  change (2 ^ 8) with 256.
  destruct Hhit as [E | E].
  - rewrite <- E in *.
    rewrite Z.eqb_refl.
    destruct (Z.eqb_spec (Z.of_nat k + 1) (Z.of_nat k)); [lia |].
    destruct hb; lia.
  - destruct (Z.eqb_spec off (Z.of_nat k)); [lia |].
    replace (off + 1 =? Z.of_nat k) with true
      by (symmetry; apply Z.eqb_eq; lia).
    replace (off + 1) with (Z.of_nat k) in * by lia.
    destruct hb; lia.
Qed.

Lemma xor16_setByte_before (hb : bool) (buffer : list byte) (k : nat)
    (b : byte) (m : nat) :
  (k < length buffer)%nat ->
  forall off, 0 <= off -> Z.of_nat k < off ->
    xor16 hb (setByte buffer k b) off m = xor16 hb buffer off m.
Proof.
  intros Hk. induction m as [| m IH]; intros off Ho Hlt; [reflexivity |].
  cbn [xor16]. rewrite read16_setByte_other by lia.
  rewrite IH by lia. reflexivity.
Qed.

Lemma xor16_setByte (hb : bool) (buffer : list byte) (k : nat) (b : byte)
    (m : nat) :
  (k < length buffer)%nat -> b <> nth k buffer x00 ->
  forall off,
    0 <= off <= Z.of_nat k -> Z.of_nat k < off + 2 * Z.of_nat m ->
    exists d, d <> 0
      /\ xor16 hb (setByte buffer k b) off m
         = Z.lxor (xor16 hb buffer off m) d.
Proof.
  intros Hk Hb. induction m as [| m IH]; intros off Ho Hlt; [lia |].
  cbn [xor16].
  destruct (Z.lt_ge_cases (Z.of_nat k) (off + 2)) as [Hin | Hout].
  - rewrite xor16_setByte_before by lia.
    pose proof (read16_setByte_hit hb buffer k b off Hk ltac:(lia)
                  ltac:(lia) Hb) as Hne.
    set (w' := read16 hb (setByte buffer k b) off) in *.
    set (w := read16 hb buffer off) in *.
    exists (Z.lxor w w'). split.
    + intros E. apply Z.lxor_eq in E. congruence.
    + set (rest := xor16 hb buffer (off + 2) m).
      rewrite (Z.lxor_comm w rest), Z.lxor_assoc.
      rewrite <- (Z.lxor_assoc w w w'), Z.lxor_nilpotent, Z.lxor_0_l.
      apply Z.lxor_comm.
  - rewrite read16_setByte_other by lia.
    destruct (IH (off + 2)) as (d & Hd & E); [lia | lia |].
    exists d. split; [assumption |].
    rewrite E, Z.lxor_assoc. reflexivity.
Qed.

(** The stored checksum equals [calcChSum] exactly when the XOR of the
    16-bit words is zero. *)
Lemma checksum_valid_iff (hb be : bool) (buffer : list byte) (size : Z) :
  read16 be buffer 14 = calcChSum hb be buffer size
  <-> xor16 hb buffer 0 (4 * Z.to_nat (size / 8)) = 0.
Proof.
  rewrite calcChSum_fold.
  rewrite <- (xorWords_xor16 hb buffer (Z.to_nat (size / 8)) 0) by lia.
  unfold advance. cbn [Z.to_nat skipn].
  set (f := fold16 _). set (s := read16 be buffer 14).
  split.
  - intros E.
    assert (Hx : Z.lxor (Z.lxor f s) s = Z.lxor s s) by congruence.
    rewrite Z.lxor_assoc, Z.lxor_nilpotent, Z.lxor_0_r in Hx. exact Hx.
  - intros ->. rewrite Z.lxor_0_l. reflexivity.
Qed.

Lemma checksum_detects_byte (hostBig bigEndian : bool)
    (buffer : list byte) (size : Z) (k : nat) (b : byte) :
  (k < length buffer)%nat ->
  Z.of_nat k < 8 * (size / 8) ->
  b <> nth k buffer x00 ->
  read16 bigEndian buffer 14 = calcChSum hostBig bigEndian buffer size ->
  read16 bigEndian (setByte buffer k b) 14
  <> calcChSum hostBig bigEndian (setByte buffer k b) size.
Proof.
  intros Hk Hin Hb Hvalid Hbad.
  apply checksum_valid_iff in Hvalid. apply checksum_valid_iff in Hbad.
  destruct (xor16_setByte hostBig buffer k b (4 * Z.to_nat (size / 8)) Hk Hb 0)
    as (d & Hd & E); [lia | lia |].
  rewrite E, Hvalid, Z.lxor_0_l in Hbad. contradiction.
Qed.

(** X8: on a block whose stored checksum is right, changing any single
    byte inside the summed words makes the checksum test fail, whatever the
    byte order of the host and of the log. *)
Theorem calcChSum_detects_byte (hostBig bigEndian : bool)
    (buffer : list byte) (size : Z) (k : nat) (b : byte) :
  (k < length buffer)%nat ->
  Z.of_nat k < 8 * (size / 8) ->
  b <> nth k buffer x00 ->
  read16 bigEndian buffer 14 = calcChSum hostBig bigEndian buffer size ->
  read16 bigEndian (setByte buffer k b) 14
  <> calcChSum hostBig bigEndian (setByte buffer k b) size.
Proof. apply checksum_detects_byte. Qed.

End Corruption.

Section CorruptedBlock.

Import Reader ReaderSpec ChecksumSpec.

Variable hostBig : bool.

Lemma read32_setByte_other (be : bool) (buffer : list byte) (k : nat)
    (b : byte) (off : Z) :
  (k < length buffer)%nat -> 0 <= off ->
  Z.of_nat k < off \/ off + 4 <= Z.of_nat k ->
  read32 be (setByte buffer k b) off = read32 be buffer off.
Proof.
  intros Hk Ho Hout. unfold read32, read32Big, read32Little.
  rewrite !u8_setByte by lia.
  destruct (Z.eqb_spec off (Z.of_nat k)); [lia |].
  destruct (Z.eqb_spec (off + 1) (Z.of_nat k)); [lia |].
  destruct (Z.eqb_spec (off + 2) (Z.of_nat k)); [lia |].
  destruct (Z.eqb_spec (off + 3) (Z.of_nat k)); [lia |]. reflexivity.
Qed.

(** X9: with the checksum test on, a block that [checkBlockHeader] accepts
    is refused with ERROR_CRC once any single byte after its 16-byte header
    and inside the summed words is changed. *)
Theorem checkBlockHeader_detects_byte (c : Ctx) (r : t) (buffer : list byte)
    (blockNumber : Z) (showHint : bool) (k : nat) (b : byte) :
  disableChecksBlockSum c = false ->
  fst (fst (checkBlockHeader hostBig c r buffer blockNumber showHint)) = OK ->
  (16 <= k < length buffer)%nat ->
  Z.of_nat k < 8 * (blockSize r / 8) ->
  b <> nth k buffer x00 ->
  fst (fst (checkBlockHeader hostBig c r (setByte buffer k b) blockNumber
              showHint))
  = ERROR_CRC.
Proof.
  intros Hd Hok Hk Hin Hb.
  pose proof (checkBlockHeader_ok_spec hostBig c r buffer blockNumber
                showHint) as Hspec.
  cbn zeta in Hspec. destruct Hspec as [Hiff _]. apply Hiff in Hok.
  clear Hiff.
  destruct Hok as (Hacc & Hseq & Hbn & Hsum).
  destruct Hsum as [Hsum | Hsum]; [congruence |].
  pose proof (checksum_detects_byte hostBig (bigEndian c) buffer
                (blockSize r) k b ltac:(lia) Hin Hb Hsum) as Hne.
  unfold headerAccepted in Hacc.
  apply andb_true_iff in Hacc. destruct Hacc as [Hz Hs].
  apply negb_true_iff in Hz. apply negb_true_iff in Hs.
  unfold checkBlockHeader, checksum.
  rewrite !u8_setByte by lia.
  replace (0 =? Z.of_nat k) with false by (symmetry; apply Z.eqb_neq; lia).
  replace (1 =? Z.of_nat k) with false by (symmetry; apply Z.eqb_neq; lia).
  rewrite Hz, Hs.
  rewrite !read32_setByte_other by lia.
  rewrite Hbn, Z.eqb_refl, Hd. cbn [negb].
  unfold Seq.eqb, Seq.neb, Seq.gtb, Seq.ltb, Seq.zero in *.
  assert (Hbsz : forall s, blockSize (set_sequence s r) = blockSize r)
    by (intros s; destruct r; reflexivity).
  assert (Hneb : (read16 (bigEndian c) (setByte buffer k b) 14
                  =? calcChSum hostBig (bigEndian c) (setByte buffer k b)
                       (blockSize r)) = false)
    by (apply Z.eqb_neq; assumption).
  assert (Hst : STATUS_beq (status r) UPDATE = true <-> status r = UPDATE).
  { split; [apply internal_STATUS_dec_bl | apply internal_STATUS_dec_lb]. }
  destruct (sequence r =? 0) eqn:E0; cbn [orb].
  { rewrite Hbsz, Hneb. cbn [negb].
    destruct showHint; [destruct (negb (hintDisplayed _)) |]; reflexivity. }
  destruct (STATUS_beq (status r) UPDATE) eqn:Eu.
  { rewrite Hbsz, Hneb. cbn [negb].
    destruct showHint; [destruct (negb (hintDisplayed _)) |]; reflexivity. }
  apply Z.eqb_neq in E0.
  assert (Hse : sequence r = read32 (bigEndian c) buffer 8).
  { destruct Hseq as [H | [H | H]]; [contradiction | | assumption].
    apply Hst in H. congruence. }
  rewrite <- Hse. rewrite Z.eqb_refl, Z.gtb_ltb, Z.ltb_irrefl. cbn [negb].
  destruct (group r =? 0); rewrite Hneb; cbn [negb];
    (destruct showHint; [destruct (negb (hintDisplayed _)) |]; reflexivity).
Qed.

End CorruptedBlock.

(** ** More on the parser: the heap, its capacity and the exceptions of
       the dispatch *)

Section HeapMore.

Import Parser ParserSpec.

(** X10: after the records of a batch were pushed, slot 1 of the heap holds
    one of them, and none of them has a lower page offset. *)
Theorem pushAll_root_least (a0 a : members) (n : nat)
    (ms : list LwnMember) :
  pushAll a0 0 ms = Some (Returns (a, n)) ->
  ms <> [] ->
  In (a 1%nat) ms /\ Forall (fun m => byPageOffset (a 1%nat) m) ms.
Proof.
  intros Hpush Hne.
  destruct (pushAll_inv ms a0 0 a n (heapOK_empty a0) Hpush)
    as (Hn & Hheap & Hperm).
  cbn [contents seq map app] in Hperm.
  assert (Hpos : (1 <= n)%nat).
  { subst n. destruct ms; [contradiction | cbn; lia]. }
  split.
  - apply (Permutation_in _ Hperm). apply in_contents.
    exists 1%nat. split; [lia | reflexivity].
  - apply Forall_forall. intros m Hin.
    apply (Permutation_in _ (Permutation_sym Hperm)) in Hin.
    apply in_contents in Hin. destruct Hin as (i & Hi & <-).
    apply (heap_root_least a n Hheap i Hi).
Qed.

Lemma pushAll_full (ms : list LwnMember) :
  forall (a : members) (n : nat),
    heapOK a n -> Z.of_nat n < MAX_RECORDS_IN_LWN ->
    MAX_RECORDS_IN_LWN <= Z.of_nat (n + length ms) ->
    pushAll a n ms = Some (Throws (RedoLogException 50054)).
Proof.
  induction ms as [| m ms IH]; intros a n Hheap Hn Hfull.
  - cbn in Hfull. lia.
  - cbn [pushAll].
    destruct (Z_lt_ge_dec (Z.of_nat (S n)) MAX_RECORDS_IN_LWN) as [Hlt | Hge].
    + destruct (lwnPush_spec a n m Hheap Hlt) as (a' & Hpush & Hheap' & _).
      rewrite Hpush. apply IH; [assumption | assumption |].
      cbn [length] in Hfull. lia.
    + unfold lwnPush.
      replace (MAX_RECORDS_IN_LWN <=? Z.of_nat (S n)) with true
        by (symmetry; apply Z.leb_le; lia).
      reflexivity.
Qed.

(** X11: a batch holds at most [MAX_RECORDS_IN_LWN - 1] records: pushing
    fewer than [MAX_RECORDS_IN_LWN] records always succeeds and counts them
    all, and pushing that many or more ends in exception 50054. *)
Theorem pushAll_capacity (a : members) (ms : list LwnMember) :
  (Z.of_nat (length ms) < MAX_RECORDS_IN_LWN ->
   exists a', pushAll a 0 ms = Some (Returns (a', length ms)))
  /\ (MAX_RECORDS_IN_LWN <= Z.of_nat (length ms) ->
      pushAll a 0 ms = Some (Throws (RedoLogException 50054))).
Proof.
  split.
  - intros Hlt.
    destruct (pushAll_spec ms a 0 (heapOK_empty a)) as (a' & Hpush & _);
      [cbn; assumption |].
    exists a'. exact Hpush.
  - intros Hge. apply pushAll_full.
    + apply heapOK_empty.
    + unfold MAX_RECORDS_IN_LWN. lia.
    + cbn. assumption.
Qed.

End HeapMore.

Section DispatchErrors.

Import Parser ParserSpec.

Variable analyzeLwn : list Event -> LwnMember -> option exn.
Variable env : Env.

(** X12: the dispatch of a batch ends in an exception only where
    [analyzeLwn] threw it: the failing record is the last one handed over,
    and the exception is either a runtime exception or one that the
    IGNORE_DATA_ERRORS flag was not there to absorb. *)
Theorem dispatchLwn_throws (n : nat) :
  forall (a : members) (tr0 tr : list Event) (e : exn),
    dispatchLwn analyzeLwn env n a tr0 = Some (Throws e, tr) ->
    exists tr1 m,
      tr = tr1 ++ [AnalyzeLwn m]
      /\ analyzeLwn tr m = Some e
      /\ (ignoreDataErrors env = false
          \/ exists code, e = RuntimeException code).
Proof. apply dispatchLwn_throws_spec. Qed.

(** X13: with IGNORE_DATA_ERRORS set and an [analyzeLwn] that throws data
    and redo log exceptions only, the dispatch never throws: every record of
    the batch is handed over, in ascending page-offset order. *)
Theorem dispatchLwn_ignores_data_errors (a0 a : members) (n : nat)
    (ms : list LwnMember) :
  ignoreDataErrors env = true ->
  (forall tr m code, analyzeLwn tr m <> Some (RuntimeException code)) ->
  pushAll a0 0 ms = Some (Returns (a, n)) ->
  exists a' tr,
    dispatchLwn analyzeLwn env n a [] = Some (Returns a', tr)
    /\ Permutation (analyzed tr) ms
    /\ StronglySorted byPageOffset (analyzed tr).
Proof.
  intros Hflag Hrt Hpush.
  destruct (pushAll_inv ms a0 0 a n (heapOK_empty a0) Hpush)
    as (_ & Hheap & Hperm).
  destruct (dispatchLwn_spec analyzeLwn env n a [] Hheap)
    as (res & ext & Hdisp & _ & Hsorted & _ & Hall).
  cbn [app] in Hdisp.
  destruct res as [a' | e].
  - exists a', ext. split; [assumption | split; [| assumption]].
    rewrite (Hall a' eq_refl). exact Hperm.
  - exfalso.
    destruct (dispatchLwn_throws_spec analyzeLwn env n a [] ext e Hdisp)
      as (tr1 & m & _ & Ha & [Hf | (code & ->)]).
    + congruence.
    + apply (Hrt _ _ _ Ha).
Qed.

End DispatchErrors.

Section RecordSize.

Import ParserRecord.

Lemma testbit_mask_FFFFFFFC (n : Z) :
  0 <= n -> Z.testbit 0xFFFFFFFC n = (2 <=? n) && (n <? 32).
Proof.
  intros Hn. change 0xFFFFFFFC with (Z.shiftl (Z.ones 30) 2).
  rewrite Z.shiftl_spec by lia.
  destruct (Z.leb_spec 2 n) as [H2 | H2]; cbn [andb].
  - destruct (Z.ltb_spec n 32) as [H32 | H32].
    + apply Z.ones_spec_low. lia.
    + apply Z.ones_spec_high. lia.
  - apply Z.testbit_neg_r. lia.
Qed.

Lemma land_mask_FFFFFFFC (y : Z) :
  0 <= y -> Z.land y 0xFFFFFFFC = 4 * ((y / 4) mod 2 ^ 30).
Proof.
  intros Hy. apply Z.bits_inj'. intros n Hn.
  rewrite Z.land_spec, testbit_mask_FFFFFFFC by lia.
  rewrite Z.mul_comm. change 4 with (2 ^ 2).
  destruct (Z.leb_spec 2 n) as [H2 | H2]; cbn [andb].
  - rewrite Z.mul_pow2_bits by lia.
    destruct (Z.ltb_spec n 32) as [H32 | H32].
    + rewrite Z.mod_pow2_bits_low by lia.
      rewrite Z.div_pow2_bits by lia.
      replace (n - 2 + 2) with n by lia. apply andb_true_r.
    + rewrite Z.mod_pow2_bits_high by lia. apply andb_false_r.
  - rewrite andb_false_r. symmetry. apply Z.mul_pow2_bits_low. lia.
Qed.

(** X14: the size of a record is rounded up to the next multiple of 4; the
    three largest 32-bit sizes wrap to 0, which the parser takes for "no
    record here". *)
Theorem recordSize4_rounds (size : Z) :
  0 <= size < 2 ^ 32 ->
  (size <= 0xFFFFFFFC ->
   recordSize4 size mod 4 = 0
   /\ size <= recordSize4 size < size + 4)
  /\ (0xFFFFFFFC < size -> recordSize4 size = 0).
Proof.
  intros Hs. unfold recordSize4. rewrite land_mask_FFFFFFFC by lia.
  change (2 ^ 32) with 4294967296 in Hs. change (2 ^ 30) with 1073741824.
  split.
  - intros Hle. rewrite (Z.mod_small ((size + 3) / 4)) by lia. lia.
  - intros Hgt.
    assert (E : (size + 3) / 4 = 1073741824) by lia.
    rewrite E. reflexivity.
Qed.

End RecordSize.

(** ** The writer: sorting the queue *)

Section SortQueue.

Import WriterQueue WriterQueueSpec.

Lemma qstore_same (a : slots) (i : nat) (m : Msg) : store a i m i = m.
Proof. unfold store. now rewrite Nat.eqb_refl. Qed.

Lemma qstore_other (a : slots) (i j : nat) (m : Msg) :
  j <> i -> store a i m j = a j.
Proof.
  intros H. unfold store. destruct (Nat.eqb_spec j i); [contradiction |].
  reflexivity.
Qed.

Lemma transpose_range0 (n i j k : nat) :
  (i < n)%nat -> (j < n)%nat -> (k < n)%nat ->
  (ParserSpec.transpose i j k < n)%nat.
Proof.
  intros Hi Hj Hk. unfold ParserSpec.transpose.
  destruct (Nat.eqb_spec k i); [lia |]. destruct (Nat.eqb_spec k j); lia.
Qed.

Lemma transpose_seq0 (n i j : nat) :
  (i < n)%nat -> (j < n)%nat ->
  Permutation (map (ParserSpec.transpose i j) (seq 0 n)) (seq 0 n).
Proof.
  intros Hi Hj. apply NoDup_Permutation.
  - apply Finite.Injective_map_NoDup; [| apply seq_NoDup].
    intros x y Hxy.
    rewrite <- (transpose_involutive i j x), <- (transpose_involutive i j y).
    now rewrite Hxy.
  - apply seq_NoDup.
  - intros x. rewrite in_map_iff. split.
    + intros (k & <- & Hk). apply in_seq in Hk. apply in_seq.
      pose proof (transpose_range0 n i j k Hi Hj). lia.
    + intros Hx. apply in_seq in Hx. exists (ParserSpec.transpose i j x).
      split.
      * apply transpose_involutive.
      * apply in_seq. pose proof (transpose_range0 n i j x Hi Hj). lia.
Qed.

Lemma qcontents_transposed (a b : slots) (n i j : nat) :
  (i < n)%nat -> (j < n)%nat ->
  (forall k, (k < n)%nat -> b k = a (ParserSpec.transpose i j k)) ->
  Permutation (contents b n) (contents a n).
Proof.
  intros Hi Hj Hb. unfold contents.
  rewrite (map_ext_in b (fun k => a (ParserSpec.transpose i j k))).
  - rewrite <- (map_map (ParserSpec.transpose i j) a).
    apply Permutation_map, transpose_seq0; assumption.
  - intros k Hk. apply in_seq in Hk. apply Hb. lia.
Qed.

Lemma qcontents_ext (a b : slots) (n : nat) :
  (forall k, (k < n)%nat -> b k = a k) -> contents b n = contents a n.
Proof.
  intros H. unfold contents. apply map_ext_in.
  intros k Hk. apply in_seq in Hk. apply H. lia.
Qed.

Lemma qin_contents (a : slots) (n : nat) (m : Msg) :
  In m (contents a n) <-> exists i, (i < n)%nat /\ a i = m.
Proof.
  unfold contents. rewrite in_map_iff. split.
  - intros (i & E & Hi). apply in_seq in Hi. exists i. split; [lia | exact E].
  - intros (i & Hi & E). exists i. split; [exact E | apply in_seq; lia].
Qed.

Lemma qswap (a : slots) (last i c : nat) :
  (i < last)%nat -> (c < last)%nat -> i <> c ->
  Permutation
    (contents (store (store a i (a c)) c (a last)) last)
    (contents (store a i (a last)) last).
Proof.
  intros Hi Hc Hne.
  apply (qcontents_transposed _ _ last i c); [lia | lia |].
  intros k Hk. unfold ParserSpec.transpose, store.
  destruct (Nat.eqb_spec k c) as [-> | Hkc].
  - destruct (Nat.eqb_spec c i); [lia |]. now rewrite Nat.eqb_refl.
  - destruct (Nat.eqb_spec k i) as [-> | Hki].
    + destruct (Nat.eqb_spec c i); [lia | reflexivity].
    + destruct (Nat.eqb_spec k i); [contradiction | reflexivity].
Qed.

(** The loop ends, keeps slot [last], and what it leaves in slots 0 to
    [last - 1], once the last message is put into the hole, is a
    rearrangement of what a store at the first hole would have left. *)
Lemma sortSift_perm (last fuel : nat) :
  forall (a : slots) (i : nat),
    (i < last)%nat -> (last <= fuel + i)%nat ->
    exists a' i',
      sortSift fuel a last i = Some (a', i')
      /\ a' last = a last /\ (i' < last)%nat
      /\ Permutation (contents (store a' i' (a last)) last)
                     (contents (store a i (a last)) last).
Proof.
  induction fuel as [| fuel IH]; intros a i Hi Hfuel; [lia |].
  assert (Hmove : forall c,
             (i < c)%nat -> (c < last)%nat ->
             exists a' i',
               sortSift fuel (store a i (a c)) last c = Some (a', i')
               /\ a' last = a last /\ (i' < last)%nat
               /\ Permutation (contents (store a' i' (a last)) last)
                              (contents (store a i (a last)) last)).
  { intros c Hic Hc.
    destruct (IH (store a i (a c)) c) as (a' & i' & Hrun & Hlast & Hi' & Hperm);
      [lia | lia |].
    rewrite (qstore_other a i last) in Hlast, Hperm by lia.
    exists a', i'.
    split; [exact Hrun | split; [exact Hlast | split; [exact Hi' |]]].
    eapply Permutation_trans; [exact Hperm |].
    apply qswap; lia. }
  cbn [sortSift].
  replace (i <? last)%nat with true by (symmetry; apply Nat.ltb_lt; lia).
  destruct ((i * 2 + 2 <? last)%nat
            && (id (a (i * 2 + 2)%nat) <? id (a last))) eqn:Hright.
  - apply andb_true_iff in Hright. destruct Hright as [Hr1 _].
    apply Nat.ltb_lt in Hr1.
    destruct (id (a (i * 2 + 1)%nat) <? id (a (i * 2 + 2)%nat));
      apply Hmove; lia.
  - destruct ((i * 2 + 1 <? last)%nat
              && (id (a (i * 2 + 1)%nat) <? id (a last))) eqn:Hleft.
    + apply andb_true_iff in Hleft. destruct Hleft as [Hl1 _].
      apply Nat.ltb_lt in Hl1. apply Hmove; lia.
    + exists a, i.
      split; [reflexivity | split; [reflexivity | split; [lia |]]].
      apply Permutation_refl.
Qed.

Lemma qdownInv_start (a : slots) (last : nat) :
  heapOK a (S last) -> (1 <= last)%nat -> downInv a last 0.
Proof.
  intros Hh Hn. split; [lia | split].
  - intros k Hk Hhalf.
    rewrite (qstore_other a 0 ((k - 1) / 2)%nat), (qstore_other a 0 k) by lia.
    apply Hh. lia.
  - intros k Hk Hhalf Hp. lia.
Qed.

Lemma qdownInv_step (a : slots) (last i c : nat) :
  downInv a last i ->
  ((c - 1) / 2)%nat = i -> (1 <= c < last)%nat ->
  id (a c) < id (a last) ->
  (forall s, (1 <= s < last)%nat -> ((s - 1) / 2)%nat = i ->
             byId (a c) (a s)) ->
  downInv (store a i (a c)) last c.
Proof.
  intros (Hi & Hedge & Hgrand) Hhalf Hc Hlt Hsib.
  assert (Hic : (i < c)%nat) by lia.
  unfold downInv. rewrite (qstore_other a i last) by lia.
  split; [lia | split].
  - intros k Hk Hne.
    destruct (Nat.eq_dec k c) as [-> | Hkc].
    + rewrite Hhalf, qstore_same, (qstore_other _ c i), qstore_same by lia.
      unfold byId. lia.
    + rewrite (qstore_other _ c k) by exact Hkc.
      rewrite (qstore_other _ c ((k - 1) / 2)%nat) by exact Hne.
      destruct (Nat.eq_dec k i) as [-> | Hki].
      * rewrite qstore_same, (qstore_other a i ((i - 1) / 2)%nat) by lia.
        apply Hgrand; lia.
      * rewrite (qstore_other a i k) by exact Hki.
        destruct (Nat.eq_dec ((k - 1) / 2)%nat i) as [Ei | Ni].
        -- rewrite Ei, qstore_same. apply Hsib; assumption.
        -- rewrite (qstore_other a i ((k - 1) / 2)%nat) by exact Ni.
           specialize (Hedge k Hk Ni).
           rewrite (qstore_other a i ((k - 1) / 2)%nat), (qstore_other a i k)
             in Hedge by assumption.
           exact Hedge.
  - intros k Hk Hkc _.
    rewrite Hhalf, qstore_same, (qstore_other a i k) by lia.
    assert (Hn : ((k - 1) / 2)%nat <> i) by lia.
    specialize (Hedge k Hk Hn).
    rewrite Hkc, (qstore_other a i c), (qstore_other a i k) in Hedge by lia.
    exact Hedge.
Qed.

Lemma qdownInv_exit (a : slots) (last i : nat) :
  downInv a last i ->
  (i * 2 + 2 <? last)%nat && (id (a (i * 2 + 2)%nat) <? id (a last)) = false ->
  (i * 2 + 1 <? last)%nat && (id (a (i * 2 + 1)%nat) <? id (a last)) = false ->
  heapOK (store a i (a last)) last.
Proof.
  intros (Hi & Hedge & _) Hright Hleft k Hk.
  destruct (Nat.eq_dec ((k - 1) / 2)%nat i) as [Ei | Ni];
    [| apply Hedge; [lia | exact Ni]].
  rewrite Ei, qstore_same, (qstore_other a i k) by lia.
  assert (Hcase : k = (i * 2 + 1)%nat \/ k = (i * 2 + 2)%nat) by lia.
  unfold byId. destruct Hcase as [-> | ->].
  - apply andb_false_iff in Hleft. destruct Hleft as [H | H].
    + apply Nat.ltb_ge in H. lia.
    + apply Z.ltb_ge in H. exact H.
  - apply andb_false_iff in Hright. destruct Hright as [H | H].
    + apply Nat.ltb_ge in H. lia.
    + apply Z.ltb_ge in H. exact H.
Qed.

(** When the loop starts from a state where only the edges below the hole
    may be out of order, it leaves a heap. *)
Lemma sortSift_heap (last fuel : nat) :
  forall (a : slots) (i : nat) (a' : slots) (i' : nat),
    downInv a last i ->
    sortSift fuel a last i = Some (a', i') ->
    heapOK (store a' i' (a last)) last.
Proof.
  induction fuel as [| fuel IH]; intros a i a' i' Hinv Hrun; [discriminate |].
  assert (Hi : (i < last)%nat) by apply Hinv.
  assert (Hmove : forall c,
             ((c - 1) / 2)%nat = i -> (1 <= c < last)%nat ->
             id (a c) < id (a last) ->
             (forall s, (1 <= s < last)%nat -> ((s - 1) / 2)%nat = i ->
                        byId (a c) (a s)) ->
             sortSift fuel (store a i (a c)) last c = Some (a', i') ->
             heapOK (store a' i' (a last)) last).
  { intros c Hhalf Hc Hlt Hsib Hrun'.
    pose proof (IH (store a i (a c)) c a' i'
                  (qdownInv_step a last i c Hinv Hhalf Hc Hlt Hsib) Hrun')
      as Hheap.
    rewrite (qstore_other a i last) in Hheap by lia. exact Hheap. }
  cbn [sortSift] in Hrun.
  replace (i <? last)%nat with true in Hrun
    by (symmetry; apply Nat.ltb_lt; lia).
  destruct ((i * 2 + 2 <? last)%nat
            && (id (a (i * 2 + 2)%nat) <? id (a last))) eqn:Hright.
  - apply andb_true_iff in Hright. destruct Hright as [Hr1 Hr2].
    apply Nat.ltb_lt in Hr1. apply Z.ltb_lt in Hr2.
    destruct (id (a (i * 2 + 1)%nat) <? id (a (i * 2 + 2)%nat)) eqn:Hcmp.
    + apply Z.ltb_lt in Hcmp.
      apply (Hmove (i * 2 + 1)%nat); [lia | lia | lia | | exact Hrun].
      intros s Hs Hhalf.
      assert (Hcase : s = (i * 2 + 1)%nat \/ s = (i * 2 + 2)%nat) by lia.
      unfold byId. destruct Hcase as [-> | ->]; lia.
    + apply Z.ltb_ge in Hcmp.
      apply (Hmove (i * 2 + 2)%nat); [lia | lia | lia | | exact Hrun].
      intros s Hs Hhalf.
      assert (Hcase : s = (i * 2 + 1)%nat \/ s = (i * 2 + 2)%nat) by lia.
      unfold byId. destruct Hcase as [-> | ->]; lia.
  - destruct ((i * 2 + 1 <? last)%nat
              && (id (a (i * 2 + 1)%nat) <? id (a last))) eqn:Hleft.
    + apply andb_true_iff in Hleft. destruct Hleft as [Hl1 Hl2].
      apply Nat.ltb_lt in Hl1. apply Z.ltb_lt in Hl2.
      apply (Hmove (i * 2 + 1)%nat); [lia | lia | lia | | exact Hrun].
      intros s Hs Hhalf.
      assert (Hcase : s = (i * 2 + 1)%nat \/ s = (i * 2 + 2)%nat) by lia.
      destruct Hcase as [-> | ->]; [unfold byId; lia |].
      apply andb_false_iff in Hright. destruct Hright as [H | H].
      * apply Nat.ltb_ge in H. lia.
      * apply Z.ltb_ge in H. unfold byId. lia.
    + injection Hrun as <- <-. apply qdownInv_exit; assumption.
Qed.

Lemma qheap_root_least (a : slots) (n : nat) :
  heapOK a n -> forall i, (i < n)%nat -> byId (a 0%nat) (a i).
Proof.
  intros Hh i. induction i as [i IH] using (well_founded_induction lt_wf).
  intros Hi. destruct (Nat.eq_dec i 0) as [-> | Hne].
  - unfold byId. lia.
  - assert (Hp : byId (a 0%nat) (a ((i - 1) / 2)%nat)) by (apply IH; lia).
    specialize (Hh i ltac:(lia)). unfold byId in *. lia.
Qed.

Lemma qcontents_shift (a : slots) (s : nat) :
  Permutation (contents (store a 0 (a s)) s) (map a (seq 1 s)).
Proof.
  destruct s as [| s]; [apply Permutation_refl |].
  unfold contents.
  replace (seq 1 (S s)) with (seq 1 s ++ [S s])
    by (rewrite (seq_S s 1); reflexivity).
  rewrite map_app. cbn [seq map]. rewrite qstore_same.
  rewrite (map_ext_in (store a 0 (a (S s))) a).
  2:{ intros k Hk. apply in_seq in Hk. apply qstore_other. lia. }
  apply Permutation_cons_append.
Qed.

Lemma sortLoop_spec (s : nat) :
  forall (a : slots) (acc : list Msg),
    exists out,
      sortLoop s a s acc = Some (acc ++ out)
      /\ Permutation out (contents a s)
      /\ (heapOK a s -> StronglySorted byId out).
Proof.
  induction s as [| s IH]; intros a acc.
  - exists []. cbn. rewrite app_nil_r.
    split; [reflexivity | split; [apply Permutation_refl | constructor]].
  - cbn [sortLoop]. replace (S s - 1)%nat with s by lia.
    assert (Hsift : exists a' i',
               sortSift (S s) a s 0 = Some (a', i')
               /\ a' s = a s
               /\ Permutation (contents (store a' i' (a s)) s)
                              (contents (store a 0 (a s)) s)
               /\ (heapOK a (S s) -> heapOK (store a' i' (a s)) s)).
    { destruct s as [| s'].
      - exists a, 0%nat. cbn.
        split; [reflexivity | split; [reflexivity | split]].
        + apply Permutation_refl.
        + intros _ k Hk. lia.
      - destruct (sortSift_perm (S s') (S (S s')) a 0)
          as (a' & i' & Hrun & Hlast & _ & Hperm); [lia | lia |].
        exists a', i'.
        split; [exact Hrun | split; [exact Hlast | split; [exact Hperm |]]].
        intros Hh. eapply sortSift_heap; [| exact Hrun].
        apply qdownInv_start; [exact Hh | lia]. }
    destruct Hsift as (a' & i' & Hrun & Hlast & Hperm & Hheap).
    rewrite Hrun, Hlast.
    destruct (IH (store a' i' (a s)) (acc ++ [a 0%nat]))
      as (out & Hloop & Hpo & Hso).
    exists (a 0%nat :: out).
    rewrite Hloop, <- app_assoc. cbn [app].
    assert (Hall : Permutation out (map a (seq 1 s))).
    { eapply Permutation_trans; [exact Hpo |].
      eapply Permutation_trans; [exact Hperm |]. apply qcontents_shift. }
    split; [reflexivity | split].
    + unfold contents. cbn [seq map]. rewrite <- seq_shift, map_map.
      apply Permutation_cons; [reflexivity |].
      rewrite <- seq_shift, map_map in Hall. exact Hall.
    + intros Hh. constructor.
      * apply Hso. apply Hheap. exact Hh.
      * apply Forall_forall. intros m Hm.
        apply (Permutation_in _ Hall) in Hm.
        apply in_map_iff in Hm. destruct Hm as (k & <- & Hk).
        apply in_seq in Hk. apply (qheap_root_least a (S s) Hh). lia.
Qed.

Lemma nth_contents (q : list Msg) (d : Msg) :
  contents (fun i => nth i q d) (length q) = q.
Proof.
  unfold contents. induction q as [| x q IH]; [reflexivity |].
  cbn [length seq map nth]. f_equal.
  rewrite <- seq_shift, map_map. exact IH.
Qed.

(** X15: [sortQueue] always ends and returns the messages of the queue, no
    more and no less; when the queue it is given is a binary min-heap on
    [id], the result is in ascending [id] order. *)
Theorem sortQueue_sorts (queue : list Msg) :
  exists sorted,
    sortQueue queue = Some sorted
    /\ Permutation sorted queue
    /\ (isHeap queue -> StronglySorted byId sorted).
Proof.
  destruct queue as [| m q].
  - exists []. split; [reflexivity | split; [constructor | constructor]].
  - unfold sortQueue.
    destruct (sortLoop_spec (length (m :: q))
                (fun i => nth i (m :: q) m) [])
      as (out & Hrun & Hperm & Hsorted).
    exists out. split; [exact Hrun | split].
    + rewrite nth_contents in Hperm. exact Hperm.
    + intros Hheap. apply Hsorted. intros i Hi.
      apply (Hheap i); [lia | |]; apply nth_error_nth'; lia.
Qed.

End SortQueue.

(** ** The writer: the queue after a confirmation, and what a checkpoint
       writes *)

Section ConfirmQueue.

Import Writer WriterSpec WriterMore WriterStream.

Lemma confirmedPrefix_spec (w : t) (q : list BuilderMsg) :
  exists dropped,
    q = dropped ++ confirmedPrefix w q
    /\ Forall (confirmed w) dropped
    /\ match confirmedPrefix w q with
       | [] => True
       | m :: _ => ~ confirmed w m
       end.
Proof.
  induction q as [| m q IH].
  - exists []. cbn. auto.
  - cbn [confirmedPrefix]. unfold Scn.ltb, Scn.eqb.
    destruct ((lwnScn m <? confirmedScn w)
              || ((lwnScn m =? confirmedScn w)
                  && (lwnIdx m <=? confirmedIdx w))) eqn:E.
    + destruct IH as (dropped & Hq & Hall & Hhead).
      exists (m :: dropped). cbn [app]. split; [congruence | split].
      * constructor; [| assumption]. unfold confirmed.
        apply orb_true_iff in E. destruct E as [E | E].
        -- apply Z.ltb_lt in E. auto.
        -- apply andb_true_iff in E. destruct E as [E1 E2].
           apply Z.eqb_eq in E1. apply Z.leb_le in E2. auto.
      * assumption.
    + exists []. cbn [app]. split; [reflexivity | split; [constructor |]].
      unfold confirmed. intros [H | [H1 H2]].
      * apply orb_false_iff in E. destruct E as [E _].
        apply Z.ltb_ge in E. lia.
      * apply orb_false_iff in E. destruct E as [_ E].
        apply andb_false_iff in E. destruct E as [E | E].
        -- apply Z.eqb_neq in E. contradiction.
        -- apply Z.leb_gt in E. lia.
Qed.

(** X16: [confirmMessage] drops from the front of the queue exactly the
    messages at or before the confirmed position: the queue afterwards is
    a suffix of the queue before, every dropped message is at or before
    (confirmedScn, confirmedIdx), and the message now at the front, if any,
    is after it. *)
Theorem confirmMessage_queue (now : Z) (w : t) (msg : BuilderMsg) :
  let w' := confirmMessage now w msg in
  exists dropped,
    queue w = dropped ++ queue w'
    /\ Forall (confirmed w') dropped
    /\ match queue w' with
       | [] => True
       | m :: _ => ~ confirmed w' m
       end.
Proof.
  cbn zeta. unfold confirmMessage.
  destruct (newer w msg); cbn [queue confirmedScn confirmedIdx];
    match goal with
    | |- context [confirmedPrefix ?x ?q] =>
      destruct (confirmedPrefix_spec x q) as (dropped & Hq & Hall & Hhead)
    end;
    exists dropped; unfold confirmed in *; cbn in *; auto.
Qed.

(** Confirming the message at the front of the queue takes it off. *)
Lemma confirmMessage_front (now : Z) (w : t) (m : BuilderMsg)
    (q : list BuilderMsg) :
  queue w = m :: q ->
  exists dropped,
    q = dropped ++ queue (confirmMessage now w m).
Proof.
  intros Hq. unfold confirmMessage, newer, Scn.gtb, Scn.eqb.
  destruct ((lwnScn m >? confirmedScn w)
            || ((lwnScn m =? confirmedScn w)
                && (lwnIdx m >? confirmedIdx w))) eqn:E;
    cbn [queue confirmedScn confirmedIdx]; rewrite Hq;
    cbn [confirmedPrefix]; unfold Scn.ltb, Scn.eqb.
  - rewrite Z.eqb_refl, Z.leb_refl, orb_true_r.
    match goal with
    | |- context [confirmedPrefix ?x ?q] =>
      destruct (confirmedPrefix_spec x q) as (dropped & Hd & _)
    end.
    exists dropped. exact Hd.
  - replace ((lwnScn m <? confirmedScn w)
             || ((lwnScn m =? confirmedScn w)
                 && (lwnIdx m <=? confirmedIdx w))) with true.
    + match goal with
      | |- context [confirmedPrefix ?x ?q] =>
        destruct (confirmedPrefix_spec x q) as (dropped & Hd & _)
      end.
      exists dropped. exact Hd.
    + symmetry. apply orb_false_iff in E. destruct E as [E1 E2].
      rewrite Z.gtb_ltb in E1. apply Z.ltb_ge in E1.
      destruct (Z.ltb_spec (lwnScn m) (confirmedScn w)) as [Hlt | Hge];
        [reflexivity |].
      cbn [orb]. assert (Heq : lwnScn m = confirmedScn w) by lia.
      rewrite Heq, Z.eqb_refl in *. cbn [andb] in *.
      rewrite Z.gtb_ltb in E2. apply Z.ltb_ge in E2.
      apply Z.leb_le. exact E2.
Qed.

Lemma confirmLoop_spec (time : nat -> Z) (req : Request) (fuel : nat) :
  forall (calls : nat) (w : t),
    (length (queue w) < fuel)%nat ->
    exists w' dropped,
      confirmLoop fuel time calls req w = Some w'
      /\ queue w = dropped ++ queue w'
      /\ Forall (fun m => confirmable req m = true) (firstn 1 dropped)
      /\ match queue w' with
         | [] => True
         | m :: _ => confirmable req m = false
         end
      /\ database w' = database w.
Proof.
  induction fuel as [| fuel IH]; intros calls w Hlen; [lia |].
  cbn [confirmLoop].
  destruct (queue w) as [| m q] eqn:Hq.
  - exists w, []. rewrite Hq. cbn. auto.
  - destruct (confirmable req m) eqn:Hc.
    + destruct (confirmMessage_front (time calls) w m q Hq) as (d1 & Hd1).
      destruct (IH (S calls) (confirmMessage (time calls) w m))
        as (w' & d2 & Hrun & Hd2 & _ & Hhead & Hdb).
      { cbn [length] in Hlen. rewrite Hd1, length_app in Hlen. lia. }
      exists w', (m :: d1 ++ d2).
      split; [exact Hrun | split; [| split; [| split]]].
      * cbn [app]. rewrite <- app_assoc, <- Hd2, <- Hd1. reflexivity.
      * cbn [firstn]. constructor; [exact Hc | constructor].
      * exact Hhead.
      * rewrite Hdb. unfold confirmMessage. destruct (newer w m); reflexivity.
    + exists w, []. rewrite Hq. cbn [app firstn].
      split; [reflexivity | split; [reflexivity | split; [constructor |]]].
      split; [exact Hc | reflexivity].
Qed.

(** X17: [processConfirm] always ends, within as many confirmations as
    there are messages in the queue; the queue afterwards is a suffix of
    the queue before, whose first message, if any, is after the position
    the client confirms; a request for another database changes nothing
    and logs warning 60035. *)
Theorem processConfirm_ends (time : nat -> Z) (req : Request) (w : t) :
  exists w' lg dropped,
    processConfirm (S (length (queue w))) time req w = Some (w', lg)
    /\ queue w = dropped ++ queue w'
    /\ (database_name req = database w ->
        lg = []
        /\ match queue w' with
           | [] => True
           | m :: _ => confirmable req m = false
           end)
    /\ (database_name req <> database w -> w' = w /\ lg = [60035]).
Proof.
  unfold processConfirm, bytes_eqb.
  destruct (list_eq_dec Byte.byte_eq_dec (database_name req) (database w))
    as [Heq | Hne]; cbn [negb].
  - destruct (confirmLoop_spec time req (S (length (queue w))) 0 w)
      as (w' & dropped & Hrun & Hd & _ & Hhead & _); [lia |].
    rewrite Hrun. exists w', [], dropped.
    split; [reflexivity | split; [exact Hd | split]].
    + intros _. split; [reflexivity | exact Hhead].
    + intros H. contradiction.
  - exists w, [60035], [].
    split; [reflexivity | split; [reflexivity | split]].
    + intros H. contradiction.
    + intros _. split; reflexivity.
Qed.

End ConfirmQueue.

(** ** The memory manager: selection, swap and unswap *)

Section SwapMap.

Import MemoryManager MemoryManagerSpec MemorySwap MemorySwapSpec.

Lemma find_In (xid : Xid) (sc : SwapChunk) (l : list (Xid * SwapChunk)) :
  find xid l = Some sc -> In (xid, sc) l.
Proof.
  induction l as [| [x sc0] l IH]; cbn [find]; [discriminate |].
  destruct (Z.eqb_spec x xid) as [-> | Hne].
  - intros [= ->]. left. reflexivity.
  - intros H. right. apply IH. exact H.
Qed.

Lemma In_find (xid : Xid) (sc : SwapChunk) (l : list (Xid * SwapChunk)) :
  NoDup (map fst l) -> In (xid, sc) l -> find xid l = Some sc.
Proof.
  induction l as [| [x sc0] l IH]; cbn [find map fst]; [contradiction |].
  intros Hnd Hin. inversion Hnd as [| ? ? Hnotin Hnd']; subst.
  destruct Hin as [E | Hin].
  - injection E as -> ->. rewrite Z.eqb_refl. reflexivity.
  - destruct (Z.eqb_spec x xid) as [-> | Hne]; [| apply IH; assumption].
    exfalso. apply Hnotin. apply in_map_iff. exists (xid, sc). auto.
Qed.

Lemma find_update_same (xid : Xid) (sc : SwapChunk)
    (l : list (Xid * SwapChunk)) :
  find xid l <> None -> find xid (update xid sc l) = Some sc.
Proof.
  induction l as [| [x sc0] l IH]; cbn [find update]; [contradiction |].
  destruct (Z.eqb_spec x xid) as [-> | Hne]; cbn [find].
  - rewrite Z.eqb_refl. reflexivity.
  - destruct (Z.eqb_spec x xid); [contradiction | exact IH].
Qed.

Lemma find_update_other (xid y : Xid) (sc : SwapChunk)
    (l : list (Xid * SwapChunk)) :
  y <> xid -> find y (update xid sc l) = find y l.
Proof.
  intros Hy. induction l as [| [x sc0] l IH]; cbn [find update];
    [reflexivity |].
  destruct (Z.eqb_spec x xid) as [-> | Hne]; cbn [find].
  - destruct (Z.eqb_spec xid y); [congruence | reflexivity].
  - rewrite IH. reflexivity.
Qed.

Lemma scanSwapChunks_finds (flush : Xid) (l : list (Xid * SwapChunk)) :
  forall xid0,
    (forall x sc, In (x, sc) l -> SwapChunk_wf sc) ->
    (exists x sc, In (x, sc) l /\ x <> flush /\ release sc = false
                  /\ 2 <= chunkCount sc
                  /\ swappedMax sc < chunkCount sc - 2) ->
    snd (scanSwapChunks flush l xid0 (-1)) <> -1.
Proof.
  induction l as [| [x0 sc0] l IH]; intros xid0 Hwf (x & sc & Hin & He).
  - contradiction.
  - cbn [scanSwapChunks].
    assert (Hwf0 : SwapChunk_wf sc0) by (apply (Hwf x0); left; reflexivity).
    destruct Hwf0 as [Hlow Hhigh].
    assert (Hrest : forall x sc, In (x, sc) l -> SwapChunk_wf sc)
      by (intros y s Hy; apply (Hwf y); right; exact Hy).
    destruct ((flush =? x0) || release sc0 || (chunkCount sc0 <=? 1))
      eqn:Hskip.
    + apply IH; [exact Hrest |].
      destruct Hin as [E | Hin]; [| eauto].
      injection E as -> ->. exfalso.
      destruct He as (H1 & H2 & H3 & H4).
      apply orb_true_iff in Hskip. destruct Hskip as [Hskip | Hskip].
      * apply orb_true_iff in Hskip. destruct Hskip as [Hskip | Hskip].
        -- apply Z.eqb_eq in Hskip. congruence.
        -- congruence.
      * apply Z.leb_le in Hskip. lia.
    + apply orb_false_iff in Hskip. destruct Hskip as [_ Hcount].
      apply Z.leb_gt in Hcount.
      rewrite to_int64_small by lia.
      destruct (swappedMax sc0 <? chunkCount sc0 - 2) eqn:Hmax.
      * cbn [snd]. lia.
      * apply IH; [exact Hrest |].
        destruct Hin as [E | Hin]; [| eauto].
        injection E as -> ->. apply Z.ltb_ge in Hmax. lia.
Qed.

(** X18: [getChunkToSwap] misses no victim: when something may be swapped
    and some transaction is eligible (not the one being flushed, not
    released, at least two chunks, a chunk before the last not yet
    swapped), the index it returns is not -1. *)
Theorem getChunkToSwap_finds (c : Ctx) (xid0 : Xid) :
  nothingToSwap c = false ->
  (forall x sc, In (x, sc) (swapChunks c) -> SwapChunk_wf sc) ->
  (exists x sc, In (x, sc) (swapChunks c) /\ eligible c x sc) ->
  snd (getChunkToSwap c xid0 (-1)) <> -1.
Proof.
  intros Hn Hwf (x & sc & Hin & H1 & H2 & H3 & H4).
  unfold getChunkToSwap. rewrite Hn.
  apply scanSwapChunks_finds; [exact Hwf |].
  exists x, sc. auto.
Qed.

(** X19: in one turn of the memory manager the chunk chosen to be read
    back and the chunk chosen to be swapped out are never the same chunk
    of the same transaction. *)
Theorem unswap_swap_distinct (s : Sys) (x0 y0 ux sx : Xid) (ui si : Z) :
  uniqueXids (ctx s) ->
  getChunkToUnswap s x0 (-1) = Returns (ux, ui) ->
  getChunkToSwap (ctx s) y0 (-1) = (sx, si) ->
  ui <> -1 -> si <> -1 ->
  (ux, ui) <> (sx, si).
Proof.
  intros Huniq Hun Hsw Hui Hsi E. injection E as -> ->.
  unfold getChunkToSwap in Hsw.
  destruct (nothingToSwap (ctx s)); [congruence |].
  apply scanSwapChunks_spec in Hsw.
  destruct Hsw as [E | (sc & Hin & Hi & _ & _ & _ & Hflush)]; [congruence |].
  apply (In_find _ _ _ Huniq) in Hin.
  unfold getChunkToUnswap in Hun.
  assert (Hshrink :
            (if swappedShrinkXid s =? 0 then Returns (x0, -1)
             else match find (swappedShrinkXid s) (swapChunks (ctx s)) with
                  | None => Throws 50070
                  | Some sc0 =>
                    if swappedMax sc0 =? -1 then Returns (x0, -1)
                    else Returns (swappedShrinkXid s, swappedMax sc0)
                  end) = Returns (sx, si) -> False).
  { destruct (swappedShrinkXid s =? 0); [congruence |].
    destruct (find (swappedShrinkXid s) (swapChunks (ctx s))) as [sc0 |] eqn:Hf;
      [| discriminate].
    destruct (swappedMax sc0 =? -1); [congruence |].
    intros H. injection H as Hx Hi'. rewrite Hx in Hf.
    rewrite Hin in Hf. injection Hf as <-. lia. }
  destruct (negb (swappedFlushXid (ctx s) =? 0)); [| auto].
  destruct (find (swappedFlushXid (ctx s)) (swapChunks (ctx s))) as [sc1 |];
    [| discriminate].
  destruct (swappedMin sc1 >? -1); [| auto].
  injection Hun as Hx _. congruence.
Qed.

End SwapMap.

Section SwapLists.

Import MemoryManager MemoryManagerSpec MemorySwap MemorySwapSpec.

Lemma setChunk_setChunk (l : list Z) (i : nat) (p q : Z) :
  setChunk (setChunk l i p) i q = setChunk l i q.
Proof.
  revert i. induction l as [| c l IH]; intros i; [reflexivity |].
  destruct i as [| i]; cbn [setChunk]; [reflexivity |]. now rewrite IH.
Qed.

Lemma setChunk_same (l : list Z) (i : nat) :
  (i < length l)%nat -> setChunk l i (nth i l 0) = l.
Proof.
  revert i. induction l as [| c l IH]; intros i Hi; [reflexivity |].
  destruct i as [| i]; cbn [setChunk nth]; [reflexivity |].
  rewrite IH by (cbn in Hi; lia). reflexivity.
Qed.

Lemma land_chunk_multiple (k m : Z) :
  0 <= k -> Z.land (m * 2 ^ k) (2 ^ k - 1) = 0.
Proof.
  intros Hk. replace (2 ^ k - 1) with (Z.ones k)
    by (rewrite Z.ones_equiv; lia).
  rewrite Z.land_ones by lia. apply Z.mod_mul. lia.
Qed.

Lemma land_max_aligned (k a m : Z) :
  0 <= k -> Z.land a (2 ^ k - 1) = 0 ->
  Z.land (Z.max a (m * 2 ^ k)) (2 ^ k - 1) = 0.
Proof.
  intros Hk Ha. destruct (Z.max_spec a (m * 2 ^ k)) as [[_ ->] | [_ ->]].
  - apply land_chunk_multiple. exact Hk.
  - exact Ha.
Qed.

End SwapLists.

Section SwapFiles.

Import MemoryManager MemoryManagerSpec MemorySwap MemorySwapSpec.

Variable MEMORY_CHUNK_SIZE : Z.
Variable openFails : Xid -> bool.
Variable preadBytes : Xid -> Z -> Z.
Variable pwriteBytes : Xid -> Z -> Z.
Variable unlinkFails : Xid -> bool.
Variable truncateFails : Xid -> Z -> bool.

(** X20: a chunk that was swapped out comes back unchanged, as long as the
    system calls on the swap file succeed: for a transaction that is not
    being shrunk, [swap] of the chunk after the last swapped one returns
    true, the following [unswap] of that chunk into a new memory chunk
    returns true too, and afterwards the transaction has the swapped range
    it had before, the new chunk at that index, and in it the data that the
    old chunk held. *)
Theorem swap_unswap_round_trip (xid : Xid) (index : Z) (s : Sys)
    (sc : SwapChunk) (tc : Z) :
  (exists k, 0 <= k /\ MEMORY_CHUNK_SIZE = 2 ^ k) ->
  (index + 1) * MEMORY_CHUNK_SIZE < 2 ^ 63 ->
  openFails xid = false ->
  pwriteBytes xid index = MEMORY_CHUNK_SIZE ->
  preadBytes xid index = MEMORY_CHUNK_SIZE ->
  (forall size, truncateFails xid size = false) ->
  find xid (swapChunks (ctx s)) = Some sc ->
  swappedShrinkXid s <> xid ->
  chunkCount sc < 2 ^ 63 ->
  0 <= index < chunkCount sc - 1 ->
  swappedMax sc = index - 1 ->
  swapRange sc ->
  fileAligned MEMORY_CHUNK_SIZE (files s xid) ->
  tc <> 0 ->
  exists s1 s2 sc2,
    swap MEMORY_CHUNK_SIZE openFails pwriteBytes unlinkFails truncateFails
      xid index s = (Returns true, s1)
    /\ unswap MEMORY_CHUNK_SIZE openFails preadBytes unlinkFails truncateFails
         tc xid index s1 = (Returns true, s2)
    /\ find xid (swapChunks (ctx s2)) = Some sc2
    /\ swappedMin sc2 = swappedMin sc
    /\ swappedMax sc2 = swappedMax sc
    /\ chunks sc2 = setChunk (chunks sc) (Z.to_nat index) tc
    /\ mem s2 tc = mem s (nth (Z.to_nat index) (chunks sc) 0)
    /\ In (nth (Z.to_nat index) (chunks sc) 0) (freed s1).
Proof.
  intros (k & Hk & Hchunk) Hoff Hopen Hpw Hpr Htr Hfind Hshrink Hcount Hindex
    Hmax Hrange Hfile Htc.
  assert (Hpow : 0 < 2 ^ k) by (apply Z.pow_pos_nonneg; lia).
  unfold swap. rewrite Hfind.
  replace (chunkCount sc <=? 1) with false
    by (symmetry; apply Z.leb_gt; lia).
  rewrite to_int64_small by lia.
  replace (index >=? chunkCount sc - 1) with false
    by (symmetry; rewrite Z.geb_leb; apply Z.leb_gt; lia).
  replace (swappedMax sc =? index - 1) with true
    by (symmetry; apply Z.eqb_eq; exact Hmax).
  cbn [orb negb]. cbv zeta.
  rewrite Hopen, Hpw, Z.eqb_refl. cbn [negb].
  replace (swappedShrinkXid s =? xid) with false
    by (symmetry; apply Z.eqb_neq; exact Hshrink).
  set (old := nth (Z.to_nat index) (chunks sc) 0).
  set (sc1 := mkSwapChunk (setChunk (chunks sc) (Z.to_nat index) 0)
                (if swappedMin sc =? -1 then index else swappedMin sc) index
                (release sc)).
  set (file := writeChunk MEMORY_CHUNK_SIZE (files s xid) index (mem s old)).
  assert (Hsize : fileSize file
                  = Z.max (match files s xid with
                           | Some f => fileSize f
                           | None => 0
                           end) ((index + 1) * MEMORY_CHUNK_SIZE)).
  { subst file. unfold writeChunk, opened.
    destruct (files s xid); reflexivity. }
  assert (Haligned : Z.land (fileSize file) (MEMORY_CHUNK_SIZE - 1) = 0).
  { rewrite Hsize, Hchunk. apply land_max_aligned; [exact Hk |].
    destruct (files s xid) as [f |]; cbn in Hfile.
    - rewrite <- Hchunk. apply Hfile.
    - apply Z.land_0_l. }
  assert (Hat : chunkAt file index = mem s old).
  { subst file. unfold writeChunk. cbn [chunkAt]. rewrite Z.eqb_refl.
    reflexivity. }
  match goal with
  | |- exists s1 s2 sc2, (Returns true, ?S) = _ /\ _ =>
    set (s1 := S); exists s1
  end.
  assert (Hf1 : find xid (swapChunks (ctx s1)) = Some sc1).
  { subst s1. cbn [ctx withChunks swapChunks].
    apply find_update_same. congruence. }
  assert (Hfile1 : files s1 xid = Some file).
  { subst s1. cbn [files]. unfold putFile. rewrite Z.eqb_refl. reflexivity. }
  assert (Hmem1 : mem s1 = mem s) by reflexivity.
  assert (Hfreed1 : In old (freed s1)) by (left; reflexivity).
  clearbody s1.
  unfold unswap.
  replace (tc =? 0) with false by (symmetry; apply Z.eqb_neq; exact Htc).
  rewrite Hfile1, Haligned. cbn [Z.eqb negb].
  replace (fileSize file <? (index + 1) * MEMORY_CHUNK_SIZE) with false
    by (symmetry; apply Z.ltb_ge; rewrite Hsize; lia).
  rewrite Hopen. cbv zeta. rewrite Hpr, Z.eqb_refl. cbn [negb].
  cbn [set_mem ctx]. rewrite Hf1.
  assert (Hsc1 : swappedMax sc1 = index
                 /\ chunks sc1 = setChunk (chunks sc) (Z.to_nat index) 0
                 /\ swappedMin sc1
                    = (if swappedMin sc =? -1 then index else swappedMin sc))
    by (subst sc1; cbn; auto).
  destruct Hsc1 as (Hm1 & Hc1 & Hn1). clearbody sc1.
  rewrite Hm1, Hc1, Hn1.
  assert (Hupd : forall sc', find xid (update xid sc' (swapChunks (ctx s1)))
                             = Some sc')
    by (intros sc'; apply find_update_same; congruence).
  destruct Hrange as [[Hmin Hmx] | Hmin].
  - assert (Hi0 : index = 0) by lia.
    rewrite Hmin. cbn [Z.eqb]. rewrite !Z.eqb_refl.
    eexists. eexists. split; [reflexivity |]. split; [reflexivity |].
    cbn [set_ctx ctx withChunks swapChunks mem freed].
    split; [apply Hupd |]. cbn [swappedMin swappedMax chunks].
    split; [first [reflexivity | lia] | split; [lia |]].
    split; [apply setChunk_setChunk |].
    split; [| exact Hfreed1].
    unfold set_mem, set_ctx, set_files; cbn [mem]. rewrite Z.eqb_refl. exact Hat.
  - replace (swappedMin sc =? -1) with false
      by (symmetry; apply Z.eqb_neq; lia).
    replace (swappedMin sc =? index) with false
      by (symmetry; apply Z.eqb_neq; lia).
    rewrite Z.eqb_refl, Htr.
    eexists. eexists. split; [reflexivity |]. split; [reflexivity |].
    cbn [set_files set_ctx ctx withChunks swapChunks mem freed].
    split; [apply Hupd |]. cbn [swappedMin swappedMax chunks].
    split; [reflexivity | split; [lia |]].
    split; [apply setChunk_setChunk |].
    split; [| exact Hfreed1].
    unfold set_mem, set_ctx, set_files; cbn [mem]. rewrite Z.eqb_refl. exact Hat.
Qed.

End SwapFiles.

(** ** The memory manager: selection composed with swap and unswap *)

Section SwapEntries.

Import MemoryManager MemoryManagerSpec MemorySwap MemorySwapSpec.

Lemma update_update (xid : Xid) (sc sc' : SwapChunk)
    (l : list (Xid * SwapChunk)) :
  update xid sc' (update xid sc l) = update xid sc' l.
Proof.
  induction l as [| [x sc0] l IH]; cbn [update]; [reflexivity |].
  destruct (Z.eqb_spec x xid) as [-> | Hne]; cbn [update].
  - rewrite Z.eqb_refl. reflexivity.
  - destruct (Z.eqb_spec x xid); [contradiction |]. rewrite IH. reflexivity.
Qed.

Lemma update_find (xid : Xid) (sc : SwapChunk) (l : list (Xid * SwapChunk)) :
  find xid l = Some sc -> update xid sc l = l.
Proof.
  induction l as [| [x sc0] l IH]; cbn [find update]; [reflexivity |].
  destruct (Z.eqb_spec x xid) as [-> | Hne].
  - intros [= ->]. reflexivity.
  - intros H. rewrite IH by exact H. reflexivity.
Qed.

Lemma nth_setChunk (l : list Z) (i : nat) (p : Z) :
  (i < length l)%nat -> nth i (setChunk l i p) 0 = p.
Proof.
  revert i. induction l as [| c l IH]; intros i Hi; [cbn in Hi; lia |].
  destruct i as [| i]; cbn [setChunk nth]; [reflexivity |].
  apply IH. cbn in Hi. lia.
Qed.

Lemma find_erase_other (xid y : Xid) (l : list (Xid * SwapChunk)) :
  y <> xid -> find y (erase xid l) = find y l.
Proof.
  intros Hy. induction l as [| [x sc0] l IH]; cbn [find erase];
    [reflexivity |].
  destruct (Z.eqb_spec x xid) as [-> | Hne]; cbn [find].
  - destruct (Z.eqb_spec xid y); [congruence | reflexivity].
  - rewrite IH. reflexivity.
Qed.

Lemma find_None_notin (xid : Xid) (l : list (Xid * SwapChunk)) :
  ~ In xid (map fst l) -> find xid l = None.
Proof.
  induction l as [| [x sc0] l IH]; cbn [find map fst]; [reflexivity |].
  intros Hn. destruct (Z.eqb_spec x xid) as [-> | Hne].
  - exfalso. apply Hn. left. reflexivity.
  - apply IH. intros H. apply Hn. right. exact H.
Qed.

Lemma find_erase_same (xid : Xid) (l : list (Xid * SwapChunk)) :
  NoDup (map fst l) -> find xid (erase xid l) = None.
Proof.
  induction l as [| [x sc0] l IH]; cbn [find erase map fst]; [reflexivity |].
  intros Hnd. inversion Hnd as [| ? ? Hnotin Hnd']; subst.
  destruct (Z.eqb_spec x xid) as [-> | Hne].
  - apply find_None_notin. exact Hnotin.
  - cbn [find]. destruct (Z.eqb_spec x xid); [contradiction |].
    apply IH. exact Hnd'.
Qed.

Lemma erase_incl (xid x : Xid) (l : list (Xid * SwapChunk)) :
  In x (map fst (erase xid l)) -> In x (map fst l).
Proof.
  induction l as [| [y sc0] l IH]; cbn [erase map fst]; [auto |].
  destruct (y =? xid); cbn [map fst In]; intuition.
Qed.

Lemma erase_NoDup (xid : Xid) (l : list (Xid * SwapChunk)) :
  NoDup (map fst l) -> NoDup (map fst (erase xid l)).
Proof.
  induction l as [| [y sc0] l IH]; cbn [erase map fst]; [auto |].
  intros Hnd. inversion Hnd as [| ? ? Hnotin Hnd']; subst.
  destruct (y =? xid); [exact Hnd' |].
  cbn [map fst]. constructor; [| apply IH; exact Hnd'].
  intros H. apply Hnotin. apply (erase_incl xid). exact H.
Qed.

End SwapEntries.

Section SwapCompose.

Import MemoryManager MemoryManagerSpec MemorySwap MemorySwapSpec.

Variable MEMORY_CHUNK_SIZE : Z.
Variable openFails : Xid -> bool.
Variable preadBytes : Xid -> Z -> Z.
Variable pwriteBytes : Xid -> Z -> Z.
Variable unlinkFails : Xid -> bool.
Variable truncateFails : Xid -> Z -> bool.

(** X21: a write for the transaction that is being shrunk is discarded:
    when the system calls on the swap file succeed, [swap] still writes the
    chunk and counts it in [swappedMB], but then puts the chunk back,
    returns false, frees nothing, and leaves the selection state as it was;
    the swap file is removed if the chunk was the first one and cut back to
    its size before the write otherwise. *)
Theorem swap_shrink_discarded (xid : Xid) (index : Z) (s : Sys)
    (sc : SwapChunk) :
  0 < MEMORY_CHUNK_SIZE ->
  (index + 1) * MEMORY_CHUNK_SIZE < 2 ^ 63 ->
  openFails xid = false ->
  pwriteBytes xid index = MEMORY_CHUNK_SIZE ->
  unlinkFails xid = false ->
  (forall size, truncateFails xid size = false) ->
  find xid (swapChunks (ctx s)) = Some sc ->
  swappedShrinkXid s = xid ->
  chunkCount sc < 2 ^ 63 ->
  0 <= index < chunkCount sc - 1 ->
  swappedMax sc = index - 1 ->
  swapRange sc ->
  exists s1,
    swap MEMORY_CHUNK_SIZE openFails pwriteBytes unlinkFails truncateFails
      xid index s = (Returns false, s1)
    /\ ctx s1 = ctx s
    /\ mem s1 = mem s
    /\ freed s1 = freed s
    /\ swappedMB s1 = swappedMB s + 1
    /\ match files s1 xid with
       | None => index = 0
       | Some f => 0 < index /\ fileSize f = index * MEMORY_CHUNK_SIZE
       end.
Proof.
  clear preadBytes.
  intros Hpos Hoff Hopen Hpw Hul Htr Hfind Hshrink Hcount Hindex Hmax Hrange.
  unfold swap. rewrite Hfind.
  replace (chunkCount sc <=? 1) with false
    by (symmetry; apply Z.leb_gt; lia).
  rewrite to_int64_small by lia.
  replace (index >=? chunkCount sc - 1) with false
    by (symmetry; rewrite Z.geb_leb; apply Z.leb_gt; lia).
  replace (swappedMax sc =? index - 1) with true
    by (symmetry; apply Z.eqb_eq; exact Hmax).
  cbn [orb negb]. cbv zeta.
  rewrite Hopen, Hpw, Z.eqb_refl. cbn [negb].
  replace (swappedShrinkXid s =? xid) with true
    by (symmetry; apply Z.eqb_eq; exact Hshrink).
  cbn [swappedMax swappedMin chunks release ctx withChunks swapChunks].
  rewrite setChunk_setChunk.
  rewrite setChunk_same by (unfold chunkCount in Hindex; lia).
  rewrite !update_update.
  assert (Hctx : forall sc', sc' = sc ->
            withChunks
              (withChunks (ctx s)
                 (update xid
                    (mkSwapChunk (setChunk (chunks sc) (Z.to_nat index) 0)
                       (if swappedMin sc =? -1 then index else swappedMin sc)
                       index (release sc))
                    (swapChunks (ctx s))))
              (update xid sc' (swapChunks (ctx s)))
            = ctx s).
  { intros sc' ->. rewrite (update_find xid sc _ Hfind).
    unfold withChunks. cbn. destruct (ctx s). reflexivity. }
  destruct (Z.eqb_spec index 0) as [Hi0 | Hi0].
  - rewrite Hul. eexists. split; [reflexivity |].
    unfold set_files, set_ctx. cbn [ctx mem freed swappedMB files].
    split.
    + apply Hctx. destruct Hrange as [[Hmin Hmx] | Hmin]; [| lia].
      destruct sc; cbn in *. congruence.
    + split; [reflexivity |]. split; [reflexivity |].
      split; [reflexivity |].
      unfold putFile. rewrite Z.eqb_refl. exact Hi0.
  - replace ((index - 1 + 1) * MEMORY_CHUNK_SIZE >? 0) with true
      by (symmetry; rewrite Z.gtb_ltb; apply Z.ltb_lt; nia).
    rewrite Htr. eexists. split; [reflexivity |].
    unfold set_files, set_ctx. cbn [ctx mem freed swappedMB files].
    split.
    + apply Hctx. destruct Hrange as [[Hmin Hmx] | Hmin]; [lia |].
      replace (swappedMin sc =? -1) with false
        by (symmetry; apply Z.eqb_neq; lia).
      destruct sc; cbn in *. congruence.
    + split; [reflexivity |]. split; [reflexivity |].
      split; [reflexivity |].
      unfold putFile. rewrite Z.eqb_refl. cbn [fileSize]. lia.
Qed.

(** X22: [swap] never turns down what [getChunkToSwap] selected.  For a
    transaction that is not being shrunk: when [open] and [pwrite] succeed,
    [swap] returns true, the chunk's data is at that index of the
    transaction's swap file, the chunk is given back to the pool and
    counted, and the transaction's entry has a null pointer at that index
    and [swappedMax] equal to it; when one of them fails, [swap] throws
    50072 with the entry already changed in that way, but the chunk neither
    given back nor counted. *)
Theorem swap_accepts_selection (s : Sys) (xid0 xid : Xid) (index : Z) :
  uniqueXids (ctx s) ->
  (forall x sc, In (x, sc) (swapChunks (ctx s)) -> SwapChunk_wf sc) ->
  getChunkToSwap (ctx s) xid0 (-1) = (xid, index) ->
  index <> -1 ->
  swappedShrinkXid s <> xid ->
  exists sc,
    find xid (swapChunks (ctx s)) = Some sc
    /\ (openFails xid = false ->
        pwriteBytes xid index = MEMORY_CHUNK_SIZE ->
        exists s1 sc1 f,
          swap MEMORY_CHUNK_SIZE openFails pwriteBytes unlinkFails
            truncateFails xid index s = (Returns true, s1)
          /\ find xid (swapChunks (ctx s1)) = Some sc1
          /\ swappedMax sc1 = index
          /\ nth (Z.to_nat index) (chunks sc1) 0 = 0
          /\ freed s1 = nth (Z.to_nat index) (chunks sc) 0 :: freed s
          /\ swappedMB s1 = swappedMB s + 1
          /\ files s1 xid = Some f
          /\ chunkAt f index = mem s (nth (Z.to_nat index) (chunks sc) 0))
    /\ (openFails xid = true \/ pwriteBytes xid index <> MEMORY_CHUNK_SIZE ->
        exists s1 sc1,
          swap MEMORY_CHUNK_SIZE openFails pwriteBytes unlinkFails
            truncateFails xid index s = (Throws 50072, s1)
          /\ find xid (swapChunks (ctx s1)) = Some sc1
          /\ swappedMax sc1 = index
          /\ nth (Z.to_nat index) (chunks sc1) 0 = 0
          /\ freed s1 = freed s
          /\ swappedMB s1 = swappedMB s).
Proof.
  clear preadBytes.
  intros Huniq Hwf Hget Hidx Hshrink.
  unfold getChunkToSwap in Hget.
  destruct (nothingToSwap (ctx s)); [congruence |].
  apply scanSwapChunks_spec in Hget.
  destruct Hget as [E | (sc & Hin & Hi & Hmax & Hcount & Hrel & Hflush)];
    [congruence |].
  destruct (Hwf _ _ Hin) as [Hlow Hhigh].
  rewrite to_int64_small in Hmax by lia.
  apply (In_find _ _ _ Huniq) in Hin.
  exists sc. split; [exact Hin |].
  unfold swap. rewrite Hin.
  replace (chunkCount sc <=? 1) with false
    by (symmetry; apply Z.leb_gt; lia).
  rewrite to_int64_small by lia.
  replace (index >=? chunkCount sc - 1) with false
    by (symmetry; rewrite Z.geb_leb; apply Z.leb_gt; lia).
  replace (swappedMax sc =? index - 1) with true
    by (symmetry; apply Z.eqb_eq; lia).
  cbn [orb negb]. cbv zeta.
  replace (swappedShrinkXid s =? xid) with false
    by (symmetry; apply Z.eqb_neq; exact Hshrink).
  assert (Hlen : (Z.to_nat index < length (chunks sc))%nat)
    by (unfold chunkCount in *; lia).
  split.
  - intros Hopen Hpw. rewrite Hopen, Hpw, Z.eqb_refl. cbn [negb].
    eexists. eexists. eexists.
    split; [reflexivity |].
    cbn [ctx withChunks swapChunks freed swappedMB files].
    split; [apply find_update_same; congruence |].
    cbn [swappedMax chunks].
    split; [reflexivity |].
    split; [apply nth_setChunk; exact Hlen |].
    split; [reflexivity |]. split; [reflexivity |].
    unfold putFile. rewrite Z.eqb_refl. split; [reflexivity |].
    unfold writeChunk. cbn [chunkAt]. rewrite Z.eqb_refl. reflexivity.
  - intros Hfail.
    destruct (openFails xid) eqn:Hopen.
    + eexists. eexists. split; [reflexivity |].
      unfold set_ctx. cbn [ctx withChunks swapChunks freed swappedMB].
      split; [apply find_update_same; congruence |].
      cbn [swappedMax chunks].
      split; [reflexivity |].
      split; [apply nth_setChunk; exact Hlen |].
      split; reflexivity.
    + destruct Hfail as [Hf | Hf]; [discriminate |].
      replace (pwriteBytes xid index =? MEMORY_CHUNK_SIZE) with false
        by (symmetry; apply Z.eqb_neq; exact Hf).
      cbn [negb].
      eexists. eexists. split; [reflexivity |].
      unfold set_files, set_ctx.
      cbn [ctx withChunks swapChunks freed swappedMB].
      split; [apply find_update_same; congruence |].
      cbn [swappedMax chunks].
      split; [reflexivity |].
      split; [apply nth_setChunk; exact Hlen |].
      split; reflexivity.
Qed.

(** X23: [unswap] never finds the chunk that [getChunkToUnswap] selected
    out of range: when the transaction's swap file is there, has a size
    that is a multiple of the chunk size and reaches to the end of that
    chunk, and the system calls on it succeed, [unswap] returns true, the
    new memory chunk holds the file's data for the index and is the
    transaction's chunk at that index. *)
Theorem unswap_accepts_selection (s : Sys) (x0 xid : Xid) (index tc : Z)
    (f : File) :
  getChunkToUnswap s x0 (-1) = Returns (xid, index) ->
  index <> -1 ->
  tc <> 0 ->
  files s xid = Some f ->
  Z.land (fileSize f) (MEMORY_CHUNK_SIZE - 1) = 0 ->
  (index + 1) * MEMORY_CHUNK_SIZE <= fileSize f ->
  fileSize f < 2 ^ 63 ->
  openFails xid = false ->
  preadBytes xid index = MEMORY_CHUNK_SIZE ->
  unlinkFails xid = false ->
  (forall size, truncateFails xid size = false) ->
  exists s' sc sc',
    unswap MEMORY_CHUNK_SIZE openFails preadBytes unlinkFails truncateFails
      tc xid index s = (Returns true, s')
    /\ find xid (swapChunks (ctx s)) = Some sc
    /\ find xid (swapChunks (ctx s')) = Some sc'
    /\ chunks sc' = setChunk (chunks sc) (Z.to_nat index) tc
    /\ mem s' tc = chunkAt f index.
Proof.
  clear pwriteBytes.
  intros Hget Hidx Htc Hfile Haligned Hsize Hbound Hopen Hpr Hul Htr.
  assert (Hsel : exists sc, find xid (swapChunks (ctx s)) = Some sc
                            /\ (swappedMin sc = index
                                \/ swappedMax sc = index)).
  { unfold getChunkToUnswap in Hget.
    assert (Hshrink :
              (if swappedShrinkXid s =? 0 then Returns (x0, -1)
               else match find (swappedShrinkXid s) (swapChunks (ctx s)) with
                    | None => Throws 50070
                    | Some sc0 =>
                      if swappedMax sc0 =? -1 then Returns (x0, -1)
                      else Returns (swappedShrinkXid s, swappedMax sc0)
                    end) = Returns (xid, index) ->
              exists sc, find xid (swapChunks (ctx s)) = Some sc
                         /\ (swappedMin sc = index \/ swappedMax sc = index)).
    { destruct (swappedShrinkXid s =? 0); [congruence |].
      destruct (find (swappedShrinkXid s) (swapChunks (ctx s)))
        as [sc0 |] eqn:Hf; [| discriminate].
      destruct (swappedMax sc0 =? -1); [congruence |].
      intros H. injection H as Hx Hi. rewrite Hx in Hf.
      exists sc0. auto. }
    destruct (negb (swappedFlushXid (ctx s) =? 0)); [| auto].
    destruct (find (swappedFlushXid (ctx s)) (swapChunks (ctx s)))
      as [sc1 |] eqn:Hf; [| discriminate].
    destruct (swappedMin sc1 >? -1); [| auto].
    injection Hget as Hx Hi. rewrite Hx in Hf. exists sc1. auto. }
  destruct Hsel as (sc & Hfind & Hends).
  unfold unswap.
  replace (tc =? 0) with false by (symmetry; apply Z.eqb_neq; exact Htc).
  rewrite Hfile, Haligned. cbn [Z.eqb negb].
  replace (fileSize f <? (index + 1) * MEMORY_CHUNK_SIZE) with false
    by (symmetry; apply Z.ltb_ge; exact Hsize).
  rewrite Hopen. cbv zeta. rewrite Hpr, Z.eqb_refl. cbn [negb].
  cbn [set_mem ctx]. rewrite Hfind.
  assert (Hupd : forall sc', find xid (update xid sc' (swapChunks (ctx s)))
                             = Some sc')
    by (intros sc'; apply find_update_same; congruence).
  assert (Hmem : forall s0 : Sys,
            mem s0 = (fun p => if p =? tc then chunkAt f index else mem s p) ->
            mem s0 tc = chunkAt f index)
    by (intros s0 ->; rewrite Z.eqb_refl; reflexivity).
  destruct (Z.eqb_spec (swappedMin sc) index) as [Emin | Nmin].
  - destruct (swappedMin sc =? swappedMax sc);
      (eexists; exists sc; eexists; split; [reflexivity |];
       split; [reflexivity |]; split; [apply Hupd |];
       split; [cbn [chunks]; rewrite Emin; reflexivity |];
       apply Hmem; reflexivity).
  - destruct Hends as [E | Emax]; [contradiction |].
    rewrite Emax, Z.eqb_refl, Hul, Htr.
    destruct (swappedMin sc =? index);
      (eexists; exists sc; eexists; split; [reflexivity |];
       split; [reflexivity |]; split; [apply Hupd |];
       split; [cbn [chunks]; reflexivity |];
       apply Hmem; reflexivity).
Qed.

End SwapCompose.

Section CleanCommitted.

Import MemoryManager MemoryManagerSpec MemorySwap MemorySwapSpec.

Lemma cleanLoop_spec (unlinkFails : Xid -> bool) (xids : list Xid) :
  forall discard lg s,
    uniqueXids (ctx s) ->
    let s' := snd (cleanLoop unlinkFails xids discard lg s) in
    uniqueXids (ctx s')
    /\ commitedXids s' = commitedXids s
    /\ mem s' = mem s /\ freed s' = freed s
    /\ (forall xid, In xid xids -> find xid (swapChunks (ctx s')) = None)
    /\ (forall xid, ~ In xid xids ->
                    find xid (swapChunks (ctx s'))
                    = find xid (swapChunks (ctx s))
                    /\ files s' xid = files s xid)
    /\ (forall xid, files s xid = None -> files s' xid = None)
    /\ (forall xid, In xid xids ->
                    find xid (swapChunks (ctx s)) <> None ->
                    unlinkFails xid = false -> files s' xid = None).
Proof.
  induction xids as [| x xids IH]; intros discard lg s Huniq.
  - cbn. repeat split; auto; intros xid []; contradiction.
  - cbn [cleanLoop].
    destruct (find x (swapChunks (ctx s))) as [sc |] eqn:Hfx.
    + set (s1 := set_ctx (withChunks (ctx s) (erase x (swapChunks (ctx s))))
                   s).
      assert (Hu1 : uniqueXids (ctx s1))
        by (apply erase_NoDup; exact Huniq).
      assert (Hf1 : find x (swapChunks (ctx s1)) = None)
        by (apply find_erase_same; exact Huniq).
      assert (Ho1 : forall y, y <> x ->
                find y (swapChunks (ctx s1)) = find y (swapChunks (ctx s)))
        by (intros y Hy; apply find_erase_other; exact Hy).
      assert (Hfiles1 : files s1 = files s) by reflexivity.
      set (discard1 := if swappedMax sc >=? 0
                       then (discard + (swappedMax sc - swappedMin sc))
                              mod 2 ^ 64
                       else discard).
      assert (Hstep : exists lg1 s2,
                 (match files s1 x with
                  | None => cleanLoop unlinkFails xids discard1 lg s1
                  | Some _ =>
                    if unlinkFails x
                    then cleanLoop unlinkFails xids discard1 (lg ++ [10010]) s1
                    else cleanLoop unlinkFails xids discard1 lg
                           (set_files (putFile x None (files s1)) s1)
                  end) = cleanLoop unlinkFails xids discard1 lg1 s2
                 /\ ctx s2 = ctx s1 /\ commitedXids s2 = commitedXids s
                 /\ mem s2 = mem s /\ freed s2 = freed s
                 /\ (forall y, y <> x -> files s2 y = files s y)
                 /\ (forall y, files s y = None -> files s2 y = None)
                 /\ (unlinkFails x = false -> files s2 x = None)).
      { destruct (files s1 x) eqn:Hfile.
        - destruct (unlinkFails x) eqn:Hu.
          + exists (lg ++ [10010]), s1. repeat split; auto; discriminate.
          + exists lg, (set_files (putFile x None (files s1)) s1).
            repeat split; auto.
            * intros y Hy. cbn. unfold putFile.
              destruct (Z.eqb_spec y x); [contradiction | reflexivity].
            * intros y Hy. cbn. unfold putFile.
              destruct (Z.eqb_spec y x); [reflexivity | exact Hy].
            * intros _. cbn. unfold putFile. rewrite Z.eqb_refl.
              reflexivity.
        - exists lg, s1. repeat split; auto. }
      destruct Hstep as (lg1 & s2 & -> & Hc2 & Hx2 & Hm2 & Hfr2 & Hfo2
                         & Hfn2 & Hfx2).
      assert (Hu2 : uniqueXids (ctx s2)) by (rewrite Hc2; exact Hu1).
      specialize (IH discard1 lg1 s2 Hu2). cbn zeta in IH.
      destruct IH as (I1 & I2 & I3 & I4 & I5 & I6 & I7 & I8).
      cbn zeta.
      split; [exact I1 |]. split; [congruence |].
      split; [congruence |]. split; [congruence |].
      split; [| split; [| split]].
      * intros xid [-> | Hin].
        -- destruct (in_dec Z.eq_dec xid xids) as [Hi | Hni];
             [apply I5; exact Hi |].
           destruct (I6 xid Hni) as [E _]. rewrite E, Hc2. exact Hf1.
        -- apply I5. exact Hin.
      * intros xid Hn.
        assert (Hne : xid <> x) by (intros ->; apply Hn; left; reflexivity).
        assert (Hni : ~ In xid xids) by (intros H; apply Hn; right; exact H).
        destruct (I6 xid Hni) as [E1 E2]. split.
        -- rewrite E1, Hc2. apply Ho1. exact Hne.
        -- rewrite E2. apply Hfo2. exact Hne.
      * intros xid Hnone. apply I7. apply Hfn2. exact Hnone.
      * intros xid Hin Hfound Hu.
        destruct (Z.eq_dec xid x) as [-> | Hne].
        -- apply I7. apply Hfx2. exact Hu.
        -- destruct Hin as [E | Hin]; [congruence |].
           apply I8; [exact Hin | | exact Hu].
           rewrite Hc2, Ho1 by exact Hne. exact Hfound.
    + specialize (IH discard lg s Huniq). cbn zeta in IH.
      destruct IH as (I1 & I2 & I3 & I4 & I5 & I6 & I7 & I8).
      cbn zeta.
      split; [exact I1 |]. split; [exact I2 |].
      split; [exact I3 |]. split; [exact I4 |].
      split; [| split; [| split]].
      * intros xid [-> | Hin].
        -- destruct (in_dec Z.eq_dec xid xids) as [Hi | Hni];
             [apply I5; exact Hi |].
           destruct (I6 xid Hni) as [E _]. rewrite E. exact Hfx.
        -- apply I5. exact Hin.
      * intros xid Hn. apply I6. intros H. apply Hn. right. exact H.
      * exact I7.
      * intros xid [-> | Hin] Hfound Hu; [congruence |].
        apply I8; assumption.
Qed.

(** X24: [cleanOldTransactions] forgets every committed transaction and
    nothing else: the list of committed xids is empty afterwards, no
    committed xid has an entry in [swapChunks], the swap file of a
    committed transaction that had an entry is gone unless its [unlink]
    failed, and the entry and the swap file of every other transaction are
    what they were; memory and the chunk pool are not touched. *)
Theorem cleanOldTransactions_forgets (unlinkFails : Xid -> bool) (s : Sys) :
  uniqueXids (ctx s) ->
  let s' := snd (cleanOldTransactions unlinkFails s) in
  commitedXids s' = []
  /\ mem s' = mem s /\ freed s' = freed s
  /\ (forall xid, In xid (commitedXids s) ->
                  find xid (swapChunks (ctx s')) = None)
  /\ (forall xid, In xid (commitedXids s) ->
                  find xid (swapChunks (ctx s)) <> None ->
                  unlinkFails xid = false -> files s' xid = None)
  /\ (forall xid, ~ In xid (commitedXids s) ->
                  find xid (swapChunks (ctx s'))
                  = find xid (swapChunks (ctx s))
                  /\ files s' xid = files s xid).
Proof.
  intros Huniq. unfold cleanOldTransactions.
  set (s0 := mkSys (ctx s) (swappedShrinkXid s) [] (swappedMB s) (mem s)
               (freed s) (files s)).
  destruct (cleanLoop_spec unlinkFails (rev (commitedXids s)) 0 [] s0 Huniq)
    as (I1 & I2 & I3 & I4 & I5 & I6 & I7 & I8).
  cbn zeta.
  split; [exact I2 |]. split; [exact I3 |]. split; [exact I4 |].
  split; [| split].
  - intros xid Hin. apply I5. apply in_rev in Hin. exact Hin.
  - intros xid Hin Hfound Hu. apply I8; [| exact Hfound | exact Hu].
    apply in_rev in Hin. exact Hin.
  - intros xid Hn. apply I6. intros H. apply Hn. apply in_rev. exact H.
Qed.

End CleanCommitted.

Section ReaderMoreInstances.

Import Reader ReaderSpec ReaderMore.

Lemma reloadHeader_ok_witness :
  exists c' r' lg,
    reloadHeader false 512 0xFFFFFFFF scn12345 (fileRead goodFile) noCopy
      pwriteAll 20 plainCtx (initial 0xFFFFFFFF 0 true)
    = Some (Returns OK, c', r', lg)
    /\ validBlockSize (blockSize r') (u8 (headerBuffer r') 1)
    /\ compatVsn r' = 0x13000000
    /\ version c' = compatVsn r'
    /\ sequence r' = 9.
Proof.
  eexists. eexists. eexists. split; [vm_compute; reflexivity |].
  match goal with
  | |- validBlockSize (blockSize ?r) _ /\ _ /\ version ?c = _ /\ _ =>
    destruct (reloadHeader_ok false 512 0xFFFFFFFF scn12345
                (fileRead goodFile) noCopy pwriteAll 20 plainCtx
                (initial 0xFFFFFFFF 0 true) c r [LogInfo])
      as (H1 & H2 & H3 & H4 & H5 & H6 & H7)
  end.
  - vm_compute. reflexivity.
  - split; [exact H1 |]. split; [rewrite H2; vm_compute; reflexivity |].
    split; [exact H4 |]. rewrite H7. vm_compute. reflexivity.
Defined.

Lemma read1ToRead_bounds_witness :
  let toRead := read1ToRead 1048576 batchReader in
  0 <= toRead
  /\ bufferScan batchReader + toRead <= fileSize batchReader
  /\ bufferScan batchReader mod 1048576 + toRead <= 1048576
  /\ (toRead = 0 <-> bufferScan batchReader = fileSize batchReader).
Proof.
  apply (read1ToRead_bounds 1048576 batchReader); vm_compute;
    repeat split; discriminate.
Defined.

Lemma read1_window_witness :
  exists r' lg,
    read1 false 512 1048576 0xFFFFFFFF scn12345 (fileRead zeroFile) noCopy
      pwriteAll 77 20 plainCtx batchReader
    = Some (Returns false, plainCtx, r', lg)
    /\ bufferStart r' = bufferStart batchReader
    /\ bufferEnd r' <= bufferScan r'
    /\ exists g, 0 <= g
                 /\ bufferEnd r' = bufferEnd batchReader
                                   + g * blockSize batchReader.
Proof.
  eexists. eexists. split; [vm_compute; reflexivity |].
  eapply (read1_window false 512 1048576 0xFFFFFFFF scn12345
            (fileRead zeroFile) noCopy pwriteAll 77 20 plainCtx batchReader).
  - vm_compute. reflexivity.
  - vm_compute. discriminate.
  - vm_compute. discriminate.
Defined.

End ReaderMoreInstances.

Section ChecksumInstances.

Import Reader ReaderSpec ReaderMore ChecksumSpec.

Lemma calcChSum_detects_byte_witness :
  read16 false (setByte (headerBlock1 9 0x13000000 12553) 100 x01) 14
  <> calcChSum false false
       (setByte (headerBlock1 9 0x13000000 12553) 100 x01) 512.
Proof.
  apply (calcChSum_detects_byte false false (headerBlock1 9 0x13000000 12553)
           512 100 x01).
  - vm_compute. lia.
  - vm_compute. reflexivity.
  - vm_compute. discriminate.
  - vm_compute. reflexivity.
Defined.

Lemma checkBlockHeader_detects_byte_witness :
  fst (fst (checkBlockHeader false plainCtx
              (set_blockSize 512 (initial 0xFFFFFFFF 0 true))
              (setByte (headerBlock1 9 0x13000000 12553) 100 x01) 1 true))
  = ERROR_CRC.
Proof.
  apply (checkBlockHeader_detects_byte false plainCtx
           (set_blockSize 512 (initial 0xFFFFFFFF 0 true))
           (headerBlock1 9 0x13000000 12553) 1 true 100 x01).
  - reflexivity.
  - vm_compute. reflexivity.
  - vm_compute. lia.
  - vm_compute. reflexivity.
  - vm_compute. discriminate.
Defined.

End ChecksumInstances.

Section ParserMoreInstances.

Import Parser ParserSpec ParserRecord ParserMoreSpec.

Lemma pushAll_root_least_witness :
  In (twoMembers 1%nat) twoRecords
  /\ Forall (fun m => byPageOffset (twoMembers 1%nat) m) twoRecords.
Proof.
  apply (pushAll_root_least noMembers twoMembers 2 twoRecords).
  - reflexivity.
  - discriminate.
Defined.

Lemma dispatchLwn_throws_witness :
  exists tr,
    dispatchLwn analyzeBad (plainEnv 0) 2 twoMembers []
    = Some (Throws (DataException 50010), tr)
    /\ exists tr1 m,
         tr = tr1 ++ [AnalyzeLwn m]
         /\ analyzeBad tr m = Some (DataException 50010)
         /\ (ignoreDataErrors (plainEnv 0) = false
             \/ exists code, DataException 50010 = RuntimeException code).
Proof.
  eexists. split; [vm_compute; reflexivity |].
  apply (dispatchLwn_throws analyzeBad (plainEnv 0) 2 twoMembers []).
  vm_compute. reflexivity.
Defined.

Lemma dispatchLwn_ignores_data_errors_witness :
  exists a' tr,
    dispatchLwn analyzeBad lenientEnv 2 twoMembers [] = Some (Returns a', tr)
    /\ Permutation (analyzed tr) twoRecords
    /\ StronglySorted byPageOffset (analyzed tr).
Proof.
  apply (dispatchLwn_ignores_data_errors analyzeBad lenientEnv noMembers
           twoMembers 2 twoRecords).
  - reflexivity.
  - intros tr m code. unfold analyzeBad.
    destruct (pageOffset m =? 100); discriminate.
  - reflexivity.
Defined.

Lemma recordSize4_rounds_witness :
  (5 <= 0xFFFFFFFC ->
   recordSize4 5 mod 4 = 0 /\ 5 <= recordSize4 5 < 5 + 4)
  /\ (0xFFFFFFFC < 5 -> recordSize4 5 = 0).
Proof.
  apply (recordSize4_rounds 5).
  vm_compute. split; [discriminate | reflexivity].
Defined.

End ParserMoreInstances.

Section SwapMoreInstances.

Import MemoryManager MemoryManagerSpec MemorySwap MemorySwapSpec.

Lemma getChunkToSwap_finds_witness :
  snd (getChunkToSwap twoChunks 0 (-1)) <> -1.
Proof.
  apply (getChunkToSwap_finds twoChunks 0).
  - reflexivity.
  - intros x sc [H | []]. inversion H; subst. vm_compute.
    split; [discriminate | reflexivity].
  - exists 7, (mkSwapChunk [4096; 8192] (-1) (-1) false).
    split; [left; reflexivity |].
    vm_compute. repeat split; try discriminate; reflexivity.
Defined.

Lemma unswap_swap_distinct_witness :
  getChunkToUnswap busySys 0 (-1) = Returns (7, 0)
  /\ getChunkToSwap (ctx busySys) 0 (-1) = (9, 0)
  /\ (7, 0) <> (9, 0).
Proof.
  split; [reflexivity |]. split; [reflexivity |].
  apply (unswap_swap_distinct busySys 0 0 7 9 0 0).
  - vm_compute. repeat constructor; cbn; intuition discriminate.
  - reflexivity.
  - reflexivity.
  - discriminate.
  - discriminate.
Defined.

Lemma swap_unswap_round_trip_witness :
  exists s1 s2 sc2,
    swap 1048576 noFail wholeChunk noFail truncateOk 7 0 swapSys
    = (Returns true, s1)
    /\ unswap 1048576 noFail wholeChunk noFail truncateOk 20480 7 0 s1
       = (Returns true, s2)
    /\ find 7 (swapChunks (ctx s2)) = Some sc2
    /\ swappedMin sc2 = -1
    /\ swappedMax sc2 = -1
    /\ chunks sc2 = [20480; 8192]
    /\ mem s2 20480 = [x01; x02]
    /\ In 4096 (freed s1).
Proof.
  apply (swap_unswap_round_trip 1048576 noFail wholeChunk wholeChunk noFail
           truncateOk 7 0 swapSys
           (mkSwapChunk [4096; 8192] (-1) (-1) false) 20480).
  - exists 20. split; [lia | reflexivity].
  - vm_compute. reflexivity.
  - reflexivity.
  - reflexivity.
  - reflexivity.
  - reflexivity.
  - reflexivity.
  - discriminate.
  - vm_compute. reflexivity.
  - vm_compute. split; [discriminate | reflexivity].
  - reflexivity.
  - left. split; reflexivity.
  - exact I.
  - discriminate.
Defined.

Lemma swap_shrink_discarded_witness :
  exists s1,
    swap 1048576 noFail wholeChunk noFail truncateOk 7 0 shrinkingSys
    = (Returns false, s1)
    /\ ctx s1 = ctx shrinkingSys
    /\ mem s1 = mem shrinkingSys
    /\ freed s1 = freed shrinkingSys
    /\ swappedMB s1 = swappedMB shrinkingSys + 1
    /\ match files s1 7 with
       | None => 0 = 0
       | Some f => 0 < 0 /\ fileSize f = 0 * 1048576
       end.
Proof.
  apply (swap_shrink_discarded 1048576 noFail wholeChunk noFail truncateOk
           7 0 shrinkingSys (mkSwapChunk [4096; 8192] (-1) (-1) false)).
  - reflexivity.
  - vm_compute. reflexivity.
  - reflexivity.
  - reflexivity.
  - reflexivity.
  - reflexivity.
  - reflexivity.
  - reflexivity.
  - vm_compute. reflexivity.
  - vm_compute. split; [discriminate | reflexivity].
  - reflexivity.
  - left. split; reflexivity.
Defined.

Lemma swap_accepts_selection_witness :
  exists s1 sc sc1 f,
    swap 1048576 noFail wholeChunk noFail truncateOk 7 0 swapSys
    = (Returns true, s1)
    /\ find 7 (swapChunks (ctx swapSys)) = Some sc
    /\ find 7 (swapChunks (ctx s1)) = Some sc1
    /\ swappedMax sc1 = 0
    /\ nth (Z.to_nat 0) (chunks sc1) 0 = 0
    /\ freed s1 = nth (Z.to_nat 0) (chunks sc) 0 :: freed swapSys
    /\ swappedMB s1 = swappedMB swapSys + 1
    /\ files s1 7 = Some f
    /\ chunkAt f 0 = mem swapSys (nth (Z.to_nat 0) (chunks sc) 0).
Proof.
  destruct (swap_accepts_selection 1048576 noFail wholeChunk noFail
              truncateOk swapSys 0 7 0) as (sc & Hfind & Hok & _).
  - vm_compute. repeat constructor; cbn; intuition discriminate.
  - intros x sc [H | []]. inversion H; subst. vm_compute.
    split; [discriminate | reflexivity].
  - reflexivity.
  - discriminate.
  - discriminate.
  - destruct (Hok eq_refl eq_refl) as (s1 & sc1 & f & H).
    exists s1, sc, sc1, f.
    destruct H as (H1 & H2 & H3 & H4 & H5 & H6 & H7 & H8).
    repeat split; assumption.
Defined.

Lemma unswap_accepts_selection_witness :
  exists s' sc sc',
    unswap 1048576 noFail wholeChunk noFail truncateOk 20480 7 0 busySys
    = (Returns true, s')
    /\ find 7 (swapChunks (ctx busySys)) = Some sc
    /\ find 7 (swapChunks (ctx s')) = Some sc'
    /\ chunks sc' = setChunk (chunks sc) (Z.to_nat 0) 20480
    /\ mem s' 20480 = chunkAt chunkFile 0.
Proof.
  apply (unswap_accepts_selection 1048576 noFail wholeChunk noFail
           truncateOk busySys 0 7 0 20480 chunkFile).
  - reflexivity.
  - discriminate.
  - discriminate.
  - reflexivity.
  - reflexivity.
  - vm_compute. discriminate.
  - vm_compute. reflexivity.
  - reflexivity.
  - reflexivity.
  - reflexivity.
  - reflexivity.
Defined.

Lemma cleanOldTransactions_forgets_witness :
  let s' := snd (cleanOldTransactions (fun _ => false) busySys) in
  commitedXids s' = []
  /\ mem s' = mem busySys /\ freed s' = freed busySys
  /\ (forall xid, In xid (commitedXids busySys) ->
                  find xid (swapChunks (ctx s')) = None)
  /\ (forall xid, In xid (commitedXids busySys) ->
                  find xid (swapChunks (ctx busySys)) <> None ->
                  (fun _ : Xid => false) xid = false -> files s' xid = None)
  /\ (forall xid, ~ In xid (commitedXids busySys) ->
                  find xid (swapChunks (ctx s'))
                  = find xid (swapChunks (ctx busySys))
                  /\ files s' xid = files busySys xid).
Proof.
  apply (cleanOldTransactions_forgets (fun _ => false) busySys).
  vm_compute. repeat constructor; cbn; intuition discriminate.
Defined.

End SwapMoreInstances.
